(** * pr_toolbox: the diff-review pipeline of [review_code.py]

    A shallow embedding of the pure core of [GitHubPRReviewer]:
    the Diff Collector ([get_pr_diff]), the Size Estimator
    ([_estimate_tokens]), the Chunk Splitter ([_split_diff_into_files]),
    the Response Reconciler ([_parse_openai_response]) and the chunked-mode
    merge ([_analyze_large_diff]).

    Python values are modelled as follows.
    - [str] is a list of characters; a character is an [ascii], read as a
      code point below 256.
    - non-negative [int]s coming from the hosting API are [N]; other
      [int]s are [Z].
    - [float] is IEEE 754 binary64, through the Standard Library's
      [SpecFloat] operations at precision 53 and maximal exponent 1024.
    - values decoded from JSON are dynamically typed ([pyval]).
    - an exception is an explicit result ([py_result]).
    - the libraries are parameters: [json.loads], the completion API, the
      order of a [set], and the console in the handlers of
      [analyze_code_with_openai], [_analyze_large_diff] and
      [_parse_openai_response], whose lines carry text of the run (a
      reply, the text of an exception, the name of a chunk). *)

From Stdlib Require Import List Ascii String ZArith NArith Lia Bool Permutation.
From Stdlib Require Decimal DecimalString.
From Stdlib Require Import SpecFloat.
Import ListNotations.

Set Implicit Arguments.

(** ** Python strings *)

Module PyStr.

Definition str := list ascii.

(** A string literal of the source. *)
Definition lit (s : string) : str := list_ascii_of_string s.

Definition nl : ascii := "010"%char.

Definition str_eqb (a b : str) : bool :=
  if list_eq_dec ascii_dec a b then true else false.

(** [s.startswith(p)] *)
Fixpoint startswith (p s : str) : bool :=
  match p, s with
  | [], _ => true
  | _ :: _, [] => false
  | a :: p', b :: s' => Ascii.eqb a b && startswith p' s'
  end.

(** [s.endswith(p)] *)
Definition endswith (p s : str) : bool := startswith (rev p) (rev s).

(** [s.endswith((p1, ..., pn))]: true when some suffix of the tuple fits. *)
Definition endswith_any (ps : list str) (s : str) : bool :=
  existsb (fun p => endswith p s) ps.

(** [s.split('\n')]: the pieces between newlines; never the empty list. *)
Fixpoint split_nl (s : str) : list str :=
  match s with
  | [] => [[]]
  | c :: s' =>
      if Ascii.eqb c nl then [] :: split_nl s'
      else match split_nl s' with
           | [] => [[c]]
           | l :: ls => (c :: l) :: ls
           end
  end.

(** ['\n'.join(ls)] *)
Fixpoint join_nl (ls : list str) : str :=
  match ls with
  | [] => []
  | [l] => l
  | l :: ls' => l ++ nl :: join_nl ls'
  end.

(** [str(n)] and the [{n}] of an f-string, for a non-negative [int]. *)
Definition str_of_N (n : N) : str :=
  list_ascii_of_string (DecimalString.NilEmpty.string_of_uint (N.to_uint n)).

(** Truth value of a string: non-empty. *)
Definition truthy (s : str) : bool :=
  match s with [] => false | _ :: _ => true end.

Definition no_nl (s : str) : Prop := ~ In nl s.

End PyStr.
Import PyStr.

(** ** Diff Collector: [get_pr_diff] *)

Module Collector.

(** One entry of [pr.get_files()]. [patch] is [None] when the hosting API
    omits it. *)
Record ChangedFile := {
  filename : str;
  status : str;
  additions : N;
  deletions : N;
  patch : option str
}.

Definition binary_suffixes : list str :=
  [lit ".png"; lit ".jpg"; lit ".jpeg"; lit ".gif"; lit ".pdf"; lit ".zip";
   lit ".tar.gz"].

(** [if file.patch:] holds for a patch that is present and non-empty. *)
Definition patch_text (f : ChangedFile) : option str :=
  match patch f with
  | Some p => if truthy p then Some p else None
  | None => None
  end.

(** The three header lines after the [File: ] line and the [---] rule. *)
Definition header_tail (f : ChangedFile) : str :=
  lit "Status: " ++ status f ++ [nl] ++
  lit "Additions: " ++ str_of_N (additions f) ++ lit ", Deletions: " ++
  str_of_N (deletions f) ++ [nl] ++
  lit "---" ++ [nl].

Definition skipped_text (f : ChangedFile) : str :=
  lit "File: " ++ filename f ++ lit " (binary file - skipped)" ++ [nl].

Definition truncated_text (f : ChangedFile) (p : str) : str :=
  lit "File: " ++ filename f ++ lit " (large file - showing first 500 lines)" ++ [nl] ++
  header_tail f ++
  join_nl (firstn 500 (split_nl p)) ++
  [nl] ++ lit "... (truncated due to size)" ++ [nl; nl].

Definition full_text (f : ChangedFile) (p : str) : str :=
  lit "File: " ++ filename f ++ [nl] ++
  header_tail f ++
  p ++
  [nl; nl].

(** The three local variables of the loop. *)
Record state := {
  diff_content : str;
  total_files : N;
  total_changes : N
}.

Definition init : state :=
  {| diff_content := []; total_files := 0; total_changes := 0 |}.

(** One iteration of [for file in pr.get_files()]. *)
Definition step (st : state) (f : ChangedFile) : state :=
  match patch_text f with
  | None => st
  | Some p =>
      if endswith_any binary_suffixes (filename f) then
        {| diff_content := diff_content st ++ skipped_text f;
           total_files := total_files st;
           total_changes := total_changes st |}
      else
        {| diff_content :=
             diff_content st ++
             (if (1000 <? additions f + deletions f)%N
              then truncated_text f p else full_text f p);
           total_files := total_files st + 1;
           total_changes := total_changes st + (additions f + deletions f) |}
  end.

(** The loop of [get_pr_diff] over the listing of the hosting API. The
    returned blob is [diff_content]; the two counters are what the
    function prints before it returns. *)
Definition run (files : list ChangedFile) : state :=
  fold_left step files init.

Definition get_pr_diff (files : list ChangedFile) : str :=
  diff_content (run files).

End Collector.

(** ** Chunk Splitter: [_split_diff_into_files] *)

Module Splitter.

Record state := {
  chunks : list (str * str);
  current_file : option str;
  current_content : list str
}.

Definition init : state :=
  {| chunks := []; current_file := None; current_content := [] |}.

(** [if current_file and current_content: chunks.append(...)] *)
Definition flush (st : state) : list (str * str) :=
  match current_file st, current_content st with
  | Some (c :: f), _ :: _ =>
      chunks st ++ [(c :: f, join_nl (current_content st))]
  | _, _ => chunks st
  end.

Definition file_marker : str := lit "File: ".

(** One iteration of [for line in diff_content.split('\n')]. *)
Definition step (st : state) (line : str) : state :=
  if startswith file_marker line then
    {| chunks := flush st;
       current_file := Some (skipn 6 line);
       current_content := [line] |}
  else
    match current_file st with
    | Some (_ :: _) =>
        {| chunks := chunks st;
           current_file := current_file st;
           current_content := current_content st ++ [line] |}
    | _ => st
    end.

Definition _split_diff_into_files (diff : str) : list (str * str) :=
  flush (fold_left step (split_nl diff) init).

End Splitter.

(** ** Exceptions *)

(** The exceptions of the interpreter that the code meets, and the one of
    the console: Rich's [MarkupError] with its text. *)
Inductive exn :=
| OverflowError
| ValueError
| TypeError
| AttributeError
| MarkupError (msg : str).

Inductive py_result (A : Type) : Type :=
| Ok (a : A)
| Raise (e : exn).
Arguments Ok {A} a.
Arguments Raise {A} e.

Definition bind {A B : Type} (r : py_result A) (k : A -> py_result B) : py_result B :=
  match r with
  | Ok a => k a
  | Raise e => Raise e
  end.

Notation "x <- r ;; k" := (bind r (fun x => k))
  (at level 61, r at next level, right associativity).

(** ** The console *)

(** [console.print(text)] on the module's [Console()], whose markup is on:
    the text is read as console markup before it is shown. [console_print]
    is the library's side of the call: [None] when the text is printed,
    [Some msg] when the library raises [MarkupError(msg)], as it does for a
    closing tag [[/name]] that matches no open tag. *)
Definition print_markup (console_print : str -> option str) (text : str)
  : py_result unit :=
  match console_print text with
  | None => Ok tt
  | Some msg => Raise (MarkupError msg)
  end.

(** ** Size Estimator: [_estimate_tokens] *)

Module Estimator.

(** [c.isspace()] for a code point below 256: tab to carriage return, the
    four separators 28 to 31, the space, NEL and the no-break space. *)
Definition isspace (c : ascii) : bool :=
  let n := N_of_ascii c in
  ((9 <=? n) && (n <=? 13) || (28 <=? n) && (n <=? 32) || (n =? 133) || (n =? 160))%N.

(** [text.split()]: the maximal runs of characters that are not whitespace.
    [cur] is the run being read. *)
Fixpoint split_ws_from (cur : str) (s : str) : list str :=
  match s with
  | [] => if truthy cur then [cur] else []
  | c :: s' =>
      if isspace c
      then (if truthy cur then [cur] else []) ++ split_ws_from [] s'
      else split_ws_from (cur ++ [c]) s'
  end.

Definition split_ws (s : str) : list str := split_ws_from [] s.

(** binary64 *)
Definition prec : Z := 53.
Definition emax : Z := 1024.
Definition float := spec_float.

Definition fmul : float -> float -> float := SFmul prec emax.
Definition fadd : float -> float -> float := SFadd prec emax.

(** The conversion of an [int] operand of a float operation: the nearest
    double, ties to even; [OverflowError] when that is beyond the largest
    double. *)
Definition float_of_int (n : Z) : py_result float :=
  match binary_normalize prec emax n 0 false with
  | S754_infinity _ => Raise OverflowError
  | f => Ok f
  end.

(** The doubles that the literals [1.3] and [0.1] denote:
    [0x1.4cccccccccccdp+0] and [0x1.999999999999ap-4]. *)
Definition lit_1_3 : float := S754_finite false 5854679515581645 (-52).
Definition lit_0_1 : float := S754_finite false 7205759403792794 (-56).

(** [int(x)] of a float: truncation toward zero. *)
Definition int_of_float (x : float) : py_result Z :=
  match x with
  | S754_zero _ => Ok 0%Z
  | S754_finite s m e =>
      Ok (cond_Zopp s (if (0 <=? e)%Z then Zpos m * 2 ^ e
                       else Zpos m / 2 ^ (- e)))%Z
  | S754_infinity _ => Raise OverflowError
  | S754_nan => Raise ValueError
  end.

(** [round(x)] of a float: the nearest integer, ties to even. The source
    does not call it; the specification's formula does. *)
Definition round_of_float (x : float) : py_result Z :=
  match x with
  | S754_zero _ => Ok 0%Z
  | S754_finite s m e =>
      if (0 <=? e)%Z then Ok (cond_Zopp s (Zpos m * 2 ^ e))%Z
      else
        let d := (2 ^ (- e))%Z in
        let q := (Zpos m / d)%Z in
        let r := (Zpos m mod d)%Z in
        Ok (cond_Zopp s
              (match (2 * r ?= d)%Z with
               | Lt => q
               | Gt => q + 1
               | Eq => if Z.even q then q else q + 1
               end))%Z
  | S754_infinity _ => Raise OverflowError
  | S754_nan => Raise ValueError
  end.

(** [words * 1.3 + chars * 0.1] *)
Definition weighted (words chars : Z) : py_result float :=
  w <- float_of_int words ;;
  c <- float_of_int chars ;;
  Ok (fadd (fmul w lit_1_3) (fmul c lit_0_1)).

Definition _estimate_tokens (text : str) : py_result Z :=
  let words := Z.of_nat (List.length (split_ws text)) in
  let chars := Z.of_nat (List.length text) in
  x <- weighted words chars ;;
  int_of_float x.

(** The formula as the specification words it: with [round] where the
    source has [int]. *)
Definition spec_estimate (text : str) : py_result Z :=
  let words := Z.of_nat (List.length (split_ws text)) in
  let chars := Z.of_nat (List.length text) in
  x <- weighted words chars ;;
  round_of_float x.

End Estimator.

(** ** Values decoded from JSON *)

(** What [json.loads] builds: [None], [bool], [int], [float], [str],
    [list] and [dict] (bindings in insertion order). The fields of the two
    dataclasses are not checked against their annotations, so they hold
    such values. *)
#[local] Unset Elimination Schemes.
Inductive pyval :=
| PNone
| PBool (b : bool)
| PInt (z : Z)
| PFloat (f : spec_float)
| PStr (s : str)
| PList (l : list pyval)
| PDict (d : list (str * pyval)).
#[local] Set Elimination Schemes.

Definition pstr (s : string) : pyval := PStr (lit s).

Module Reconciler.

Record CodeIssue := {
  severity : pyval;
  category : pyval;
  title : pyval;
  description : pyval;
  line_number : pyval;
  file_path : pyval;
  suggestion : pyval
}.

Record ReviewResult := {
  issues : list CodeIssue;
  summary : pyval;
  overall_score : pyval;
  recommendations : pyval
}.

(** The value bound to key [k] in a [dict]. *)
Fixpoint dict_get (d : list (str * pyval)) (k : str) : option pyval :=
  match d with
  | [] => None
  | (k', v) :: d' => if str_eqb k' k then Some v else dict_get d' k
  end.

(** [x.get(k, default)]; only a [dict] has the method. *)
Definition py_get (x : pyval) (k : str) (default : pyval) : py_result pyval :=
  match x with
  | PDict d =>
      Ok (match dict_get d k with Some v => v | None => default end)
  | _ => Raise AttributeError
  end.

(** The elements that [for y in x] and [list.extend(x)] go through: the
    items of a list, the characters of a string, the keys of a dict. *)
Definition py_iter (x : pyval) : py_result (list pyval) :=
  match x with
  | PList l => Ok l
  | PStr s => Ok (map (fun c => PStr [c]) s)
  | PDict d => Ok (map (fun kv => PStr (fst kv)) d)
  | PNone | PBool _ | PInt _ | PFloat _ => Raise TypeError
  end.

(** The suffix of [s] that starts at the first [c]. *)
Fixpoint from_first (c : ascii) (s : str) : option str :=
  match s with
  | [] => None
  | a :: s' => if Ascii.eqb a c then Some s else from_first c s'
  end.

(** The prefix of [s] that ends at the last [c]. *)
Fixpoint upto_last (c : ascii) (s : str) : option str :=
  match s with
  | [] => None
  | a :: s' =>
      match upto_last c s' with
      | Some t => Some (a :: t)
      | None => if Ascii.eqb a c then Some [a] else None
      end
  end.

(** [re.search(r'\{.*\}', response, re.DOTALL)]: the leftmost opening
    brace, then as much as possible up to a closing brace. *)
Definition search_braces (response : str) : option str :=
  match from_first "{" response with
  | Some (b :: rest) =>
      match upto_last "}" rest with
      | Some t => Some (b :: t)
      | None => None
      end
  | _ => None
  end.

Definition issue_of (issue_data : pyval) : py_result CodeIssue :=
  sev <- py_get issue_data (lit "severity") (pstr "info") ;;
  cat <- py_get issue_data (lit "category") (pstr "best_practice") ;;
  tit <- py_get issue_data (lit "title") (pstr "") ;;
  des <- py_get issue_data (lit "description") (pstr "") ;;
  lin <- py_get issue_data (lit "line_number") PNone ;;
  fil <- py_get issue_data (lit "file_path") PNone ;;
  sug <- py_get issue_data (lit "suggestion") PNone ;;
  Ok {| severity := sev; category := cat; title := tit; description := des;
        line_number := lin; file_path := fil; suggestion := sug |}.

(** The loop [for issue_data in ...: issues.append(CodeIssue(...))]. *)
Fixpoint issues_of (items : list pyval) : py_result (list CodeIssue) :=
  match items with
  | [] => Ok []
  | x :: items' =>
      i <- issue_of x ;;
      rest <- issues_of items' ;;
      Ok (i :: rest)
  end.

(** The result of the [except Exception] branch. *)
Definition fallback : ReviewResult :=
  {| issues := [];
     summary := pstr "Error parsing OpenAI response";
     overall_score := PInt 0;
     recommendations := PList [pstr "Review the code manually"] |}.

Section Parse.

(** [json.loads]; [None] when it raises. *)
Variable json_loads : str -> option pyval.

(** The body of the [try]. *)
Definition parse_body (response : str) : py_result ReviewResult :=
  match search_braces response with
  | None => Raise ValueError
  | Some j =>
      match json_loads j with
      | None => Raise ValueError
      | Some data =>
          iss <- py_get data (lit "issues") (PList []) ;;
          items <- py_iter iss ;;
          issues <- issues_of items ;;
          sum <- py_get data (lit "summary") (pstr "") ;;
          sco <- py_get data (lit "overall_score") (PInt 0) ;;
          rec <- py_get data (lit "recommendations") (PList []) ;;
          Ok {| issues := issues; summary := sum; overall_score := sco;
                recommendations := rec |}
      end
  end.

(** The console of the module. *)
Variable console_print : str -> option str.

(** [str(e)] for the exception [e] that [json.loads] or the interpreter
    raises in the [try] on a response: the wording is theirs. *)
Variable error_text : str -> str.

(** [str(e)] in the handler: the text of the [ValueError] of the source
    when no brace pair is found. *)
Definition failure_text (response : str) : str :=
  match search_braces response with
  | None => lit "No JSON found in response"
  | Some _ => error_text response
  end.

(** The two lines that the handler prints. *)
Definition warning_line (response : str) : str :=
  lit "[yellow]Warning: Could not parse OpenAI response: " ++
  failure_text response ++ lit "[/yellow]".

Definition raw_line (response : str) : str :=
  lit "[yellow]Raw response: " ++ response ++ lit "[/yellow]".

(** The [except Exception] branch prints the two lines and then returns
    the fallback; a print that raises leaves the function with that
    exception. *)
Definition _parse_openai_response (response : str) : py_result ReviewResult :=
  match parse_body response with
  | Ok r => Ok r
  | Raise _ =>
      _ <- print_markup console_print (warning_line response) ;;
      _ <- print_markup console_print (raw_line response) ;;
      Ok fallback
  end.

End Parse.

End Reconciler.

(** ** Chunked mode: [_analyze_large_diff] *)

Module Merger.
Import Reconciler.

(** What one request to the completion API comes to inside the [try]:
    the call (or the access to [choices[0].message.content]) raises, or
    there is a [content], which is [None] or text. *)
Inductive api_reply :=
| Failed
| Content (c : option str).

Record state := {
  all_issues : list CodeIssue;
  all_recommendations : list pyval;
  scores : list pyval
}.

Definition init : state :=
  {| all_issues := []; all_recommendations := []; scores := [] |}.

(** [sum(scores)] as long as the running sum is an [int]: [bool]s count as
    0 and 1; a [float] turns the sum into a float; anything else is a
    [TypeError]. *)
Inductive int_sum := IntSum (z : Z) | FloatSum | BadSum.

Fixpoint sum_ints (acc : Z) (l : list pyval) : int_sum :=
  match l with
  | [] => IntSum acc
  | PInt y :: l' => sum_ints (acc + y) l'
  | PBool b :: l' => sum_ints (acc + Z.b2z b) l'
  | PFloat _ :: _ => FloatSum
  | _ :: _ => BadSum
  end.

(** [list] and [dict] values cannot be members of a [set]. *)
Definition hashable (v : pyval) : bool :=
  match v with
  | PList _ | PDict _ => false
  | _ => true
  end.

Definition is_str (v : pyval) : Prop :=
  match v with PStr _ => True | _ => False end.

Section Analyze.

Variable json_loads : str -> option pyval.

(** The completion API together with [_build_chunk_analysis_prompt]: the
    reply to the request number [i] of the run, made for the chunk
    [(filename, chunk_content)] under the title [pr_title]. *)
Variable chat : nat -> str -> str -> str -> api_reply.

(** [sum(scores) // len(scores)] once a float is among the scores: float
    arithmetic on scores is left to the interpreter. *)
Variable float_floordiv : list pyval -> py_result pyval.

(** [list(set(l))]: the order in which a set built from [l] is gone
    through. It depends on the hashes, which change from run to run for
    strings. *)
Variable set_order : list pyval -> list pyval.

(** The console of the module, and [str(e)] for the exception that
    [json.loads] or the interpreter raises in the reconciler. *)
Variable console_print : str -> option str.
Variable error_text : str -> str.

(** [str(e)] for the exception [e] that the request of a chunk, or
    [list.extend] on its recommendations, raises: the wording is the API
    library's or the interpreter's. *)
Variable chunk_error_text : nat -> str -> str -> str -> str.

(** The line that the handler of a chunk's [try] prints. *)
Definition chunk_warning_line (filename text : str) : str :=
  lit "[yellow]Warning: Error analyzing chunk " ++ filename ++ lit ": " ++
  text ++ lit "[/yellow]".

(** [str(e)] for an exception that comes out of the reconciler: the text of
    the console's [MarkupError]. *)
Definition raised_text (e : exn) (otherwise : str) : str :=
  match e with
  | MarkupError msg => msg
  | _ => otherwise
  end.

(** The body of [for i, (filename, chunk_content) in enumerate(file_chunks)].
    An exception raised in the [try] (by the request, by the reconciler
    when the console refuses one of its lines, or by [extend], which leaves
    the [try] after the issues were added and before the score is) takes
    the chunk to the handler, which prints a warning; when that print
    raises, the loop is left with its exception. *)
Definition step (pr_title : str) (st : state) (ic : nat * (str * str))
  : py_result state :=
  let '(i, (filename, chunk_content)) := ic in
  let text := chunk_error_text i filename chunk_content pr_title in
  match chat i filename chunk_content pr_title with
  | Failed =>
      _ <- print_markup console_print (chunk_warning_line filename text) ;;
      Ok st
  | Content None => Ok st
  | Content (Some content) =>
      if truthy content then
        match _parse_openai_response json_loads console_print error_text
                content with
        | Raise e =>
            _ <- print_markup console_print
                   (chunk_warning_line filename (raised_text e text)) ;;
            Ok st
        | Ok chunk_result =>
            let issues' := all_issues st ++ issues chunk_result in
            match py_iter (recommendations chunk_result) with
            | Raise _ =>
                _ <- print_markup console_print
                       (chunk_warning_line filename text) ;;
                Ok {| all_issues := issues';
                      all_recommendations := all_recommendations st;
                      scores := scores st |}
            | Ok rs =>
                Ok {| all_issues := issues';
                      all_recommendations := all_recommendations st ++ rs;
                      scores := scores st ++ [overall_score chunk_result] |}
            end
        end
      else Ok st
  end.

(** The loop, from a state on. *)
Fixpoint run_chunks (pr_title : str) (l : list (nat * (str * str))) (st : state)
  : py_result state :=
  match l with
  | [] => Ok st
  | ic :: l' =>
      st' <- step pr_title st ic ;;
      run_chunks pr_title l' st'
  end.

Definition analyze_chunks (pr_title : str) (file_chunks : list (str * str))
  : py_result state :=
  run_chunks pr_title
    (combine (seq 0 (List.length file_chunks)) file_chunks) init.

(** [sum(scores) // len(scores) if scores else 0] *)
Definition merged_score (scores : list pyval) : py_result pyval :=
  match scores with
  | [] => Ok (PInt 0)
  | _ :: _ =>
      match sum_ints 0 scores with
      | IntSum s => Ok (PInt (s / Z.of_nat (List.length scores)))
      | FloatSum => float_floordiv scores
      | BadSum => Raise TypeError
      end
  end.

(** [list(set(all_recommendations))[:5]] *)
Definition unique_recommendations (recs : list pyval) : py_result pyval :=
  if forallb hashable recs then Ok (PList (firstn 5 (set_order recs)))
  else Raise TypeError.

Definition merged_summary (n_chunks n_issues : nat) : pyval :=
  PStr (lit "Analyzed " ++ str_of_N (N.of_nat n_chunks) ++
        lit " files with " ++ str_of_N (N.of_nat n_issues) ++
        lit " total issues found").

Definition _analyze_large_diff (diff_content pr_title pr_description : str)
  : py_result ReviewResult :=
  let file_chunks := Splitter._split_diff_into_files diff_content in
  st <- analyze_chunks pr_title file_chunks ;;
  overall <- merged_score (scores st) ;;
  unique <- unique_recommendations (all_recommendations st) ;;
  Ok {| issues := all_issues st;
        summary := merged_summary (List.length file_chunks)
                                   (List.length (all_issues st));
        overall_score := overall;
        recommendations := unique |}.

End Analyze.

(** What the code relies on from [set]: for strings, the members are the
    distinct elements of the list, each once. *)
Definition set_semantics (set_order : list pyval -> list pyval) : Prop :=
  forall l, Forall is_str l ->
    NoDup (set_order l) /\ forall x, In x (set_order l) <-> In x l.

End Merger.

(** ** More string methods *)

Module PyText.

(** [s.lstrip()], [s.rstrip()] and [s.strip()]: without the whitespace at
    the ends. *)
Fixpoint lstrip (s : str) : str :=
  match s with
  | [] => []
  | c :: s' => if Estimator.isspace c then lstrip s' else s
  end.

Definition rstrip (s : str) : str := rev (lstrip (rev s)).

Definition strip (s : str) : str := rstrip (lstrip s).

(** [s.replace(old, new)] for a non-empty [old]: every occurrence of [old]
    met from the left, none overlapping another, becomes [new]. [skip]
    counts the characters of an occurrence still to pass over. *)
Fixpoint replace_from (skip : nat) (old new s : str) : str :=
  match s with
  | [] => []
  | c :: s' =>
      match skip with
      | S k => replace_from k old new s'
      | O =>
          if startswith old s
          then new ++ replace_from (List.length old - 1) old new s'
          else c :: replace_from 0 old new s'
      end
  end.

Definition replace (old new s : str) : str := replace_from 0 old new s.

End PyText.

(** ** Single-shot mode: [analyze_code_with_openai] and the guard of [main] *)

Module Requester.
Import Reconciler Merger.

(** What the one request of the single-shot mode comes to: the call
    raises an exception whose text is [text] (inside the [try]); reading
    [response.choices[0].message.content] raises [e] (after the [try]); or
    there is a [content]. *)
Inductive completion :=
| CallFails (text : str)
| BadShape (e : exn)
| Message (content : option str).

(** How a call of the reviewer ends: with a result, with [sys.exit(code)],
    or with an exception that goes to the caller. *)
Inductive ending :=
| Returns (r : ReviewResult)
| Exits (code : Z)
| Raises (e : exn).

(** [model = "gpt-4"; if estimated_tokens > 4000: model = "gpt-3.5-turbo-16k"] *)
Definition model_for (estimated_tokens : Z) : str :=
  if (4000 <? estimated_tokens)%Z then lit "gpt-3.5-turbo-16k" else lit "gpt-4".

Section Analyze.

Variable json_loads : str -> option pyval.
Variable chat : nat -> str -> str -> str -> api_reply.
Variable float_floordiv : list pyval -> py_result pyval.
Variable set_order : list pyval -> list pyval.
Variable console_print : str -> option str.
Variable error_text : str -> str.
Variable chunk_error_text : nat -> str -> str -> str -> str.

(** The completion API together with [_build_analysis_prompt]: the reply
    to the request made with [model] for the whole diff, the title and the
    description. *)
Variable complete : str -> str -> str -> str -> completion.

(** The request and what follows it. A call that raises is reported on the
    console and ends the program with [sys.exit(1)]; when the console
    refuses that line, its exception leaves the handler instead. A result
    of the reconciler is returned, and its exception goes to the caller. *)
Definition single_request (model diff_content pr_title pr_description : str)
  : ending :=
  match complete model diff_content pr_title pr_description with
  | CallFails text =>
      match print_markup console_print
              (lit "[red]Error calling OpenAI API: " ++ text ++ lit "[/red]") with
      | Ok _ => Exits 1
      | Raise e => Raises e
      end
  | BadShape e => Raises e
  | Message None => Exits 1
  | Message (Some content) =>
      match _parse_openai_response json_loads console_print error_text
              content with
      | Ok r => Returns r
      | Raise e => Raises e
      end
  end.

Definition chunked (diff_content pr_title pr_description : str) : ending :=
  match _analyze_large_diff json_loads chat float_floordiv set_order
          console_print error_text chunk_error_text
          diff_content pr_title pr_description with
  | Ok r => Returns r
  | Raise e => Raises e
  end.

Definition analyze_code_with_openai (diff_content pr_title pr_description : str)
  : ending :=
  match Estimator._estimate_tokens diff_content with
  | Raise e => Raises e
  | Ok estimated_tokens =>
      if (6000 <? estimated_tokens)%Z
      then chunked diff_content pr_title pr_description
      else single_request (model_for estimated_tokens)
             diff_content pr_title pr_description
  end.

End Analyze.

(** [if not diff_content.strip(): return] in [main]: no analysis of a blob
    that is empty or blank. *)
Definition returns_early (diff_content : str) : bool :=
  negb (truthy (PyText.strip diff_content)).

End Requester.

(** ** The report: the colour of the score in [display_review_results] *)

Module Reporter.

(** [v >= k] for an [int] [k] of less than 54 bits (its conversion to a
    double is then exact): numbers compare by value, a [bool] as 0 or 1, a
    [nan] is not above anything; a value of another type raises
    [TypeError]. *)
Definition ge_int (v : pyval) (k : Z) : py_result bool :=
  match v with
  | PBool b => Ok (k <=? (if b then 1 else 0))%Z
  | PInt z => Ok (k <=? z)%Z
  | PFloat f =>
      Ok (SFleb (binary_normalize Estimator.prec Estimator.emax k 0 false) f)
  | PNone | PStr _ | PList _ | PDict _ => Raise TypeError
  end.

(** ["green" if result.overall_score >= 80 else "yellow" if
    result.overall_score >= 60 else "red"] *)
Definition score_color (overall_score : pyval) : py_result str :=
  high <- ge_int overall_score 80 ;;
  if (high : bool) then Ok (lit "green")
  else
    fair <- ge_int overall_score 60 ;;
    if (fair : bool) then Ok (lit "yellow") else Ok (lit "red").

End Reporter.

(** ** [set_description.py]: [get_repo_from_remote] and the description *)

Module Describer.
Import PyText.

(** [stdout] is what [git remote get-url origin] printed, [None] when the
    command fails or [git] is missing. A URL of another kind falls off
    the end of the function: [None]. *)
Definition get_repo_from_remote (stdout : option str) : option str :=
  match stdout with
  | None => None
  | Some out =>
      let remote_url := strip out in
      if startswith (lit "https://") remote_url then
        Some (replace (lit ".git") []
                (replace (lit "https://github.com/") [] remote_url))
      else if startswith (lit "git@") remote_url then
        Some (replace (lit ".git") []
                (replace (lit "git@github.com:") [] remote_url))
      else None
  end.

(** [generate_pr_description], given what its request comes to. All of it
    is inside the [try]: a call that raises gives [None], and so does a
    [content] that is [None], whose [.strip()] raises [AttributeError]. *)
Definition generate_pr_description (reply : Merger.api_reply) : option str :=
  match reply with
  | Merger.Failed => None
  | Merger.Content None => None
  | Merger.Content (Some content) => Some (strip content)
  end.

(** What [main] shows as the generated description; [None] when it prints
    [Failed to generate description] instead
    ([if not new_description: ... return]). *)
Definition shown_description (reply : Merger.api_reply) : option str :=
  match generate_pr_description reply with
  | None => None
  | Some new_description =>
      if truthy new_description then Some new_description else None
  end.

End Describer.

(** * Properties *)

(** ** Lines of a string *)

Section Lines.

Lemma split_nl_not_nil (s : str) : split_nl s <> [].
Proof.
  destruct s as [|c s]; simpl; [discriminate|].
  destruct (Ascii.eqb c nl); [discriminate|].
  destruct (split_nl s); discriminate.
Qed.

Lemma split_nl_app (a b : str) :
  split_nl (a ++ nl :: b) = split_nl a ++ split_nl b.
Proof.
  induction a as [|c a IH]; simpl.
  - reflexivity.
  - destruct (Ascii.eqb c nl).
    + now rewrite IH.
    + rewrite IH. pose proof (split_nl_not_nil a) as Hne.
      destruct (split_nl a); [contradiction|reflexivity].
Qed.

Lemma split_nl_line (l : str) : no_nl l -> split_nl l = [l].
Proof.
  unfold no_nl. induction l as [|c l IH]; simpl; intros Hl.
  - reflexivity.
  - destruct (Ascii.eqb c nl) eqn:E.
    + apply Ascii.eqb_eq in E. subst c. exfalso. apply Hl. now left.
    + rewrite IH; [reflexivity|]. intros Hin. apply Hl. now right.
Qed.

Lemma split_nl_cons_line (l rest : str) :
  no_nl l -> split_nl (l ++ nl :: rest) = l :: split_nl rest.
Proof.
  intros Hl. rewrite split_nl_app, split_nl_line by assumption. reflexivity.
Qed.

Lemma join_split_nl (s : str) : join_nl (split_nl s) = s.
Proof.
  induction s as [|c s IH]; simpl.
  - reflexivity.
  - pose proof (split_nl_not_nil s) as Hne.
    destruct (Ascii.eqb c nl) eqn:E.
    + apply Ascii.eqb_eq in E. subst c.
      destruct (split_nl s) as [|x xs]; [contradiction|].
      simpl in *. now rewrite IH.
    + destruct (split_nl s) as [|x xs]; [contradiction|].
      destruct xs; simpl in *; now rewrite <- IH.
Qed.

Lemma startswith_app (p s : str) : startswith p (p ++ s) = true.
Proof.
  induction p as [|a p IH]; simpl; [reflexivity|].
  now rewrite Ascii.eqb_refl, IH.
Qed.

Lemma no_nl_app (a b : str) : no_nl a -> no_nl b -> no_nl (a ++ b).
Proof.
  unfold no_nl. intros Ha Hb Hin. apply in_app_or in Hin. tauto.
Qed.

(** Decimal numerals have no line break. *)
Lemma no_nl_uint (d : Decimal.uint) :
  no_nl (list_ascii_of_string (DecimalString.NilEmpty.string_of_uint d)).
Proof.
  unfold no_nl.
  induction d; simpl; intros H; try tauto;
    (destruct H as [H|H]; [discriminate H | tauto]).
Qed.

Lemma no_nl_str_of_N (n : N) : no_nl (str_of_N n).
Proof. apply no_nl_uint. Qed.

End Lines.

Unset Implicit Arguments.

Section MoreLines.

Lemma split_nl_no_nl (s : str) : Forall no_nl (split_nl s).
Proof.
  induction s as [|c s IH]; simpl.
  - constructor; [|constructor]. intros [].
  - destruct (Ascii.eqb c nl) eqn:E.
    + constructor; [intros []|assumption].
    + destruct (split_nl s) as [|l ls]; [repeat constructor|].
      * intros [H|[]]. subst c. now rewrite Ascii.eqb_refl in E.
      * inversion IH as [|? ? Hl Hls]; subst.
        constructor; [|assumption].
        intros [H|H]; [|now apply Hl].
        subst c. now rewrite Ascii.eqb_refl in E.
Qed.

Lemma split_join_nl (ls : list str) :
  ls <> [] -> Forall no_nl ls -> split_nl (join_nl ls) = ls.
Proof.
  induction ls as [|l ls IH]; intros Hne H; [contradiction|].
  inversion H as [|? ? Hl Hls]; subst.
  destruct ls as [|l2 ls].
  - simpl. now apply split_nl_line.
  - change (join_nl (l :: l2 :: ls)) with (l ++ nl :: join_nl (l2 :: ls)).
    rewrite split_nl_cons_line by assumption.
    rewrite IH by (assumption || discriminate). reflexivity.
Qed.

Lemma join_nl_cons (l : str) (ls : list str) :
  ls <> [] -> join_nl (l :: ls) = l ++ nl :: join_nl ls.
Proof. destruct ls; [contradiction|reflexivity]. Qed.

Lemma join_nl_firstn_prefix (n : nat) (ls : list str) :
  exists rest, join_nl ls = join_nl (firstn n ls) ++ rest.
Proof.
  revert ls. induction n as [|n IH]; intros ls.
  - exists (join_nl ls). reflexivity.
  - destruct ls as [|l ls]; [exists []; reflexivity|].
    cbn [firstn]. destruct (IH ls) as (rest & E).
    destruct ls as [|l2 ls].
    + exists []. rewrite firstn_nil. simpl. now rewrite app_nil_r.
    + rewrite join_nl_cons by discriminate.
      destruct n as [|n].
      * exists (nl :: join_nl (l2 :: ls)). reflexivity.
      * rewrite (join_nl_cons l (firstn (S n) (l2 :: ls))) by discriminate.
        exists rest. rewrite E, <- app_assoc. reflexivity.
Qed.

Lemma endswith_app (stem ext : str) : endswith ext (stem ++ ext) = true.
Proof.
  unfold endswith. rewrite rev_app_distr. apply startswith_app.
Qed.

(** The number of line breaks of a text. *)
Definition line_breaks (s : str) : nat := count_occ ascii_dec s nl.

Lemma line_breaks_app (a b : str) :
  line_breaks (a ++ b) = line_breaks a + line_breaks b.
Proof. apply count_occ_app. Qed.

Lemma line_breaks_line (l : str) : no_nl l -> line_breaks l = 0.
Proof. intros H. now apply count_occ_not_In. Qed.

Lemma line_breaks_join (ls : list str) :
  Forall no_nl ls -> line_breaks (join_nl ls) = List.length ls - 1.
Proof.
  induction 1 as [|l ls Hl Hls IH]; [reflexivity|].
  destruct ls as [|l2 ls].
  - simpl. now apply line_breaks_line.
  - rewrite join_nl_cons by discriminate.
    rewrite line_breaks_app, (line_breaks_line l Hl).
    change (line_breaks (nl :: join_nl (l2 :: ls)))
      with (S (line_breaks (join_nl (l2 :: ls)))).
    rewrite IH. simpl. lia.
Qed.

(** A text has one line more than it has line breaks. *)
Lemma split_nl_length (s : str) :
  List.length (split_nl s) = S (line_breaks s).
Proof.
  pose proof (line_breaks_join (split_nl s) (split_nl_no_nl s)) as H.
  rewrite join_split_nl in H.
  pose proof (split_nl_not_nil s) as Hne.
  destruct (split_nl s); [contradiction|]. simpl in *. lia.
Qed.

Lemma join_nl_cut (n : nat) (ls : list str) :
  0 < n < List.length ls ->
  join_nl ls = join_nl (firstn n ls) ++ nl :: join_nl (skipn n ls).
Proof.
  revert ls. induction n as [|n IH]; intros ls [H0 Hn]; [lia|].
  destruct ls as [|l ls]; [simpl in Hn; lia|].
  cbn [firstn skipn]. simpl in Hn.
  destruct n as [|n].
  - destruct ls as [|l2 ls]; [simpl in Hn; lia|]. reflexivity.
  - assert (Hls : 0 < S n < List.length ls) by lia.
    rewrite (join_nl_cons l ls) by (destruct ls; [simpl in Hn; lia|discriminate]).
    rewrite (join_nl_cons l (firstn (S n) ls))
      by (destruct ls; [simpl in Hn; lia|discriminate]).
    rewrite (IH ls Hls), <- app_assoc. reflexivity.
Qed.

(** The first 500 lines of a text, joined: the whole text when it has fewer
    than 500 line breaks, and otherwise the text before its 500th line
    break. *)
Lemma first_lines (n : nat) (p : str) :
  let kept := join_nl (firstn (S n) (split_nl p)) in
  (line_breaks p <= n -> kept = p) /\
  (n < line_breaks p ->
   line_breaks kept = n /\ exists rest, p = kept ++ nl :: rest).
Proof.
  intros kept. pose proof (split_nl_length p) as L. split.
  - intros H. unfold kept. rewrite firstn_all2 by lia. apply join_split_nl.
  - intros H. split.
    + unfold kept. rewrite line_breaks_join.
      * rewrite length_firstn. lia.
      * rewrite Forall_forall. intros l Hl.
        pose proof (split_nl_no_nl p) as F. rewrite Forall_forall in F.
        apply F. rewrite <- (firstn_skipn (S n) (split_nl p)).
        apply in_or_app. now left.
    + exists (join_nl (skipn (S n) (split_nl p))).
      rewrite <- (join_split_nl p) at 1. apply join_nl_cut. lia.
Qed.

(** Two cuts of a text at a line break, with as many line breaks before
    the cut, are the same cut. *)
Lemma cut_unique (k1 k2 r1 r2 : str) :
  k1 ++ nl :: r1 = k2 ++ nl :: r2 ->
  line_breaks k1 = line_breaks k2 -> k1 = k2.
Proof.
  revert k2. induction k1 as [|c k1 IH]; intros [|c2 k2] E B.
  - reflexivity.
  - injection E as <- _. unfold line_breaks in B. simpl in B.
    destruct (ascii_dec nl nl); [discriminate|contradiction].
  - injection E as -> _. unfold line_breaks in B. simpl in B.
    destruct (ascii_dec nl nl); [discriminate|contradiction].
  - injection E as <- E. f_equal. apply (IH k2 E).
    unfold line_breaks in *. simpl in B.
    destruct (ascii_dec c nl); [now injection B|assumption].
Qed.

End MoreLines.

Set Implicit Arguments.

(** ** Diff Collector *)

Section CollectorFacts.
Import Collector.

Lemma run_snoc (files : list ChangedFile) (f : ChangedFile) :
  run (files ++ [f]) = step (run files) f.
Proof. unfold run. now rewrite fold_left_app. Qed.

Lemma patch_text_some (f : ChangedFile) (p : str) :
  patch f = Some p -> p <> [] -> patch_text f = Some p.
Proof.
  unfold patch_text. intros -> Hp. destruct p; [contradiction|reflexivity].
Qed.

Lemma patch_text_none (f : ChangedFile) :
  patch f = None \/ patch f = Some [] -> patch_text f = None.
Proof. unfold patch_text. now intros [-> | ->]. Qed.

(** A file without patch text leaves the three variables as they are. *)
Lemma step_without_patch (st : state) (f : ChangedFile) :
  patch f = None \/ patch f = Some [] -> step st f = st.
Proof. intros H. unfold step. now rewrite (patch_text_none f H). Qed.

(** C3, as the code has it. A changed file whose patch text is absent
    (or empty) contributes nothing: the blob and the two counters that
    [get_pr_diff] reports are those of the listing without that file. No
    placeholder line is written for it. *)
Theorem collector_ignores_file_without_patch
  (before after : list ChangedFile) (f : ChangedFile) :
  patch f = None \/ patch f = Some [] ->
  get_pr_diff (before ++ f :: after) = get_pr_diff (before ++ after) /\
  total_files (run (before ++ f :: after)) = total_files (run (before ++ after)) /\
  total_changes (run (before ++ f :: after)) = total_changes (run (before ++ after)).
Proof.
  intros H.
  assert (E : run (before ++ f :: after) = run (before ++ after)).
  { unfold run. rewrite !fold_left_app. simpl.
    now rewrite (step_without_patch _ f H). }
  unfold get_pr_diff. now rewrite E.
Qed.

(** A file the hosting API lists without a patch. *)
Definition omitted_file : ChangedFile :=
  {| filename := lit "logo.bin"; status := lit "added";
     additions := 0; deletions := 0; patch := None |}.

Lemma collector_ignores_file_without_patch_witness :
  get_pr_diff ([] ++ omitted_file :: []) = get_pr_diff ([] ++ []) /\
  total_files (run ([] ++ omitted_file :: [])) = total_files (run ([] ++ [])) /\
  total_changes (run ([] ++ omitted_file :: [])) = total_changes (run ([] ++ [])).
Proof.
  apply (collector_ignores_file_without_patch [] [] omitted_file).
  left. reflexivity.
Defined.

(** C3, as the specification words it, fails: for a file without patch
    text the blob holds no placeholder line; here it stays empty. *)
Lemma collector_placeholder_counterexample :
  patch omitted_file = None /\
  get_pr_diff [omitted_file] = [] /\
  ~ (exists a b, get_pr_diff [omitted_file] = a ++ skipped_text omitted_file ++ b).
Proof.
  split; [reflexivity|]. split; [reflexivity|].
  intros (a & b & H). vm_compute in H.
  destruct a; discriminate H.
Qed.

(** C7. For a file with patch text and a name without binary suffix, the
    Collector truncates exactly when [additions + deletions > 1000]: then
    the blob grows by the header block, the first 500 lines of the patch
    and the truncation marker; otherwise by the header block and the whole
    patch. In particular 1001 changes truncate and 1000 do not. The first
    500 lines are the whole patch when it has fewer than 500 line breaks,
    and otherwise the text before its 500th line break. *)
Theorem collector_truncation_boundary
  (files : list ChangedFile) (f : ChangedFile) (p : str) :
  patch f = Some p -> p <> [] ->
  endswith_any binary_suffixes (filename f) = false ->
  let changes := (additions f + deletions f)%N in
  let full :=
    lit "File: " ++ filename f ++ [nl] ++ header_tail f ++ p ++ [nl; nl] in
  exists kept,
    let truncated :=
      lit "File: " ++ filename f ++
      lit " (large file - showing first 500 lines)" ++ [nl] ++
      header_tail f ++ kept ++
      [nl] ++ lit "... (truncated due to size)" ++ [nl; nl] in
    (line_breaks p < 500 -> kept = p) /\
    (500 <= line_breaks p ->
     line_breaks kept = 499 /\ exists rest, p = kept ++ nl :: rest) /\
    ((1000 < changes)%N ->
       get_pr_diff (files ++ [f]) = get_pr_diff files ++ truncated) /\
    ((changes <= 1000)%N ->
       get_pr_diff (files ++ [f]) = get_pr_diff files ++ full) /\
    (changes = 1001%N ->
       get_pr_diff (files ++ [f]) = get_pr_diff files ++ truncated) /\
    (changes = 1000%N ->
       get_pr_diff (files ++ [f]) = get_pr_diff files ++ full).
Proof.
  intros Hp Hne Hbin changes full.
  exists (join_nl (firstn 500 (split_nl p))). intros truncated.
  assert (Hstep : get_pr_diff (files ++ [f]) =
                  get_pr_diff files ++
                  (if (1000 <? changes)%N then truncated else full)).
  { unfold get_pr_diff. rewrite run_snoc. unfold step.
    rewrite (patch_text_some f Hp Hne), Hbin. reflexivity. }
  assert (Hlt : (1000 < changes)%N ->
                get_pr_diff (files ++ [f]) = get_pr_diff files ++ truncated).
  { intros H. apply N.ltb_lt in H. now rewrite Hstep, H. }
  assert (Hle : (changes <= 1000)%N ->
                get_pr_diff (files ++ [f]) = get_pr_diff files ++ full).
  { intros H. apply N.ltb_ge in H. now rewrite Hstep, H. }
  destruct (first_lines 499 p) as [Hshort Hlong].
  split; [intros H; apply Hshort; lia|].
  split; [intros H; apply Hlong; lia|].
  repeat split; auto.
  - intros E. apply Hlt. rewrite E. reflexivity.
  - intros E. apply Hle. rewrite E. discriminate.
Qed.

Definition edited_file (adds dels : N) : ChangedFile :=
  {| filename := lit "app.py"; status := lit "modified";
     additions := adds; deletions := dels;
     patch := Some (lit "@@ -1 +1 @@" ++ [nl] ++ lit "+x = 1") |}.

(** A patch of [n] added lines, and a file that adds 600 lines. *)
Definition added_lines (n : nat) : str := join_nl (repeat (lit "+x = 1") n).

Definition grown_file : ChangedFile :=
  {| filename := lit "app.py"; status := lit "modified";
     additions := 1001; deletions := 0;
     patch := Some (added_lines 600) |}.

Lemma collector_truncation_boundary_witness :
  get_pr_diff ([] ++ [grown_file]) =
    get_pr_diff [] ++
    lit "File: app.py (large file - showing first 500 lines)" ++ [nl] ++
    lit "Status: modified" ++ [nl] ++
    lit "Additions: 1001, Deletions: 0" ++ [nl] ++
    lit "---" ++ [nl] ++
    added_lines 500 ++ [nl] ++
    lit "... (truncated due to size)" ++ [nl; nl].
Proof.
  destruct (collector_truncation_boundary [] grown_file (p := added_lines 600))
    as (kept & _ & Hcut & _ & _ & Hblob & _).
  - reflexivity.
  - discriminate.
  - reflexivity.
  - destruct Hcut as (Hbreaks & rest & Hrest).
    + vm_compute. lia.
    + assert (E : kept = added_lines 500).
      { apply (cut_unique kept (added_lines 500) rest (added_lines 100)).
        - rewrite <- Hrest. vm_compute. reflexivity.
        - rewrite Hbreaks. vm_compute. reflexivity. }
      rewrite <- E. apply Hblob. reflexivity.
Defined.

End CollectorFacts.

(** ** Chunk Splitter *)

Section SplitterFacts.
Import Collector Splitter.

(** The files the claim on splitting is about: patch text present, name
    without binary suffix, not truncated; and the invariant of a DiffBlob:
    the name is a non-empty single line, the status is a single line, and
    no line of the patch starts with the marker. *)
Record plain_file (f : ChangedFile) (p : str) : Prop := {
  plain_patch : patch f = Some p;
  plain_patch_text : p <> [];
  plain_not_binary : endswith_any binary_suffixes (filename f) = false;
  plain_not_truncated : (additions f + deletions f <= 1000)%N;
  plain_name : filename f <> [];
  plain_name_line : no_nl (filename f);
  plain_status_line : no_nl (status f);
  plain_patch_lines :
    Forall (fun l => startswith file_marker l = false) (split_nl p)
}.

(** The lines a plain file contributes after its marker line. *)
Definition body_lines (f : ChangedFile) (p : str) : list str :=
  [lit "Status: " ++ status f;
   lit "Additions: " ++ str_of_N (additions f) ++ lit ", Deletions: " ++
     str_of_N (deletions f);
   lit "---"] ++ split_nl p.

(** The text of a plain file in the blob, short of its last line break. *)
Definition chunk_text (f : ChangedFile) (p : str) : str :=
  lit "File: " ++ filename f ++ [nl] ++ header_tail f ++ p ++ [nl].

Lemma full_text_chunk_text (f : ChangedFile) (p : str) :
  full_text f p = chunk_text f p ++ [nl].
Proof.
  unfold full_text, chunk_text. now rewrite <- !app_assoc.
Qed.

Lemma no_nl_lit_status (f : ChangedFile) :
  no_nl (status f) -> no_nl (lit "Status: " ++ status f).
Proof.
  intros H. apply no_nl_app; [|assumption].
  unfold no_nl. simpl. intuition discriminate.
Qed.

Lemma no_nl_counts (f : ChangedFile) :
  no_nl (lit "Additions: " ++ str_of_N (additions f) ++
         lit ", Deletions: " ++ str_of_N (deletions f)).
Proof.
  repeat apply no_nl_app; try apply no_nl_str_of_N;
    unfold no_nl; simpl; intuition discriminate.
Qed.

Lemma split_nl_chunk_text (f : ChangedFile) (p rest : str) :
  no_nl (filename f) -> no_nl (status f) ->
  split_nl (chunk_text f p ++ rest) =
  (lit "File: " ++ filename f) :: body_lines f p ++ split_nl rest.
Proof.
  intros Hn Hs. unfold chunk_text, header_tail, body_lines.
  replace ((lit "File: " ++ filename f ++ [nl] ++
            (lit "Status: " ++ status f ++ [nl] ++
             lit "Additions: " ++ str_of_N (additions f) ++
             lit ", Deletions: " ++ str_of_N (deletions f) ++ [nl] ++
             lit "---" ++ [nl]) ++ p ++ [nl]) ++ rest)
    with ((lit "File: " ++ filename f) ++ nl ::
          (lit "Status: " ++ status f) ++ nl ::
          (lit "Additions: " ++ str_of_N (additions f) ++
           lit ", Deletions: " ++ str_of_N (deletions f)) ++ nl ::
          lit "---" ++ nl :: p ++ nl :: rest)
    by (repeat (rewrite <- app_assoc; simpl); reflexivity).
  rewrite split_nl_cons_line
    by (apply no_nl_app; [unfold no_nl; simpl; intuition discriminate|assumption]).
  rewrite split_nl_cons_line by now apply no_nl_lit_status.
  rewrite split_nl_cons_line by apply no_nl_counts.
  rewrite split_nl_cons_line by (unfold no_nl; simpl; intuition discriminate).
  rewrite split_nl_app. reflexivity.
Qed.

Lemma body_lines_unmarked (f : ChangedFile) (p : str) :
  Forall (fun l => startswith file_marker l = false) (split_nl p) ->
  Forall (fun l => startswith file_marker l = false) (body_lines f p).
Proof.
  intros H. unfold body_lines.
  repeat (apply Forall_cons; [reflexivity|]). simpl. assumption.
Qed.

(** Lines without marker are appended to the chunk being read. *)
Lemma fold_step_unmarked (ls : list str) (st : Splitter.state) (c : ascii) (name : str) :
  current_file st = Some (c :: name) ->
  Forall (fun l => startswith file_marker l = false) ls ->
  fold_left step ls st =
  {| chunks := chunks st;
     current_file := Some (c :: name);
     current_content := current_content st ++ ls |}.
Proof.
  revert st. induction ls as [|l ls IH]; intros st Hcur Hls.
  - simpl. rewrite app_nil_r. destruct st; simpl in *. now subst.
  - inversion Hls as [|? ? Hl Hls']; subst. simpl.
    unfold step at 2. rewrite Hl, Hcur.
    rewrite IH by (simpl; auto). simpl.
    now rewrite <- app_assoc.
Qed.

(** A marker line closes the chunk being read and opens the next one. *)
Lemma step_marker (st : Splitter.state) (name : str) :
  step st (lit "File: " ++ name) =
  {| chunks := flush st;
     current_file := Some name;
     current_content := [lit "File: " ++ name] |}.
Proof.
  unfold step. change (lit "File: ") with file_marker.
  rewrite startswith_app. reflexivity.
Qed.

(** Reading the lines of one chunk: its marker line and the lines up to
    the next marker. *)
Lemma fold_chunk (st : Splitter.state) (name : str) (body rest : list str) :
  name <> [] ->
  Forall (fun l => startswith file_marker l = false) body ->
  fold_left step ((lit "File: " ++ name) :: body ++ rest) st =
  fold_left step rest
    {| chunks := flush st;
       current_file := Some name;
       current_content := (lit "File: " ++ name) :: body |}.
Proof.
  intros Hname Hbody. destruct name as [|c n]; [contradiction|].
  cbn [fold_left]. rewrite step_marker, fold_left_app.
  now rewrite (@fold_step_unmarked body _ c n) by auto.
Qed.

Lemma step_plain (st : Collector.state) (f : ChangedFile) (p : str) :
  plain_file f p ->
  diff_content (Collector.step st f) = diff_content st ++ full_text f p.
Proof.
  intros H. unfold Collector.step.
  rewrite (patch_text_some f (plain_patch H) (plain_patch_text H)).
  rewrite (plain_not_binary H).
  pose proof (plain_not_truncated H) as T. apply N.ltb_ge in T.
  now rewrite T.
Qed.

Lemma get_pr_diff_two_plain (f1 f2 : ChangedFile) (p1 p2 : str) :
  plain_file f1 p1 -> plain_file f2 p2 ->
  get_pr_diff [f1; f2] = (chunk_text f1 p1 ++ [nl]) ++ chunk_text f2 p2 ++ [nl].
Proof.
  intros H1 H2.
  change (get_pr_diff [f1; f2])
    with (diff_content (Collector.step (Collector.step Collector.init f1) f2)).
  rewrite (step_plain _ H2), (step_plain _ H1).
  now rewrite !full_text_chunk_text.
Qed.

Lemma join_lines_chunk_text (f : ChangedFile) (p rest : str) :
  no_nl (filename f) -> no_nl (status f) ->
  join_nl ((lit "File: " ++ filename f) :: body_lines f p ++ split_nl rest) =
  chunk_text f p ++ rest.
Proof.
  intros Hn Hs. rewrite <- split_nl_chunk_text by assumption.
  apply join_split_nl.
Qed.

Lemma split_two_plain (f1 f2 : ChangedFile) (p1 p2 : str) :
  plain_file f1 p1 -> plain_file f2 p2 ->
  _split_diff_into_files (get_pr_diff [f1; f2]) =
  [(filename f1, chunk_text f1 p1); (filename f2, chunk_text f2 p2 ++ [nl])].
Proof.
  intros H1 H2. rewrite (get_pr_diff_two_plain H1 H2).
  unfold _split_diff_into_files.
  rewrite <- app_assoc.
  rewrite split_nl_chunk_text
    by (apply (plain_name_line H1) || apply (plain_status_line H1)).
  change (split_nl ([nl] ++ chunk_text f2 p2 ++ [nl]))
    with ([[]] ++ split_nl (chunk_text f2 p2 ++ [nl])).
  rewrite split_nl_chunk_text
    by (apply (plain_name_line H2) || apply (plain_status_line H2)).
  rewrite app_assoc.
  rewrite fold_chunk; cycle 1.
  { apply (plain_name H1). }
  { apply Forall_app. split.
    - apply body_lines_unmarked, (plain_patch_lines H1).
    - now repeat constructor. }
  rewrite <- (app_nil_r (body_lines f2 p2 ++ split_nl [nl])).
  rewrite fold_chunk; cycle 1.
  { apply (plain_name H2). }
  { apply Forall_app. split.
    - apply body_lines_unmarked, (plain_patch_lines H2).
    - now repeat constructor. }
  pose proof (plain_name H1) as N1. pose proof (plain_name H2) as N2.
  pose proof (@join_lines_chunk_text f1 p1 [] (plain_name_line H1)
                (plain_status_line H1)) as J1.
  pose proof (@join_lines_chunk_text f2 p2 [nl] (plain_name_line H2)
                (plain_status_line H2)) as J2.
  rewrite app_nil_r in J1.
  destruct (filename f1) as [|c1 n1]; [contradiction|].
  destruct (filename f2) as [|c2 n2]; [contradiction|].
  cbn [fold_left flush chunks current_file current_content Splitter.init app].
  change (split_nl []) with [@nil ascii] in J1.
  f_equal; [f_equal; exact J1 | f_equal; f_equal; exact J2].
Qed.

(** C1, as the code has it. For a blob built from exactly two files with
    patch text, neither binary nor truncated, the Chunk Splitter returns
    exactly two pairs, named after the two files in their order; the two
    segments joined by one line break are the blob. (The split drops the
    line break between a segment and the next marker line, so the bare
    concatenation is one character short.) *)
Theorem split_of_two_files (f1 f2 : ChangedFile) (p1 p2 : str) :
  plain_file f1 p1 -> plain_file f2 p2 ->
  exists s1 s2 : str,
    _split_diff_into_files (get_pr_diff [f1; f2]) =
      [(filename f1, s1); (filename f2, s2)] /\
    s1 ++ [nl] ++ s2 = get_pr_diff [f1; f2].
Proof.
  intros H1 H2. exists (chunk_text f1 p1), (chunk_text f2 p2 ++ [nl]).
  split.
  - apply (split_two_plain H1 H2).
  - rewrite (get_pr_diff_two_plain H1 H2). now rewrite <- !app_assoc.
Qed.

Definition file_a : ChangedFile :=
  {| filename := lit "a.py"; status := lit "modified";
     additions := 1; deletions := 0; patch := Some (lit "+x") |}.

Definition file_b : ChangedFile :=
  {| filename := lit "b.py"; status := lit "added";
     additions := 12; deletions := 3; patch := Some (lit "+y") |}.

Lemma plain_file_a : plain_file file_a (lit "+x").
Proof.
  constructor; try reflexivity; try discriminate.
  - unfold no_nl. simpl. intuition discriminate.
  - unfold no_nl. simpl. intuition discriminate.
  - now repeat constructor.
Defined.

Lemma plain_file_b : plain_file file_b (lit "+y").
Proof.
  constructor; try reflexivity; try discriminate.
  - unfold no_nl. simpl. intuition discriminate.
  - unfold no_nl. simpl. intuition discriminate.
  - now repeat constructor.
Defined.

Lemma split_of_two_files_witness :
  exists s1 s2 : str,
    _split_diff_into_files (get_pr_diff [file_a; file_b]) =
      [(lit "a.py", s1); (lit "b.py", s2)] /\
    s1 ++ [nl] ++ s2 = get_pr_diff [file_a; file_b].
Proof.
  exact (split_of_two_files plain_file_a plain_file_b).
Defined.

(** C1, as the specification words it, fails: the two segments of the
    blob of [a.py] and [b.py], concatenated, are not the blob. *)
Lemma split_concat_counterexample :
  ~ (exists s1 s2 : str,
       _split_diff_into_files (get_pr_diff [file_a; file_b]) =
         [(filename file_a, s1); (filename file_b, s2)] /\
       s1 ++ s2 = get_pr_diff [file_a; file_b]).
Proof.
  intros (s1 & s2 & Hsplit & Hcat).
  vm_compute in Hsplit.
  injection Hsplit as <- <-.
  vm_compute in Hcat. discriminate Hcat.
Qed.

End SplitterFacts.

(** ** Response Reconciler *)

Section ReconcilerFacts.
Import Reconciler.

Definition open_brace : ascii := "{"%char.
Definition close_brace : ascii := "}"%char.

(** An opening brace with a closing brace somewhere after it. *)
Definition has_brace_pair (s : str) : Prop :=
  exists a b c, s = a ++ open_brace :: b ++ close_brace :: c.

Lemma from_first_some (x : ascii) (s t : str) :
  from_first x s = Some t -> exists a r, s = a ++ x :: r /\ t = x :: r /\ ~ In x a.
Proof.
  induction s as [|y s IH]; simpl; [discriminate|].
  destruct (Ascii.eqb y x) eqn:E.
  - apply Ascii.eqb_eq in E. subst y. intros [= <-].
    exists [], s. auto.
  - intros H. destruct (IH H) as (a & r & -> & -> & Hn).
    exists (y :: a), r. repeat split; auto.
    intros [->|Hin]; [|tauto]. now rewrite Ascii.eqb_refl in E.
Qed.

Lemma from_first_app (x : ascii) (a r : str) :
  ~ In x a -> from_first x (a ++ x :: r) = Some (x :: r).
Proof.
  induction a as [|y a IH]; simpl; intros Hn.
  - now rewrite Ascii.eqb_refl.
  - destruct (Ascii.eqb y x) eqn:E.
    + apply Ascii.eqb_eq in E. subst y. tauto.
    + apply IH. tauto.
Qed.

Lemma upto_last_none (x : ascii) (s : str) :
  ~ In x s -> upto_last x s = None.
Proof.
  induction s as [|y s IH]; simpl; intros Hn; [reflexivity|].
  rewrite IH by tauto.
  destruct (Ascii.eqb y x) eqn:E; [|reflexivity].
  apply Ascii.eqb_eq in E. subst y. tauto.
Qed.

Lemma upto_last_app (x : ascii) (b c : str) :
  ~ In x c -> upto_last x (b ++ x :: c) = Some (b ++ [x]).
Proof.
  intros Hn. induction b as [|y b IH]; simpl.
  - now rewrite (@upto_last_none x c Hn), Ascii.eqb_refl.
  - now rewrite IH.
Qed.

Lemma upto_last_some (x : ascii) (s t : str) :
  upto_last x s = Some t -> exists b c, s = b ++ x :: c /\ t = b ++ [x].
Proof.
  revert t. induction s as [|y s IH]; simpl; intros t; [discriminate|].
  destruct (upto_last x s) as [u|].
  - intros [= <-]. destruct (IH u eq_refl) as (b & c & -> & ->).
    now exists (y :: b), c.
  - destruct (Ascii.eqb y x) eqn:E; [|discriminate].
    apply Ascii.eqb_eq in E. subst y. intros [= <-].
    now exists [], s.
Qed.

(** The match is the text from the first opening brace to the last closing
    brace. *)
Lemma search_braces_spec (a b c : str) :
  ~ In open_brace a -> ~ In close_brace c ->
  search_braces (a ++ open_brace :: b ++ close_brace :: c) =
  Some (open_brace :: b ++ [close_brace]).
Proof.
  intros Ha Hc. unfold search_braces.
  change "{"%char with open_brace. change "}"%char with close_brace.
  now rewrite (@from_first_app open_brace a _ Ha), (@upto_last_app close_brace b c Hc).
Qed.

Lemma search_braces_pair (s j : str) :
  search_braces s = Some j -> has_brace_pair s.
Proof.
  unfold search_braces. intros H.
  destruct (from_first "{" s) as [[|x rest]|] eqn:F; try discriminate.
  destruct (@from_first_some _ _ _ F) as (a & r & -> & [= -> ->] & _).
  destruct (upto_last "}" r) as [t|] eqn:U; [|discriminate].
  destruct (@upto_last_some _ _ _ U) as (b & c & -> & _).
  now exists a, b, c.
Qed.

Lemma search_braces_no_pair (s : str) :
  ~ has_brace_pair s -> search_braces s = None.
Proof.
  intros Hn. destruct (search_braces s) as [j|] eqn:E; [|reflexivity].
  exfalso. exact (Hn (@search_braces_pair _ _ E)).
Qed.

Variable json_loads : str -> option pyval.
Variable console_print : str -> option str.
Variable error_text : str -> str.

(** The completion has no brace pair, or [json.loads] rejects the text
    from its first opening to its last closing brace. *)
Definition extraction_fails (response : str) : Prop :=
  ~ has_brace_pair response \/
  exists a b c,
    response = a ++ open_brace :: b ++ close_brace :: c /\
    ~ In open_brace a /\ ~ In close_brace c /\
    json_loads (open_brace :: b ++ [close_brace]) = None.

Lemma extraction_fails_raises (response : str) :
  extraction_fails response ->
  parse_body json_loads response = Raise ValueError.
Proof.
  intros [Hn | (a & b & c & -> & Ha & Hc & Hj)]; unfold parse_body.
  - now rewrite (@search_braces_no_pair _ Hn).
  - now rewrite (@search_braces_spec a b c Ha Hc), Hj.
Qed.

(** The console prints the two lines of the handler. *)
Definition warnings_printed (response : str) : Prop :=
  console_print (warning_line error_text response) = None /\
  console_print (raw_line response) = None.

(** After a failure in the [try], the fallback is returned when the console
    prints both lines. *)
Lemma parse_of_failure (response : str) (e : exn) :
  parse_body json_loads response = Raise e ->
  warnings_printed response ->
  _parse_openai_response json_loads console_print error_text response =
  Ok fallback.
Proof.
  intros He [Hw Hr]. unfold _parse_openai_response, print_markup.
  rewrite He, Hw, Hr. reflexivity.
Qed.

(** And the function raises when the console refuses one of them. *)
Lemma parse_of_refusal (response : str) (e : exn) (msg : str) :
  parse_body json_loads response = Raise e ->
  console_print (warning_line error_text response) = Some msg \/
  (console_print (warning_line error_text response) = None /\
   console_print (raw_line response) = Some msg) ->
  _parse_openai_response json_loads console_print error_text response =
  Raise (MarkupError msg).
Proof.
  intros He [Hw | [Hw Hr]]; unfold _parse_openai_response, print_markup;
    rewrite He, Hw; [reflexivity|]. rewrite Hr. reflexivity.
Qed.

Lemma parse_of_failed_extraction (response : str) :
  extraction_fails response -> warnings_printed response ->
  _parse_openai_response json_loads console_print error_text response =
  Ok fallback.
Proof.
  intros H. apply parse_of_failure with ValueError.
  now apply extraction_fails_raises.
Qed.

(** What the reconciler returns after a failure in the [try] is the
    fallback. *)
Lemma parse_returns_fallback (response : str) (e : exn) (r : ReviewResult) :
  parse_body json_loads response = Raise e ->
  _parse_openai_response json_loads console_print error_text response = Ok r ->
  r = fallback.
Proof.
  intros He. unfold _parse_openai_response, print_markup. rewrite He.
  destruct (console_print (warning_line error_text response)); [discriminate|].
  destruct (console_print (raw_line response)); [discriminate|].
  cbn [bind]. now intros [= <-].
Qed.

(** C5, as the code has it. On a completion without a brace pair, and on
    one whose text from the first opening to the last closing brace
    [json.loads] rejects, the handler prints its two lines before it
    returns. When the console prints both, the result is the fixed
    fallback: no issue, the summary "Error parsing OpenAI response", score
    0 and the single recommendation "Review the code manually". When the
    console refuses one of them, as Rich does for a raw reply with a
    closing tag that matches no open tag, no result is returned: the
    [MarkupError] of the console leaves the function. *)
Theorem reconciler_fallback_unless_refused (response : str) :
  (~ has_brace_pair response \/
   exists a b c,
     response = a ++ open_brace :: b ++ close_brace :: c /\
     ~ In open_brace a /\ ~ In close_brace c /\
     json_loads (open_brace :: b ++ [close_brace]) = None) ->
  (console_print (warning_line error_text response) = None ->
   console_print (raw_line response) = None ->
   _parse_openai_response json_loads console_print error_text response =
   Ok {| issues := [];
         summary := pstr "Error parsing OpenAI response";
         overall_score := PInt 0;
         recommendations := PList [pstr "Review the code manually"] |}) /\
  (forall msg,
     console_print (warning_line error_text response) = Some msg \/
     (console_print (warning_line error_text response) = None /\
      console_print (raw_line response) = Some msg) ->
     _parse_openai_response json_loads console_print error_text response =
     Raise (MarkupError msg)).
Proof.
  intros H. apply extraction_fails_raises in H. split.
  - intros Hw Hr. apply (parse_of_failure H). now split.
  - intros msg Hm. now apply (parse_of_refusal H).
Qed.

(** The value of key [k], or [default] when the key is missing. *)
Definition field (d : list (str * pyval)) (k : string) (default : pyval) : pyval :=
  match dict_get d (lit k) with
  | Some v => v
  | None => default
  end.

(** An issue built from the keys of one decoded object. *)
Definition issue_matches (d : list (str * pyval)) (i : CodeIssue) : Prop :=
  severity i = field d "severity" (pstr "info") /\
  category i = field d "category" (pstr "best_practice") /\
  title i = field d "title" (pstr "") /\
  description i = field d "description" (pstr "") /\
  line_number i = field d "line_number" PNone /\
  file_path i = field d "file_path" PNone /\
  suggestion i = field d "suggestion" PNone.

Lemma issues_of_dicts (items : list (list (str * pyval))) :
  exists l, issues_of (map PDict items) = Ok l /\ Forall2 issue_matches items l.
Proof.
  induction items as [|d items (l & E & F)]; simpl.
  - exists []. split; [reflexivity|constructor].
  - rewrite E. simpl. eexists. split; [reflexivity|].
    constructor; [|assumption].
    repeat split.
Qed.

(** C6. When the text from the first opening to the last closing brace
    decodes to an object whose issues are a list of objects (or are
    missing), the result takes every field from the object: a key that is
    present gives its value unchanged, a missing key gives the default:
    severity "info", category "best_practice", title and description "",
    line_number, file_path and suggestion [None], summary "", score 0,
    recommendations []. *)
Theorem reconciler_fields
  (a b c : str) (d : list (str * pyval)) (items : list (list (str * pyval))) :
  ~ In open_brace a -> ~ In close_brace c ->
  json_loads (open_brace :: b ++ [close_brace]) = Some (PDict d) ->
  field d "issues" (PList []) = PList (map PDict items) ->
  exists r,
    _parse_openai_response json_loads console_print error_text
      (a ++ open_brace :: b ++ close_brace :: c) = Ok r /\
    Forall2 issue_matches items (issues r) /\
    summary r = field d "summary" (pstr "") /\
    overall_score r = field d "overall_score" (PInt 0) /\
    recommendations r = field d "recommendations" (PList []).
Proof.
  intros Ha Hc Hj Hi.
  unfold _parse_openai_response, parse_body.
  rewrite (@search_braces_spec a b c Ha Hc), Hj.
  cbn [py_get bind]. fold (field d "issues" (PList [])). rewrite Hi.
  cbn [py_iter bind].
  destruct (issues_of_dicts items) as (l & E & F).
  rewrite E. cbn [bind]. eexists. split; [reflexivity|].
  cbn [issues summary overall_score recommendations].
  repeat split; assumption || reflexivity.
Qed.

End ReconcilerFacts.

(** ** Sample completions *)

Module Sample.
Import Reconciler.

Definition dq : ascii := "034"%char.

(** A JSON string literal without escapes. *)
Definition q (s : string) : str := dq :: lit s ++ [dq].

(** The object of the specification's round-trip example. *)
Definition review_json : str :=
  lit "{" ++ q "issues" ++ lit ":[{" ++
    q "severity" ++ lit ":" ++ q "high" ++ lit "," ++
    q "category" ++ lit ":" ++ q "security" ++ lit "," ++
    q "title" ++ lit ":" ++ q "T" ++ lit "," ++
    q "description" ++ lit ":" ++ q "D" ++ lit "," ++
    q "line_number" ++ lit ":5," ++
    q "file_path" ++ lit ":" ++ q "a.py" ++ lit "," ++
    q "suggestion" ++ lit ":" ++ q "S" ++ lit "}]," ++
  q "summary" ++ lit ":" ++ q "ok" ++ lit "," ++
  q "overall_score" ++ lit ":80," ++
  q "recommendations" ++ lit ":[" ++ q "r1" ++ lit "," ++ q "r2" ++ lit "]}".

Definition review_issue : list (str * pyval) :=
  [(lit "severity", pstr "high"); (lit "category", pstr "security");
   (lit "title", pstr "T"); (lit "description", pstr "D");
   (lit "line_number", PInt 5); (lit "file_path", pstr "a.py");
   (lit "suggestion", pstr "S")].

Definition review_dict : list (str * pyval) :=
  [(lit "issues", PList [PDict review_issue]);
   (lit "summary", pstr "ok");
   (lit "overall_score", PInt 80);
   (lit "recommendations", PList [pstr "r1"; pstr "r2"])].

(** A reply with a score only: [{"overall_score": n}]. *)
Definition score_json (n : N) : str :=
  lit "{" ++ q "overall_score" ++ lit ": " ++ str_of_N n ++ lit "}".

Definition score_dict (n : N) : list (str * pyval) :=
  [(lit "overall_score", PInt (Z.of_N n))].

(** A reply with two recommendations:
    [{"overall_score": 80, "recommendations": ["a", "b"]}]. *)
Definition advice_json (a b : string) : str :=
  lit "{" ++ q "overall_score" ++ lit ": 80, " ++
  q "recommendations" ++ lit ": [" ++ q a ++ lit ", " ++ q b ++ lit "]}".

Definition advice_dict (a b : string) : list (str * pyval) :=
  [(lit "overall_score", PInt 80);
   (lit "recommendations", PList [pstr a; pstr b])].

(** A reply whose recommendations are [null]:
    [{"overall_score": 90, "recommendations": null}]. *)
Definition no_advice_json : str :=
  lit "{" ++ q "overall_score" ++ lit ": 90, " ++
  q "recommendations" ++ lit ": null}".

Definition no_advice_dict : list (str * pyval) :=
  [(lit "overall_score", PInt 90); (lit "recommendations", PNone)].

Definition advice_pairs : list (string * string) :=
  [("r01", "r02"); ("r03", "r04"); ("r05", "r06"); ("r07", "r08");
   ("r09", "r10"); ("r11", "r12"); ("r13", "r14"); ("r15", "r16")]%string.

(** What [json.loads] returns on the texts above; it raises on the others
    used below, which are not JSON. *)
Definition decode_table : list (str * pyval) :=
  [(review_json, PDict review_dict);
   (score_json 90, PDict (score_dict 90));
   (score_json 70, PDict (score_dict 70));
   (no_advice_json, PDict no_advice_dict)] ++
  map (fun ab => (advice_json (fst ab) (snd ab),
                  PDict (advice_dict (fst ab) (snd ab)))) advice_pairs.

Definition json_loads (j : str) : option pyval := dict_get decode_table j.

(** The position of the first occurrence of [pat] in [s]. *)
Fixpoint position_of (pat s : str) : option nat :=
  if startswith pat s then Some 0
  else
    match s with
    | [] => None
    | _ :: s' => option_map S (position_of pat s')
    end.

(** Rich on the lines of the sample runs. Their tags are the pairs that the
    source writes around a line ([[yellow]] ... [[/yellow]]) and, in one
    reply, [[/code]]: a closing tag that matches no open tag, for which
    Rich raises [MarkupError] with this text. The other lines are printed. *)
Definition console_print (text : str) : option str :=
  match position_of (lit "[/code]") text with
  | Some n =>
      Some (lit "closing tag '[/code]' at position " ++
            str_of_N (N.of_nat n) ++ lit " doesn't match any open tag")
  | None => None
  end.

(** The wording of [json.loads] for a text that is no JSON. *)
Definition error_text (response : str) : str :=
  lit "Expecting value: line 1 column 1 (char 0)".

(** A reply in prose, with a closing tag of a forum markup in it. *)
Definition tagged_reply : str := lit "see [/code] for details".

End Sample.

Lemma brace_pair_has_open (s : str) : has_brace_pair s -> In open_brace s.
Proof.
  intros (a & b & c & ->). apply in_or_app. right. now left.
Qed.

Lemma reconciler_fallback_unless_refused_witness :
  Reconciler._parse_openai_response Sample.json_loads Sample.console_print
    Sample.error_text (lit "I cannot review this diff.") =
  Ok (Reconciler.Build_ReviewResult []
        (pstr "Error parsing OpenAI response") (PInt 0)
        (PList [pstr "Review the code manually"])) /\
  Reconciler._parse_openai_response Sample.json_loads Sample.console_print
    Sample.error_text Sample.tagged_reply =
  Raise (MarkupError
           (lit "closing tag '[/code]' at position 26 doesn't match any open tag")).
Proof.
  split.
  - refine (proj1 (@reconciler_fallback_unless_refused Sample.json_loads
                     Sample.console_print Sample.error_text
                     (lit "I cannot review this diff.") _) _ _).
    + left. intros H. apply brace_pair_has_open in H.
      simpl in H. unfold open_brace in H. intuition discriminate.
    + reflexivity.
    + reflexivity.
  - refine (proj2 (@reconciler_fallback_unless_refused Sample.json_loads
                     Sample.console_print Sample.error_text
                     Sample.tagged_reply _) _ _).
    + left. intros H. apply brace_pair_has_open in H.
      simpl in H. unfold open_brace in H. intuition discriminate.
    + right. split; reflexivity.
Defined.

Lemma reconciler_fields_witness :
  exists r,
    Reconciler._parse_openai_response Sample.json_loads Sample.console_print
      Sample.error_text
      (lit "Here is my review: " ++ Sample.review_json ++ lit " Done.") = Ok r /\
    Forall2 issue_matches [Sample.review_issue] (Reconciler.issues r) /\
    Reconciler.summary r = pstr "ok" /\
    Reconciler.overall_score r = PInt 80 /\
    Reconciler.recommendations r = PList [pstr "r1"; pstr "r2"].
Proof.
  refine (@reconciler_fields Sample.json_loads Sample.console_print
            Sample.error_text
            (lit "Here is my review: ")
            (removelast (tl Sample.review_json))
            (lit " Done.")
            Sample.review_dict [Sample.review_issue] _ _ _ _).
  - simpl. unfold open_brace. intuition discriminate.
  - simpl. unfold close_brace. intuition discriminate.
  - reflexivity.
  - reflexivity.
Defined.

(** ** Chunked mode *)

Section MergerFacts.
Import Reconciler Merger.

Variable json_loads : str -> option pyval.
Variable chat : nat -> str -> str -> str -> api_reply.
Variable float_floordiv : list pyval -> py_result pyval.
Variable set_order : list pyval -> list pyval.
Variable console_print : str -> option str.
Variable error_text : str -> str.
Variable chunk_error_text : nat -> str -> str -> str -> str.

(** The chunks with their position in the run. *)
Definition numbered (file_chunks : list (str * str)) : list (nat * (str * str)) :=
  combine (seq 0 (List.length file_chunks)) file_chunks.

(** The reconciled reply for a chunk, when the call returns text and the
    reconciler a result. *)
Definition chunk_result (pr_title : str) (ic : nat * (str * str))
  : option ReviewResult :=
  match chat (fst ic) (fst (snd ic)) (snd (snd ic)) pr_title with
  | Content (Some c) =>
      if truthy c then
        match _parse_openai_response json_loads console_print error_text c with
        | Ok r => Some r
        | Raise _ => None
        end
      else None
  | _ => None
  end.

Definition iterable (v : pyval) : bool :=
  match v with
  | PList _ | PStr _ | PDict _ => true
  | _ => false
  end.

(** What a chunk adds to [scores], [all_recommendations] and [all_issues]. *)
Definition chunk_scores (pr_title : str) (ic : nat * (str * str)) : list pyval :=
  match chunk_result pr_title ic with
  | Some r => if iterable (recommendations r) then [overall_score r] else []
  | None => []
  end.

Definition chunk_recommendations (pr_title : str) (ic : nat * (str * str))
  : list pyval :=
  match chunk_result pr_title ic with
  | Some r =>
      match py_iter (recommendations r) with Ok l => l | Raise _ => [] end
  | None => []
  end.

Definition chunk_issues (pr_title : str) (ic : nat * (str * str))
  : list CodeIssue :=
  match chunk_result pr_title ic with
  | Some r => issues r
  | None => []
  end.

(** The loop over the chunks runs to its end: no print of a handler
    raises. *)
Definition loop_completes (pr_title : str) (file_chunks : list (str * str))
  : Prop :=
  exists st,
    analyze_chunks json_loads chat console_print error_text chunk_error_text
      pr_title file_chunks = Ok st.

Lemma step_adds (pr_title : str) (st st' : Merger.state) (ic : nat * (str * str)) :
  Merger.step json_loads chat console_print error_text chunk_error_text
    pr_title st ic = Ok st' ->
  st' =
  {| all_issues := all_issues st ++ chunk_issues pr_title ic;
     all_recommendations :=
       all_recommendations st ++ chunk_recommendations pr_title ic;
     scores := scores st ++ chunk_scores pr_title ic |}.
Proof.
  destruct ic as [i [filename chunk_content]].
  unfold Merger.step, chunk_issues, chunk_recommendations, chunk_scores,
    chunk_result, print_markup. cbn [fst snd].
  destruct (chat i filename chunk_content pr_title) as [|[c|]].
  - destruct (console_print _); cbn [bind]; [discriminate|].
    intros [= <-]. rewrite !app_nil_r. now destruct st.
  - destruct (truthy c).
    + destruct (_parse_openai_response json_loads console_print error_text c)
        as [r|e].
      * destruct (recommendations r); cbn [py_iter iterable];
          try (destruct (console_print _); cbn [bind]; [discriminate|]);
          intros [= <-]; rewrite ?app_nil_r; reflexivity.
      * destruct (console_print _); cbn [bind]; [discriminate|].
        intros [= <-]. rewrite !app_nil_r. now destruct st.
    + intros [= <-]. rewrite !app_nil_r. now destruct st.
  - intros [= <-]. rewrite !app_nil_r. now destruct st.
Qed.

Lemma run_chunks_adds (pr_title : str) (l : list (nat * (str * str)))
  (st st' : Merger.state) :
  run_chunks json_loads chat console_print error_text chunk_error_text
    pr_title l st = Ok st' ->
  st' =
  {| all_issues := all_issues st ++ flat_map (chunk_issues pr_title) l;
     all_recommendations :=
       all_recommendations st ++ flat_map (chunk_recommendations pr_title) l;
     scores := scores st ++ flat_map (chunk_scores pr_title) l |}.
Proof.
  revert st. induction l as [|ic l IH]; intros st; cbn [run_chunks flat_map].
  - intros [= <-]. rewrite !app_nil_r. now destruct st.
  - destruct (Merger.step json_loads chat console_print error_text
                chunk_error_text pr_title st ic) as [st1|e] eqn:E;
      cbn [bind]; [|discriminate].
    intros H. apply IH in H. apply step_adds in E. subst st1.
    cbn [all_issues all_recommendations scores] in H.
    now rewrite <- !app_assoc in H.
Qed.

Lemma analyze_chunks_adds (pr_title : str) (file_chunks : list (str * str))
  (st : Merger.state) :
  analyze_chunks json_loads chat console_print error_text chunk_error_text
    pr_title file_chunks = Ok st ->
  st =
  {| all_issues := flat_map (chunk_issues pr_title) (numbered file_chunks);
     all_recommendations :=
       flat_map (chunk_recommendations pr_title) (numbered file_chunks);
     scores := flat_map (chunk_scores pr_title) (numbered file_chunks) |}.
Proof. unfold analyze_chunks. intros H. now apply run_chunks_adds in H. Qed.

Definition total (zs : list Z) : Z := fold_right Z.add 0%Z zs.

Lemma sum_ints_of_ints (zs : list Z) (acc : Z) :
  sum_ints acc (map PInt zs) = IntSum (acc + total zs).
Proof.
  revert acc. induction zs as [|z zs IH]; intros acc; simpl.
  - now rewrite Z.add_0_r.
  - now rewrite IH, Z.add_assoc.
Qed.

Lemma merged_score_of_ints (zs : list Z) :
  merged_score float_floordiv (map PInt zs) =
  Ok (PInt (match zs with
            | [] => 0
            | _ :: _ => total zs / Z.of_nat (List.length zs)
            end)).
Proof.
  destruct zs as [|z zs]; [reflexivity|].
  unfold merged_score.
  change (map PInt (z :: zs)) with (PInt z :: map PInt zs) at 1.
  cbv iota. rewrite sum_ints_of_ints, length_map. reflexivity.
Qed.

Lemma hashable_strings (l : list pyval) :
  Forall is_str l -> forallb hashable l = true.
Proof.
  induction 1 as [|v l Hv _ IH]; simpl; [reflexivity|].
  rewrite IH. now destruct v.
Qed.

Lemma NoDup_firstn {A : Type} (n : nat) (l : list A) :
  NoDup l -> NoDup (firstn n l).
Proof.
  intros H. rewrite <- (firstn_skipn n l) in H.
  now apply NoDup_app_remove_r in H.
Qed.

Lemma incl_firstn {A : Type} (n : nat) (l : list A) : incl (firstn n l) l.
Proof.
  intros x Hx. rewrite <- (firstn_skipn n l). apply in_or_app. now left.
Qed.

(** C4. When the loop over the chunks runs to its end, the merged score is
    the floor of the sum of the scores that the chunks produced by the
    number of those scores, and 0 when there is none. A chunk whose call
    failed produces no score, so it is in neither the sum nor the count.
    (Scores 90 and 70 and one failed chunk: 80.) *)
Theorem merged_score_is_floor_average
  (diff_content pr_title pr_description : str) (zs : list Z) :
  let chunks := numbered (Splitter._split_diff_into_files diff_content) in
  loop_completes pr_title (Splitter._split_diff_into_files diff_content) ->
  flat_map (chunk_scores pr_title) chunks = map PInt zs ->
  forallb hashable (flat_map (chunk_recommendations pr_title) chunks) = true ->
  (forall ic,
     chat (fst ic) (fst (snd ic)) (snd (snd ic)) pr_title = Failed ->
     chunk_scores pr_title ic = []) /\
  exists r,
    _analyze_large_diff json_loads chat float_floordiv set_order
      console_print error_text chunk_error_text
      diff_content pr_title pr_description = Ok r /\
    overall_score r =
      PInt (match zs with
            | [] => 0
            | _ :: _ => total zs / Z.of_nat (List.length zs)
            end).
Proof.
  intros chunks [st Hrun] Hscores Hhash. split.
  - intros ic Hfail. unfold chunk_scores, chunk_result. now rewrite Hfail.
  - unfold _analyze_large_diff. rewrite Hrun. cbn [bind].
    apply analyze_chunks_adds in Hrun. subst st.
    cbn [scores all_recommendations all_issues].
    fold chunks. rewrite Hscores, merged_score_of_ints.
    unfold unique_recommendations. rewrite Hhash.
    cbn [bind]. eexists. split; reflexivity.
Qed.

(** C8. When the loop over the chunks runs to its end, the merged
    recommendations are entries of the concatenation of the chunks'
    recommendation lists, each at most once, at most five of them; all of
    them when there are fewer than five distinct ones, and exactly five
    when there are five or more. (Sixteen distinct ones: five.) *)
Theorem merged_recommendations_capped
  (diff_content pr_title pr_description : str) (zs : list Z) :
  set_semantics set_order ->
  let chunks := numbered (Splitter._split_diff_into_files diff_content) in
  let recs := flat_map (chunk_recommendations pr_title) chunks in
  loop_completes pr_title (Splitter._split_diff_into_files diff_content) ->
  Forall is_str recs ->
  flat_map (chunk_scores pr_title) chunks = map PInt zs ->
  exists r us,
    _analyze_large_diff json_loads chat float_floordiv set_order
      console_print error_text chunk_error_text
      diff_content pr_title pr_description = Ok r /\
    recommendations r = PList us /\
    NoDup us /\ incl us recs /\ List.length us <= 5 /\
    (List.length us < 5 -> incl recs us) /\
    (forall ds, NoDup ds -> incl ds recs -> 5 <= List.length ds ->
                List.length us = 5).
Proof.
  intros Hset chunks recs [st Hrun] Hstr Hscores.
  destruct (Hset recs Hstr) as [Hnd Hin].
  exists {| issues := flat_map (chunk_issues pr_title) chunks;
            summary := merged_summary (List.length (Splitter._split_diff_into_files diff_content))
                         (List.length (flat_map (chunk_issues pr_title) chunks));
            overall_score :=
              PInt (match zs with
                    | [] => 0
                    | _ :: _ => total zs / Z.of_nat (List.length zs)
                    end);
            recommendations := PList (firstn 5 (set_order recs)) |}.
  exists (firstn 5 (set_order recs)).
  split.
  { unfold _analyze_large_diff. rewrite Hrun. cbn [bind].
    apply analyze_chunks_adds in Hrun. subst st.
    cbn [scores all_recommendations all_issues].
    fold chunks. fold recs. rewrite Hscores, merged_score_of_ints.
    unfold unique_recommendations. rewrite (hashable_strings Hstr).
    reflexivity. }
  split; [reflexivity|].
  split; [now apply NoDup_firstn|].
  split.
  { intros x Hx. apply Hin. now apply (incl_firstn 5). }
  split; [apply firstn_le_length|].
  split.
  - intros Hlt. rewrite length_firstn in Hlt.
    rewrite firstn_all2 by lia. intros x Hx. now apply Hin.
  - intros ds Hds Hincl Hlen.
    assert (List.length ds <= List.length (set_order recs)).
    { apply NoDup_incl_length; [assumption|].
      intros x Hx. apply Hin. now apply Hincl. }
    rewrite length_firstn. lia.
Qed.

(** C10, as the code has it, for a chunk whose lines the console prints
    (the reconciler returns on the chunk's text, and the chunk's own
    warning, if any, is printed). A chunk whose completion has text from
    which no JSON can be extracted adds the fallback score 0 to the scores,
    so it counts in the denominator. A chunk adds no score exactly when its
    call raises, its content is absent or empty, or the recommendations of
    its reconciled reply cannot be iterated ([None], a [bool] or a number):
    in that last case [extend] raises inside the [try]. Every other chunk
    adds one score. *)
Theorem chunk_score_accounting
  (pr_title : str) (st st' : Merger.state) (i : nat)
  (filename chunk_content : str) :
  let reply := chat i filename chunk_content pr_title in
  (forall c, reply = Content (Some c) -> c <> [] ->
     exists r,
       _parse_openai_response json_loads console_print error_text c = Ok r) ->
  Merger.step json_loads chat console_print error_text chunk_error_text
    pr_title st (i, (filename, chunk_content)) = Ok st' ->
  (forall c, reply = Content (Some c) -> c <> [] ->
             extraction_fails json_loads c ->
             scores st' = scores st ++ [PInt 0]) /\
  (scores st' = scores st <->
     reply = Failed \/ reply = Content None \/ reply = Content (Some []) \/
     exists c r, reply = Content (Some c) /\ c <> [] /\
       _parse_openai_response json_loads console_print error_text c = Ok r /\
       iterable (recommendations r) = false) /\
  (scores st' = scores st \/ exists v, scores st' = scores st ++ [v]).
Proof.
  intros reply Hparse Hstep. apply step_adds in Hstep. subst st'.
  cbn [scores]. unfold chunk_scores, chunk_result. cbn [fst snd]. fold reply.
  assert (Hneq : forall v : pyval, scores st ++ [v] <> scores st).
  { intros v H. apply (f_equal (@List.length pyval)) in H.
    rewrite length_app in H. simpl in H. lia. }
  split; [|split].
  - intros c Hr Hc Hx. rewrite Hr.
    destruct (Hparse c Hr Hc) as (r & Er).
    destruct c; [contradiction|]. cbn [truthy]. rewrite Er.
    apply extraction_fails_raises in Hx.
    rewrite (@parse_returns_fallback _ _ _ _ _ _ Hx Er). reflexivity.
  - destruct reply as [|[c|]] eqn:Ereply.
    + rewrite app_nil_r. tauto.
    + destruct c as [|x c].
      * cbn [truthy]. rewrite app_nil_r. tauto.
      * cbn [truthy].
        destruct (Hparse (x :: c) eq_refl) as (r & Er); [discriminate|].
        rewrite Er.
        destruct (iterable (recommendations r)) eqn:E.
        -- split.
           ++ intros H. now apply Hneq in H.
           ++ intros [H|[H|[H|(c' & r' & H & _ & Er' & H')]]];
                try discriminate H.
              injection H as <-. rewrite Er in Er'. injection Er' as <-.
              congruence.
        -- rewrite app_nil_r. split; [|reflexivity].
           intros _. right. right. right.
           exists (x :: c), r. repeat split; auto. discriminate.
    + rewrite app_nil_r. tauto.
  - destruct reply as [|[c|]]; try (left; now rewrite app_nil_r).
    destruct (truthy c); [|left; now rewrite app_nil_r].
    destruct (_parse_openai_response json_loads console_print error_text c);
      [|left; now rewrite app_nil_r].
    destruct (iterable _); [right; eauto | left; now rewrite app_nil_r].
Qed.

End MergerFacts.

(** ** Sample runs of the chunked mode *)

Module SampleRun.
Import Reconciler Merger.

(** A small source file of a pull request. *)
Definition source_file (n : N) : Collector.ChangedFile :=
  {| Collector.filename := lit "f" ++ str_of_N n ++ lit ".py";
     Collector.status := lit "modified";
     Collector.additions := 1; Collector.deletions := 0;
     Collector.patch := Some (lit "+x = " ++ str_of_N n) |}.

Definition diff_of (n : nat) : str :=
  Collector.get_pr_diff (map (fun i => source_file (N.of_nat i)) (seq 0 n)).

(** A completion API that answers the requests of a run in order. *)
Definition chat_of (replies : list api_reply) : nat -> str -> str -> str -> api_reply :=
  fun i _ _ _ => nth i replies Failed.

(** The texts of the exceptions of such a run: a request that fails says
    [Connection error.], and [extend] on [None] says ['NoneType' object is
    not iterable]. *)
Definition error_text_of (replies : list api_reply)
  : nat -> str -> str -> str -> str :=
  fun i _ _ _ =>
    match nth i replies Failed with
    | Failed => lit "Connection error."
    | Content _ => lit "'NoneType' object is not iterable"
    end.

Definition no_floats : list pyval -> py_result pyval :=
  fun _ => Raise TypeError.

Definition strings_of (l : list pyval) : list str :=
  flat_map (fun v => match v with PStr s => [s] | _ => [] end) l.

(** One possible order of a set of strings. *)
Definition set_order (l : list pyval) : list pyval :=
  rev (map PStr (nodup (list_eq_dec ascii_dec) (strings_of l))).

Lemma in_strings_of (l : list pyval) (s : str) :
  In s (strings_of l) <-> In (PStr s) l.
Proof.
  unfold strings_of. rewrite in_flat_map. split.
  - intros (v & Hv & Hs). destruct v; simpl in Hs; try tauto.
    destruct Hs as [->|[]]. assumption.
  - intros H. exists (PStr s). split; [assumption|now left].
Qed.

Lemma set_order_semantics : set_semantics set_order.
Proof.
  intros l Hl. unfold set_order. split.
  - apply NoDup_rev. apply NoDup_map_NoDup_ForallPairs.
    + intros a b _ _ [= ->]. reflexivity.
    + apply NoDup_nodup.
  - intros x. rewrite <- in_rev, in_map_iff. split.
    + intros (s & <- & Hs). apply nodup_In in Hs. now apply in_strings_of.
    + intros Hx. rewrite Forall_forall in Hl. specialize (Hl x Hx).
      destruct x; simpl in Hl; try contradiction.
      exists s. split; [reflexivity|].
      apply nodup_In. now apply in_strings_of.
Defined.

(** Three chunks: scores 90 and 70, and a call that fails. *)
Definition three_replies : list api_reply :=
  [Content (Some (Sample.score_json 90));
   Content (Some (Sample.score_json 70));
   Failed].

(** Eight chunks with two recommendations each, all sixteen distinct. *)
Definition eight_replies : list api_reply :=
  map (fun ab => Content (Some (Sample.advice_json (fst ab) (snd ab))))
      Sample.advice_pairs.

Definition title : str := lit "Refactor".
Definition body : str := lit "".

End SampleRun.

Lemma merged_score_is_floor_average_witness :
  exists r,
    Merger._analyze_large_diff Sample.json_loads
      (SampleRun.chat_of SampleRun.three_replies)
      SampleRun.no_floats SampleRun.set_order
      Sample.console_print Sample.error_text
      (SampleRun.error_text_of SampleRun.three_replies)
      (SampleRun.diff_of 3) SampleRun.title SampleRun.body = Ok r /\
    Reconciler.overall_score r = PInt 80.
Proof.
  refine (proj2 (@merged_score_is_floor_average Sample.json_loads
            (SampleRun.chat_of SampleRun.three_replies)
            SampleRun.no_floats SampleRun.set_order
            Sample.console_print Sample.error_text
            (SampleRun.error_text_of SampleRun.three_replies)
            (SampleRun.diff_of 3) SampleRun.title SampleRun.body
            [90; 70]%Z _ _ _)).
  - eexists. vm_compute. reflexivity.
  - vm_compute. reflexivity.
  - vm_compute. reflexivity.
Defined.

Lemma sixteen_distinct :
  NoDup (flat_map (fun ab => [pstr (fst ab); pstr (snd ab)]) Sample.advice_pairs).
Proof.
  simpl. repeat (constructor; [simpl; intuition discriminate|]). constructor.
Defined.

Lemma merged_recommendations_capped_witness :
  exists r us,
    Merger._analyze_large_diff Sample.json_loads
      (SampleRun.chat_of SampleRun.eight_replies)
      SampleRun.no_floats SampleRun.set_order
      Sample.console_print Sample.error_text
      (SampleRun.error_text_of SampleRun.eight_replies)
      (SampleRun.diff_of 8) SampleRun.title SampleRun.body = Ok r /\
    Reconciler.recommendations r = PList us /\
    NoDup us /\ List.length us = 5.
Proof.
  destruct (@merged_recommendations_capped Sample.json_loads
              (SampleRun.chat_of SampleRun.eight_replies)
              SampleRun.no_floats SampleRun.set_order
              Sample.console_print Sample.error_text
              (SampleRun.error_text_of SampleRun.eight_replies)
              (SampleRun.diff_of 8) SampleRun.title SampleRun.body
              (repeat 80%Z 8) SampleRun.set_order_semantics)
    as (r & us & Hr & Hus & Hnd & _ & _ & _ & Hfive).
  - eexists. vm_compute. reflexivity.
  - vm_compute. repeat constructor.
  - vm_compute. reflexivity.
  - exists r, us. repeat split; try assumption.
    apply (Hfive (flat_map (fun ab => [pstr (fst ab); pstr (snd ab)])
                           Sample.advice_pairs)).
    + exact sixteen_distinct.
    + vm_compute. intros x Hx. exact Hx.
    + simpl. lia.
Defined.

(** A completion API that answers every chunk in prose, without JSON. *)
Definition prose_chat : nat -> str -> str -> str -> Merger.api_reply :=
  fun _ _ _ _ => Merger.Content (Some (lit "I cannot review this diff.")).

Definition no_text : nat -> str -> str -> str -> str := fun _ _ _ _ => [].

(** The state after one chunk that added the fallback. *)
Definition fallback_added : Merger.state :=
  {| Merger.all_issues := [];
     Merger.all_recommendations := [pstr "Review the code manually"];
     Merger.scores := [PInt 0] |}.

Lemma chunk_score_accounting_witness :
  Merger.step Sample.json_loads prose_chat Sample.console_print
    Sample.error_text no_text SampleRun.title Merger.init
    (0, (lit "f0.py", lit "File: f0.py")) = Ok fallback_added /\
  Merger.scores fallback_added = Merger.scores Merger.init ++ [PInt 0].
Proof.
  split; [reflexivity|].
  refine (proj1 (@chunk_score_accounting Sample.json_loads prose_chat
                   Sample.console_print Sample.error_text no_text
                   SampleRun.title Merger.init fallback_added
                   0 (lit "f0.py") (lit "File: f0.py") _ _)
            (lit "I cannot review this diff.") eq_refl _ _).
  - intros c [= <-] _. eexists. reflexivity.
  - reflexivity.
  - discriminate.
  - left. intros H. apply brace_pair_has_open in H.
    simpl in H. unfold open_brace in H. intuition discriminate.
Defined.

(** A completion API whose replies all carry [null] recommendations, and
    the text of the [TypeError] that [extend] raises on them. *)
Definition null_chat : nat -> str -> str -> str -> Merger.api_reply :=
  fun _ _ _ _ => Merger.Content (Some Sample.no_advice_json).

Definition null_text : nat -> str -> str -> str -> str :=
  fun _ _ _ _ => lit "'NoneType' object is not iterable".

(** C10, as worded, fails in its second half: the call for the only chunk
    returns non-empty text, which decodes to an object with score 90 and
    [null] recommendations; the handler's warning is printed, no score is
    recorded, and the merged score is 0, not 90. *)
Lemma denominator_counterexample :
  let file_chunks := Splitter._split_diff_into_files (SampleRun.diff_of 1) in
  (exists chunk, file_chunks = [(lit "f0.py", chunk)] /\
     null_chat 0 (lit "f0.py") chunk SampleRun.title =
       Merger.Content (Some Sample.no_advice_json)) /\
  Sample.no_advice_json <> [] /\
  Sample.json_loads Sample.no_advice_json = Some (PDict Sample.no_advice_dict) /\
  (exists st,
     Merger.analyze_chunks Sample.json_loads null_chat Sample.console_print
       Sample.error_text null_text SampleRun.title file_chunks = Ok st /\
     Merger.scores st = []) /\
  exists r,
    Merger._analyze_large_diff Sample.json_loads null_chat
      SampleRun.no_floats SampleRun.set_order
      Sample.console_print Sample.error_text null_text
      (SampleRun.diff_of 1) SampleRun.title SampleRun.body = Ok r /\
    Reconciler.overall_score r = PInt 0.
Proof.
  cbv zeta. split.
  { eexists. split; [vm_compute; reflexivity | reflexivity]. }
  split; [discriminate|].
  split; [reflexivity|].
  split; [eexists; split; [vm_compute; reflexivity | reflexivity]|].
  eexists. split; [vm_compute; reflexivity | reflexivity].
Qed.

(** A completion API that answers every chunk with the tagged reply. *)
Definition tagged_chat : nat -> str -> str -> str -> Merger.api_reply :=
  fun _ _ _ _ => Merger.Content (Some Sample.tagged_reply).

(** One such chunk ends the chunked analysis: the console refuses the raw
    reply in the reconciler, the handler of the chunk prints the text of
    that [MarkupError], which names the tag, and is refused in turn. *)
Lemma tagged_reply_ends_chunked_analysis :
  Merger._analyze_large_diff Sample.json_loads tagged_chat
    SampleRun.no_floats SampleRun.set_order
    Sample.console_print Sample.error_text no_text
    (SampleRun.diff_of 1) SampleRun.title SampleRun.body =
  Raise (MarkupError
           (lit "closing tag '[/code]' at position 59 doesn't match any open tag")).
Proof. vm_compute. reflexivity. Qed.

(** ** Size Estimator *)

Unset Implicit Arguments.

Section EstimatorFacts.
Import Estimator.

(** *** Words *)

Lemma truthy_snoc (cur : str) (c : ascii) : truthy (cur ++ [c]) = true.
Proof. now destruct cur. Qed.

Lemma split_ws_from_length (s cur : str) :
  (List.length (split_ws_from cur s) <=
   List.length s + (if truthy cur then 1 else 0))%nat.
Proof.
  revert cur. induction s as [|c s IH]; intros cur; simpl.
  - destruct (truthy cur); simpl; lia.
  - destruct (isspace c).
    + rewrite length_app. specialize (IH []). simpl in IH.
      destruct (truthy cur); simpl; lia.
    + specialize (IH (cur ++ [c])). rewrite truthy_snoc in IH.
      destruct (truthy cur); lia.
Qed.

(** There are at most as many words as characters. *)
Lemma split_ws_length (s : str) :
  (List.length (split_ws s) <= List.length s)%nat.
Proof.
  pose proof (split_ws_from_length s []) as H. simpl in H.
  unfold split_ws. lia.
Qed.

Lemma split_ws_from_open (x cur : str) :
  truthy cur = true -> (1 <= List.length (split_ws_from cur x))%nat.
Proof.
  revert cur. induction x as [|c x IH]; intros cur Hc; simpl.
  - rewrite Hc. simpl. lia.
  - destruct (isspace c).
    + rewrite Hc. simpl. lia.
    + apply IH, truthy_snoc.
Qed.

(** Appending text never removes a word. *)
Lemma split_ws_from_app (a x cur : str) :
  (List.length (split_ws_from cur a) <=
   List.length (split_ws_from cur (a ++ x)))%nat.
Proof.
  revert cur. induction a as [|c a IH]; intros cur; simpl.
  - destruct (truthy cur) eqn:E; simpl; [|lia].
    now apply split_ws_from_open.
  - destruct (isspace c).
    + rewrite !length_app. specialize (IH []). lia.
    + apply IH.
Qed.



Local Open Scope Z_scope.

(** *** Rounding to 53 bits

    Values of doubles are counted in units of [2 ^ - frac_bits], so that
    every value met below is an integer. *)

(** Round to nearest, ties to even, of [X / 2^g]. *)
Definition rne (X g : Z) : Z :=
  let q := X / 2 ^ g in
  match X mod 2 ^ g ?= 2 ^ (g - 1) with
  | Lt => q
  | Gt => q + 1
  | Eq => if Z.even q then q else q + 1
  end.

(** The nearest multiple of [2 ^ g], for the [g] that leaves 53 bits. *)
Definition round53 (X : Z) : Z :=
  let g := Z.log2 X - 52 in rne X g * 2 ^ g.

Lemma rne_bounds X g : X / 2 ^ g <= rne X g <= X / 2 ^ g + 1.
Proof.
  unfold rne. destruct (_ ?= _); [destruct (Z.even _)| |]; lia.
Qed.

Lemma rne_mono g X Y : 0 < g -> 0 <= X <= Y -> rne X g <= rne Y g.
Proof.
  intros Hg HXY.
  assert (HP : 0 < 2 ^ g) by (apply Z.pow_pos_nonneg; lia).
  assert (Hq : X / 2 ^ g <= Y / 2 ^ g) by (apply Z.div_le_mono; lia).
  destruct (Z.eq_dec (X / 2 ^ g) (Y / 2 ^ g)) as [E|N].
  - pose proof (Z.div_mod X (2 ^ g) ltac:(lia)) as DX.
    pose proof (Z.div_mod Y (2 ^ g) ltac:(lia)) as DY.
    assert (Hr : X mod 2 ^ g <= Y mod 2 ^ g) by (rewrite E in DX; lia).
    unfold rne. rewrite E.
    destruct (Z.compare_spec (X mod 2 ^ g) (2 ^ (g - 1)));
      destruct (Z.compare_spec (Y mod 2 ^ g) (2 ^ (g - 1)));
      destruct (Z.even (Y / 2 ^ g)); lia.
  - pose proof (rne_bounds X g). pose proof (rne_bounds Y g). lia.
Qed.

Lemma rne_exact m g : 0 < g -> rne (m * 2 ^ g) g = m.
Proof.
  intros Hg.
  assert (HP : 0 < 2 ^ g) by (apply Z.pow_pos_nonneg; lia).
  assert (HH : 0 < 2 ^ (g - 1)) by (apply Z.pow_pos_nonneg; lia).
  unfold rne. rewrite Z.mod_mul, Z.div_mul by lia.
  destruct (Z.compare_spec 0 (2 ^ (g - 1))); lia.
Qed.

(** Scaling numerator and unit by the same power of two. *)
Lemma rne_scale m n j : 0 < n -> 0 <= j -> rne (m * 2 ^ j) (n + j) = rne m n.
Proof.
  intros Hn Hj.
  assert (HJ : 0 < 2 ^ j) by (apply Z.pow_pos_nonneg; lia).
  assert (HN : 0 < 2 ^ n) by (apply Z.pow_pos_nonneg; lia).
  unfold rne.
  replace (2 ^ (n + j)) with (2 ^ n * 2 ^ j) by (rewrite Z.pow_add_r; lia).
  replace (2 ^ (n + j - 1)) with (2 ^ (n - 1) * 2 ^ j)
    by (rewrite <- Z.pow_add_r by lia; f_equal; lia).
  rewrite Z.div_mul_cancel_r, Z.mul_mod_distr_r by lia.
  rewrite <- Zmult_compare_compat_r by lia. reflexivity.
Qed.

Lemma R_exact_pow2 k : 53 <= k -> round53 (2 ^ k) = 2 ^ k.
Proof.
  intros Hk. unfold round53. rewrite Z.log2_pow2 by lia.
  replace (2 ^ k) with (2 ^ 52 * 2 ^ (k - 52)) at 1
    by (rewrite <- Z.pow_add_r by lia; f_equal; lia).
  rewrite rne_exact by lia.
  rewrite <- Z.pow_add_r by lia. f_equal. lia.
Qed.

Lemma R_mono X Y : 2 ^ 53 <= X -> X <= Y -> round53 X <= round53 Y.
Proof.
  intros HX HXY.
  assert (LX : 53 <= Z.log2 X) by (apply Z.log2_le_pow2; lia).
  assert (LXY : Z.log2 X <= Z.log2 Y) by (apply Z.log2_le_mono; lia).
  pose proof (Z.log2_spec X ltac:(lia)) as SX.
  pose proof (Z.log2_spec Y ltac:(lia)) as SY.
  unfold round53.
  set (gX := Z.log2 X - 52). set (gY := Z.log2 Y - 52).
  assert (PX : 0 < 2 ^ gX) by (apply Z.pow_pos_nonneg; lia).
  assert (PY : 0 < 2 ^ gY) by (apply Z.pow_pos_nonneg; lia).
  destruct (Z.eq_dec gX gY) as [E|N].
  - rewrite <- E. apply Z.mul_le_mono_nonneg_r; [lia|].
    apply rne_mono; lia.
  - assert (Hup : rne X gX * 2 ^ gX <= 2 ^ (gX + 53)).
    { rewrite Z.pow_add_r by lia. rewrite (Z.mul_comm (2 ^ gX)).
      apply Z.mul_le_mono_nonneg_r; [lia|].
      assert (X / 2 ^ gX < 2 ^ 53).
      { apply Z.div_lt_upper_bound; [lia|].
        rewrite <- Z.pow_add_r by lia.
        replace (gX + 53) with (Z.succ (Z.log2 X)) by lia. lia. }
      pose proof (rne_bounds X gX). lia. }
    assert (Hlo : 2 ^ (gY + 52) <= rne Y gY * 2 ^ gY).
    { rewrite Z.pow_add_r by lia. rewrite (Z.mul_comm (2 ^ gY)).
      apply Z.mul_le_mono_nonneg_r; [lia|].
      assert (2 ^ 52 <= Y / 2 ^ gY).
      { apply Z.div_le_lower_bound; [lia|].
        rewrite <- Z.pow_add_r by lia.
        replace (gY + 52) with (Z.log2 Y) by lia. lia. }
      pose proof (rne_bounds Y gY). lia. }
    assert (2 ^ (gX + 53) <= 2 ^ (gY + 52))
      by (apply Z.pow_le_mono_r; lia).
    lia.
Qed.

Lemma R_le_pow2 X k : 2 ^ 53 <= X -> X <= 2 ^ k -> round53 X <= 2 ^ k.
Proof.
  intros HX Hk.
  assert (53 <= k).
  { destruct (Z_lt_le_dec k 53) as [L|]; [|assumption].
    assert (0 <= k \/ k < 0) as [P|P] by lia.
    - assert (2 ^ k < 2 ^ 53) by (apply Z.pow_lt_mono_r; lia). lia.
    - rewrite Z.pow_neg_r in Hk by lia. lia. }
  rewrite <- (R_exact_pow2 k) by lia. apply R_mono; lia.
Qed.

Lemma R_ge_pow2 X k : 53 <= k -> 2 ^ k <= X -> 2 ^ k <= round53 X.
Proof.
  intros Hk HX. rewrite <- (R_exact_pow2 k) at 1 by lia.
  apply R_mono; [|lia]. apply Z.pow_le_mono_r; lia.
Qed.

Lemma digits2_pos_size (m : positive) : digits2_pos m = Pos.size m.
Proof. induction m; simpl; congruence. Qed.

Lemma digits_log2 (m : positive) : Zpos (digits2_pos m) = Z.log2 (Zpos m) + 1.
Proof.
  rewrite digits2_pos_size.
  destruct m; simpl; rewrite ?Pos2Z.inj_succ; lia.
Qed.

(** One step of [shr_1] on a non-negative mantissa. *)
Lemma shr_1_nonneg (m : Z) (r s : bool) :
  0 <= m ->
  shr_1 (Build_shr_record m r s) =
  Build_shr_record (m / 2) (Z.odd m) (r || s).
Proof.
  intros Hm. destruct m as [|p|p]; [reflexivity| |lia].
  destruct p; simpl shr_1; f_equal; try reflexivity.
  - apply Z.div_unique with 1; [lia|]. apply Pos2Z.inj_xI.
  - apply Z.div_unique with 0; [lia|]. rewrite Z.add_0_r. apply Pos2Z.inj_xO.
Qed.

(** The low [k] bits of [m], split at bit [k - 1]. *)
Lemma low_bits_split (m k : Z) :
  0 < k ->
  exists b lo,
    (b = 0 \/ b = 1) /\ 0 <= lo < 2 ^ (k - 1) /\
    Z.odd (m / 2 ^ (k - 1)) = (b =? 1) /\
    m mod 2 ^ (k - 1) = lo /\
    m mod 2 ^ k = lo + 2 ^ (k - 1) * b.
Proof.
  intros Hk.
  assert (HQ : 0 < 2 ^ (k - 1)) by (apply Z.pow_pos_nonneg; lia).
  exists ((m / 2 ^ (k - 1)) mod 2), (m mod 2 ^ (k - 1)).
  pose proof (Z.mod_pos_bound (m / 2 ^ (k - 1)) 2 ltac:(lia)).
  pose proof (Z.mod_pos_bound m (2 ^ (k - 1)) HQ).
  split; [lia|]. split; [lia|]. split; [|split; [reflexivity|]].
  - rewrite Zodd_mod. reflexivity.
  - replace (2 ^ k) with (2 ^ (k - 1) * 2).
    + apply Z.rem_mul_r; lia.
    + rewrite Z.mul_comm, <- Z.pow_succ_r by lia. f_equal. lia.
Qed.

(** The record after [k] steps from [(m, false, false)]. *)
Definition shifted (m k : Z) : shr_record :=
  Build_shr_record (m / 2 ^ k)
    (if k =? 0 then false else Z.odd (m / 2 ^ (k - 1)))
    (if k =? 0 then false else negb (m mod 2 ^ (k - 1) =? 0)).

Lemma shifted_step (m k : Z) :
  0 <= m -> 0 <= k -> shr_1 (shifted m k) = shifted m (k + 1).
Proof.
  intros Hm Hk. unfold shifted.
  assert (HP : 0 < 2 ^ k) by (apply Z.pow_pos_nonneg; lia).
  rewrite shr_1_nonneg by (apply Z.div_pos; lia).
  replace (k + 1 =? 0) with false by (symmetry; apply Z.eqb_neq; lia).
  replace (k + 1 - 1) with k by lia.
  f_equal.
  - rewrite Z.div_div by lia. f_equal.
    rewrite Z.pow_add_r by lia. reflexivity.
  - destruct (Z.eqb_spec k 0) as [->|Hk0].
    + simpl. rewrite Z.mod_1_r. reflexivity.
    + destruct (low_bits_split m k ltac:(lia))
        as (b & lo & Hb & Hlo & -> & -> & ->).
      destruct Hb as [-> | ->]; simpl (_ =? 1).
      * rewrite Z.mul_0_r, Z.add_0_r. reflexivity.
      * rewrite Z.mul_1_r. simpl orb.
        symmetry. apply negb_true_iff, Z.eqb_neq. lia.
Qed.

Lemma iter_pos_shifted (p : positive) (m k : Z) :
  0 <= m -> 0 <= k ->
  iter_pos shr_1 p (shifted m k) = shifted m (k + Zpos p).
Proof.
  intros Hm. revert k.
  induction p as [p IH|p IH|]; intros k Hk; cbn [iter_pos].
  - rewrite shifted_step, !IH by lia. f_equal. lia.
  - rewrite !IH by lia. f_equal. lia.
  - now rewrite shifted_step.
Qed.

Lemma shr_shifted (m e : Z) (n : Z) :
  0 <= m -> 0 <= n ->
  shr (Build_shr_record m false false) e n = (shifted m n, e + n).
Proof.
  intros Hm Hn.
  assert (S0 : Build_shr_record m false false = shifted m 0).
  { unfold shifted. simpl. now rewrite Z.div_1_r. }
  unfold shr. destruct n as [|p|p]; [| |lia].
  - rewrite Z.add_0_r. now rewrite S0.
  - rewrite S0, iter_pos_shifted by lia. reflexivity.
Qed.

(** Rounding the shifted record is [rne]. *)
Lemma round_shifted (m n : Z) :
  0 <= m -> 0 < n ->
  round_nearest_even (shr_m (shifted m n)) (loc_of_shr_record (shifted m n)) =
  rne m n.
Proof.
  intros Hm Hn. unfold shifted, rne.
  replace (n =? 0) with false by (symmetry; apply Z.eqb_neq; lia).
  destruct (low_bits_split m n Hn) as (b & lo & Hb & Hlo & -> & -> & ->).
  simpl shr_m. simpl loc_of_shr_record.
  destruct Hb as [-> | ->]; simpl (_ =? 1).
  - rewrite Z.mul_0_r, Z.add_0_r.
    destruct (Z.compare_spec lo (2 ^ (n - 1))); try lia.
    destruct (Z.eqb_spec lo 0); reflexivity.
  - rewrite Z.mul_1_r.
    destruct (Z.eqb_spec lo 0) as [->|Hne]; simpl negb.
    + rewrite Z.add_0_l, Z.compare_refl. reflexivity.
    + destruct (Z.compare_spec (lo + 2 ^ (n - 1)) (2 ^ (n - 1))); try lia.
      reflexivity.
Qed.

Definition frac_bits : Z := 2200.

Lemma Zdigits2_log2 (q : Z) : 0 < q -> Zdigits2 q = Z.log2 q + 1.
Proof.
  destruct q as [|p|p]; try lia. intros _. apply digits_log2.
Qed.

Lemma shifted_0 (m : Z) : shifted m 0 = Build_shr_record m false false.
Proof. unfold shifted. simpl. now rewrite Z.div_1_r. Qed.

(** [shr_fexp] on an exact mantissa in the normal range. *)
Lemma shr_fexp_exact (q e : Z) :
  0 < q -> -1074 <= Z.log2 q - 52 + e ->
  shr_fexp 53 1024 q e loc_Exact =
  (shifted q (Z.max 0 (Z.log2 q - 52)), e + Z.max 0 (Z.log2 q - 52)).
Proof.
  intros Hq Hn. unfold shr_fexp, fexp, emin.
  rewrite Zdigits2_log2 by assumption.
  cbn [shr_record_of_loc].
  replace (Z.max (Z.log2 q + 1 + e - 53) (3 - 1024 - 53) - e)
    with (Z.log2 q - 52) by lia.
  destruct (Z_lt_le_dec (Z.log2 q - 52) 0) as [L|L].
  - rewrite Z.max_l by lia. rewrite shifted_0, Z.add_0_r.
    unfold shr. destruct (Z.log2 q - 52); try lia; reflexivity.
  - rewrite Z.max_r by lia. apply shr_shifted; lia.
Qed.

(** The first shift and the rounding leave 53 bits, or give [2 ^ 53]. *)
Lemma rounded_bounds (m n : Z) :
  0 < m -> n = Z.log2 m - 52 -> 0 <= n ->
  let q := round_nearest_even (shr_m (shifted m n))
                              (loc_of_shr_record (shifted m n)) in
  2 ^ 52 <= q <= 2 ^ 53 /\
  forall j, 0 < j -> q = rne (m * 2 ^ j) (n + j).
Proof.
  intros Hm Hn Hn0 q. subst q.
  pose proof (Z.log2_spec m Hm) as S.
  destruct (Z.eq_dec n 0) as [E|E].
  - rewrite E, shifted_0. cbn [shr_m loc_of_shr_record round_nearest_even].
    replace (Z.log2 m) with 52 in S by lia.
    split; [change (Z.succ 52) with 53 in S; lia|].
    intros j Hj. rewrite Z.add_0_l. now rewrite rne_exact.
  - rewrite round_shifted by lia. split.
    + assert (HP : 0 < 2 ^ n) by (apply Z.pow_pos_nonneg; lia).
      pose proof (rne_bounds m n).
      assert (2 ^ 52 <= m / 2 ^ n).
      { apply Z.div_le_lower_bound; [lia|].
        rewrite <- Z.pow_add_r by lia.
        replace (n + 52) with (Z.log2 m) by lia. lia. }
      assert (m / 2 ^ n < 2 ^ 53).
      { apply Z.div_lt_upper_bound; [lia|].
        rewrite <- Z.pow_add_r by lia.
        replace (n + 53) with (Z.succ (Z.log2 m)) by lia. lia. }
      lia.
    + intros j Hj. symmetry. apply rne_scale; lia.
Qed.

(** Rounding a positive mantissa with at least 53 bits, in the normal
    range and below the overflow threshold. *)
Lemma round_aux_value (m : positive) (e : Z) :
  52 <= Z.log2 (Zpos m) ->
  - frac_bits < e ->
  -1022 <= Z.log2 (Zpos m) + e <= 1022 ->
  exists m' e',
    binary_round_aux 53 1024 false (Zpos m) e loc_Exact =
      S754_finite false m' e' /\
    Z.log2 (Zpos m') = 52 /\ -1074 <= e' <= 971 /\
    Zpos m' * 2 ^ (e' + frac_bits) = round53 (Zpos m * 2 ^ (e + frac_bits)).
Proof.
  intros Hd He Hr. unfold frac_bits in *.
  set (n := Z.log2 (Zpos m) - 52).
  unfold binary_round_aux.
  rewrite shr_fexp_exact by lia.
  rewrite Z.max_r by lia. fold n.
  destruct (rounded_bounds (Zpos m) n ltac:(lia) eq_refl ltac:(lia))
    as [Hq Hrne].
  set (q := round_nearest_even (shr_m (shifted (Zpos m) n))
              (loc_of_shr_record (shifted (Zpos m) n))) in *.
  specialize (Hrne (e + 2200) ltac:(lia)).
  assert (HR : round53 (Zpos m * 2 ^ (e + 2200)) = q * 2 ^ (e + n + 2200)).
  { unfold round53. rewrite Z.log2_mul_pow2 by lia.
    replace (e + 2200 + Z.log2 (Zpos m) - 52) with (n + (e + 2200)) by lia.
    rewrite <- Hrne. f_equal. f_equal. lia. }
  assert (Lq : Z.log2 q = 52 \/ q = 2 ^ 53).
  { destruct (Z.eq_dec q (2 ^ 53)); [now right|left].
    apply Z.log2_unique; [lia|]. change (Z.succ 52) with 53. lia. }
  rewrite shr_fexp_exact; cycle 1.
  { lia. }
  { destruct Lq as [-> | ->]; [lia | rewrite Z.log2_pow2; lia]. }
  destruct Lq as [L | E].
  - rewrite L. change (Z.max 0 (52 - 52)) with 0.
    rewrite shifted_0, Z.add_0_r. cbn [shr_m].
    destruct q as [|pq|pq]; try lia.
    replace (e + n <=? 1024 - 53) with true
      by (symmetry; apply Z.leb_le; lia).
    exists pq, (e + n). repeat split; lia.
  - rewrite E. rewrite Z.log2_pow2 by lia.
    change (Z.max 0 (53 - 52)) with 1.
    change (shr_m (shifted (2 ^ 53) 1)) with (Zpos (2 ^ 52)%positive).
    cbv iota.
    replace (e + n + 1 <=? 1024 - 53) with true
      by (symmetry; apply Z.leb_le; lia).
    exists (2 ^ 52)%positive, (e + n + 1). repeat split; try lia.
    rewrite HR, E.
    change (Zpos (2 ^ 52)) with (2 ^ 52).
    rewrite <- !Z.pow_add_r by lia. f_equal. lia.
Qed.

Lemma shl_align_value (mx : positive) (ex ex' : Z) :
  exists mz,
    shl_align mx ex ex' = (mz, Z.min ex ex') /\
    Zpos mz = Zpos mx * 2 ^ (ex - Z.min ex ex').
Proof.
  unfold shl_align. destruct (ex' - ex) as [|d|d] eqn:E.
  - exists mx. rewrite Z.min_l by lia. rewrite Z.sub_diag. split; [reflexivity|lia].
  - exists mx. rewrite Z.min_l by lia. rewrite Z.sub_diag. split; [reflexivity|lia].
  - exists (Pos.iter xO mx d). rewrite Z.min_r by lia. split; [reflexivity|].
    change (Pos.iter xO mx d) with (shift_pos d mx).
    rewrite shift_pos_correct.
    replace (ex - ex') with (Zpos d) by lia.
    rewrite Z.mul_comm. reflexivity.
Qed.

(** Rounding any positive mantissa whose value is in the normal range and
    below the overflow threshold. *)
Lemma round_value (m : positive) (e : Z) :
  - 1100 < e ->
  frac_bits - 1022 <= Z.log2 (Zpos m * 2 ^ (e + frac_bits)) <= frac_bits + 1022 ->
  exists m' e',
    binary_round 53 1024 false m e = S754_finite false m' e' /\
    Z.log2 (Zpos m') = 52 /\ -1074 <= e' <= 971 /\
    Zpos m' * 2 ^ (e' + frac_bits) = round53 (Zpos m * 2 ^ (e + frac_bits)).
Proof.
  intros He Hr. unfold frac_bits in *.
  rewrite Z.log2_mul_pow2 in Hr by lia.
  unfold binary_round, fexp, emin.
  rewrite digits_log2.
  destruct (shl_align_value m e
              (Z.max (Z.log2 (Zpos m) + 1 + e - 53) (3 - 1024 - 53)))
    as (mz & -> & Hmz).
  set (ez := Z.min e (Z.max (Z.log2 (Zpos m) + 1 + e - 53) (3 - 1024 - 53))) in *.
  assert (Lz : Z.log2 (Zpos mz) = Z.log2 (Zpos m) + (e - ez)).
  { rewrite Hmz, Z.log2_mul_pow2 by lia. lia. }
  destruct (round_aux_value mz ez) as (m' & e' & Hb & Hl & He' & Hv);
    try (unfold frac_bits; lia).
  unfold frac_bits in Hv.
  exists m', e'. repeat split; try assumption; try lia.
  rewrite Hv. f_equal. rewrite Hmz, <- Z.mul_assoc, <- Z.pow_add_r by lia.
  f_equal. f_equal. lia.
Qed.

(** A positive double in canonical form, with its value in units of
    [2 ^ - frac_bits]. *)
Definition finite_pos (f : spec_float) (X : Z) : Prop :=
  exists m e,
    f = S754_finite false m e /\ Z.log2 (Zpos m) = 52 /\
    -1074 <= e <= 971 /\ X = Zpos m * 2 ^ (e + frac_bits).

(** A double that is [+0] or positive. *)
Definition repr (f : spec_float) (X : Z) : Prop :=
  (f = S754_zero false /\ X = 0) \/ finite_pos f X.

Lemma finite_pos_log2 f X : finite_pos f X -> frac_bits - 1022 <= Z.log2 X <= frac_bits + 1023.
Proof.
  intros (m & e & _ & L & He & ->). unfold frac_bits.
  rewrite Z.log2_mul_pow2 by lia. lia.
Qed.

Lemma finite_pos_fixed f X : finite_pos f X -> round53 X = X.
Proof.
  intros (m & e & _ & L & He & ->). unfold round53, frac_bits.
  rewrite Z.log2_mul_pow2 by lia. rewrite L.
  replace (e + 2200 + 52 - 52) with (e + 2200) by lia.
  rewrite rne_exact by lia. reflexivity.
Qed.

Lemma R_0 : round53 0 = 0.
Proof. reflexivity. Qed.

Lemma repr_fixed f X : repr f X -> round53 X = X.
Proof.
  intros [[_ ->] | H]; [apply R_0 | now apply finite_pos_fixed with f].
Qed.

Lemma repr_nonneg f X : repr f X -> 0 <= X.
Proof.
  intros [[_ ->] | (m & e & _ & _ & _ & ->)]; [lia|].
  apply Z.mul_nonneg_nonneg; [lia|]. apply Z.pow_nonneg. lia.
Qed.

Lemma round_repr (m : positive) (e : Z) :
  - 1100 < e ->
  frac_bits - 1022 <= Z.log2 (Zpos m * 2 ^ (e + frac_bits)) <= frac_bits + 1022 ->
  finite_pos (binary_round 53 1024 false m e) (round53 (Zpos m * 2 ^ (e + frac_bits))).
Proof.
  intros He Hr. destruct (round_value m e He Hr) as (m' & e' & -> & L & B & V).
  exists m', e'. auto.
Qed.

(** *** The operations of the estimate *)

Lemma aux_repr (m : positive) (e : Z) :
  52 <= Z.log2 (Zpos m) -> - frac_bits < e ->
  -1022 <= Z.log2 (Zpos m) + e <= 1022 ->
  finite_pos (binary_round_aux 53 1024 false (Zpos m) e loc_Exact)
             (round53 (Zpos m * 2 ^ (e + frac_bits))).
Proof.
  intros H1 H2 H3.
  destruct (round_aux_value m e H1 H2 H3) as (m' & e' & -> & L & B & V).
  exists m', e'. auto.
Qed.

(** Values between [2 ^ (frac_bits - 500)] and [2 ^ (frac_bits + 500)]. *)
Definition mid (X : Z) : Prop := 2 ^ (frac_bits - 500) <= X <= 2 ^ (frac_bits + 500).

Lemma mid_log2 X : mid X -> frac_bits - 500 <= Z.log2 X <= frac_bits + 500.
Proof.
  unfold mid, frac_bits. intros [Hlo Hhi].
  assert (0 < 2 ^ (2200 - 500)) by (apply Z.pow_pos_nonneg; lia).
  split.
  - apply Z.log2_le_pow2; lia.
  - rewrite <- (Z.log2_pow2 (2200 + 500)) by lia. apply Z.log2_le_mono. lia.
Qed.

Lemma finite_pos_exponent f X m e :
  f = S754_finite false m e -> finite_pos f X ->
  Z.log2 (Zpos m) = 52 /\ -1074 <= e <= 971 /\ X = Zpos m * 2 ^ (e + frac_bits) /\
  Z.log2 X = e + frac_bits + 52.
Proof.
  intros -> (m' & e' & [= <- <-] & L & B & ->).
  repeat split; try lia. unfold frac_bits. rewrite Z.log2_mul_pow2 by lia. lia.
Qed.

Lemma repr_int (n : Z) :
  0 <= n < 2 ^ 1000 ->
  exists f, float_of_int n = Ok f /\ repr f (round53 (n * 2 ^ frac_bits)).
Proof.
  intros Hn. unfold float_of_int, binary_normalize, prec, emax.
  destruct n as [|p|p]; [| |lia].
  - exists (S754_zero false). split; [reflexivity|]. left. split; reflexivity.
  - assert (Hp : finite_pos (binary_round 53 1024 false p 0)
                            (round53 (Zpos p * 2 ^ (0 + frac_bits)))).
    { apply round_repr; [lia|]. unfold frac_bits.
      rewrite Z.log2_mul_pow2 by lia.
      assert (Z.log2 (Zpos p) < 1000) by (apply Z.log2_lt_pow2; lia).
      pose proof (Z.log2_nonneg (Zpos p)). lia. }
    rewrite Z.add_0_l in Hp.
    destruct Hp as (m & e & E & Hrest). rewrite E.
    exists (S754_finite false m e). split; [reflexivity|].
    right. exists m, e. tauto.
Qed.

Lemma repr_mul (x y : float) (X Y : Z) :
  repr x X -> finite_pos y Y -> X = 0 \/ mid X -> mid Y ->
  repr (fmul x y) (round53 (X * Y / 2 ^ frac_bits)).
Proof.
  intros Hx Hy HX HY. unfold fmul, prec, emax.
  destruct Hy as (my & ey & -> & Ly & By & ->).
  destruct Hx as [[-> ->] | (mx & ex & -> & Lx & Bx & ->)].
  - left. split; reflexivity.
  - right. destruct HX as [HX | HX].
    { exfalso. assert (0 < 2 ^ (ex + frac_bits)) by (apply Z.pow_pos_nonneg; unfold frac_bits; lia).
      nia. }
    apply mid_log2 in HX. apply mid_log2 in HY. unfold frac_bits in *.
    rewrite Z.log2_mul_pow2 in HX, HY by lia.
    cbn [SFmul xorb].
    replace (Zpos mx * 2 ^ (ex + 2200) * (Zpos my * 2 ^ (ey + 2200)) / 2 ^ 2200)
      with (Zpos (mx * my) * 2 ^ (ex + ey + 2200)).
    + pose proof (Z.log2_mul_below (Zpos mx) (Zpos my) ltac:(lia) ltac:(lia)).
      pose proof (Z.log2_mul_above (Zpos mx) (Zpos my) ltac:(lia) ltac:(lia)).
      rewrite <- Pos2Z.inj_mul in *.
      apply aux_repr; unfold frac_bits; lia.
    + rewrite Pos2Z.inj_mul.
      replace (Zpos mx * 2 ^ (ex + 2200) * (Zpos my * 2 ^ (ey + 2200)))
        with (Zpos mx * Zpos my * 2 ^ (ex + ey + 2200) * 2 ^ 2200).
      * rewrite Z.div_mul; [reflexivity|]. apply Z.pow_nonzero; lia.
      * rewrite <- !Z.mul_assoc. f_equal.
        rewrite (Z.mul_comm (2 ^ (ex + 2200))), <- !Z.mul_assoc. f_equal.
        rewrite <- !Z.pow_add_r by lia. f_equal. lia.
Qed.

Lemma repr_add (x y : float) (X Y : Z) :
  repr x X -> repr y Y -> X = 0 \/ mid X -> Y = 0 \/ mid Y ->
  repr (fadd x y) (round53 (X + Y)).
Proof.
  intros Hx Hy HX HY. unfold fadd, prec, emax.
  destruct Hx as [[-> ->] | Fx]; destruct Hy as [[-> ->] | Fy].
  - left. split; reflexivity.
  - rewrite Z.add_0_l, (finite_pos_fixed _ _ Fy).
    destruct Fy as (my & ey & -> & Hy'). right. exists my, ey. tauto.
  - rewrite Z.add_0_r, (finite_pos_fixed _ _ Fx).
    destruct Fx as (mx & ex & -> & Hx'). right. exists mx, ex. tauto.
  - right.
    destruct Fx as (mx & ex & -> & Lx & Bx & ->).
    destruct Fy as (my & ey & -> & Ly & By & ->).
    assert (PX : 0 < Zpos mx * 2 ^ (ex + frac_bits))
      by (apply Z.mul_pos_pos; [lia|apply Z.pow_pos_nonneg; unfold frac_bits; lia]).
    assert (PY : 0 < Zpos my * 2 ^ (ey + frac_bits))
      by (apply Z.mul_pos_pos; [lia|apply Z.pow_pos_nonneg; unfold frac_bits; lia]).
    destruct HX as [HX|HX]; [lia|]. destruct HY as [HY|HY]; [lia|].
    cbn [SFadd cond_Zopp].
    destruct (shl_align_value mx ex (Z.min ex ey)) as (ax & -> & Hax).
    destruct (shl_align_value my ey (Z.min ex ey)) as (ay & -> & Hay).
    cbn [fst]. rewrite <- Pos2Z.inj_add. cbn [binary_normalize].
    replace (Z.min ex (Z.min ex ey)) with (Z.min ex ey) in Hax by lia.
    replace (Z.min ey (Z.min ex ey)) with (Z.min ex ey) in Hay by lia.
    set (ez := Z.min ex ey) in *.
    assert (V : Zpos (ax + ay) * 2 ^ (ez + frac_bits) =
                Zpos mx * 2 ^ (ex + frac_bits) + Zpos my * 2 ^ (ey + frac_bits)).
    { rewrite Pos2Z.inj_add, Z.mul_add_distr_r, Hax, Hay.
      rewrite <- !Z.mul_assoc, <- !Z.pow_add_r by (unfold frac_bits; lia).
      f_equal; f_equal; f_equal; lia. }
    rewrite <- V. apply round_repr; [lia|].
    rewrite V.
    assert (M : 2 ^ (frac_bits - 500) <= Zpos mx * 2 ^ (ex + frac_bits) + Zpos my * 2 ^ (ey + frac_bits)
                <= 2 ^ (frac_bits + 501)).
    { unfold mid in *. split; [lia|].
      replace (frac_bits + 501) with (Z.succ (frac_bits + 500)) by lia.
      rewrite Z.pow_succ_r by (unfold frac_bits; lia). lia. }
    assert (0 < 2 ^ (frac_bits - 500)) by (apply Z.pow_pos_nonneg; unfold frac_bits; lia).
    split.
    + apply Z.le_trans with (frac_bits - 500); [unfold frac_bits; lia|].
      apply Z.log2_le_pow2; lia.
    + apply Z.le_trans with (frac_bits + 501); [|unfold frac_bits; lia].
      rewrite <- (Z.log2_pow2 (frac_bits + 501)) by (unfold frac_bits; lia).
      apply Z.log2_le_mono. lia.
Qed.

Lemma repr_trunc (f : float) (X : Z) :
  repr f X -> int_of_float f = Ok (X / 2 ^ frac_bits).
Proof.
  intros [[-> ->] | (m & e & -> & L & B & ->)]; [reflexivity|].
  unfold int_of_float. cbn [cond_Zopp]. f_equal. unfold frac_bits.
  destruct (Z.leb_spec 0 e).
  - rewrite Z.pow_add_r, Z.mul_assoc by lia.
    rewrite Z.div_mul; [reflexivity|]. apply Z.pow_nonzero; lia.
  - replace (2 ^ 2200) with (2 ^ (- e) * 2 ^ (e + 2200))
      by (rewrite <- Z.pow_add_r by lia; f_equal; lia).
    rewrite Z.div_mul_cancel_r; [reflexivity| |]; apply Z.pow_nonzero; lia.
Qed.

Lemma pow2_le (a b : Z) : 0 <= a <= b -> 2 ^ a <= 2 ^ b.
Proof. intros H. apply Z.pow_le_mono_r; lia. Qed.

Lemma pow2_pos (a : Z) : 0 <= a -> 0 < 2 ^ a.
Proof. intros H. apply Z.pow_pos_nonneg; lia. Qed.

Lemma R_nonneg (X : Z) : 0 <= X -> 0 <= round53 X.
Proof.
  intros HX. unfold round53. apply Z.mul_nonneg_nonneg.
  - pose proof (rne_bounds X (Z.log2 X - 52)).
    pose proof (Z.div_pos X (2 ^ (Z.log2 X - 52)) HX).
    destruct (Z_lt_le_dec (Z.log2 X - 52) 0) as [L|L].
    + rewrite Z.pow_neg_r in * by lia.
      unfold rne. rewrite Z.pow_neg_r by lia.
      rewrite Z.div_0_r. destruct (_ ?= _); simpl; lia.
    + specialize (H0 (pow2_pos _ L)). lia.
  - apply Z.pow_nonneg. lia.
Qed.

Lemma R_mono0 (X Y : Z) : X = 0 \/ 2 ^ 53 <= X -> X <= Y -> round53 X <= round53 Y.
Proof.
  intros [-> | HX] HXY.
  - rewrite R_0. now apply R_nonneg.
  - now apply R_mono.
Qed.

(** The value of [n * c] for an [int] [n] and a double [c], in units of
    [2 ^ - frac_bits]: the product of the rounded [n] and [c], rounded. *)
Definition term (n C : Z) : Z := round53 (round53 (n * 2 ^ frac_bits) * C / 2 ^ frac_bits).

(** The value of [words * 1.3 + chars * 0.1]. *)
Definition X_1_3 : Z := 5854679515581645 * 2 ^ (-52 + frac_bits).
Definition X_0_1 : Z := 7205759403792794 * 2 ^ (-56 + frac_bits).
Definition value (words chars : Z) : Z :=
  round53 (term words X_1_3 + term chars X_0_1).

(** A constant between 1/16 and 2. *)
Definition small (C : Z) : Prop := 2 ^ (frac_bits - 4) <= C <= 2 ^ (frac_bits + 1).

Lemma small_mid C : small C -> mid C.
Proof.
  unfold small, mid. intros [H1 H2].
  pose proof (pow2_le (frac_bits - 500) (frac_bits - 4) ltac:(unfold frac_bits; lia)).
  pose proof (pow2_le (frac_bits + 1) (frac_bits + 500) ltac:(unfold frac_bits; lia)). lia.
Qed.

Lemma finite_1_3 : finite_pos lit_1_3 X_1_3 /\ small X_1_3.
Proof.
  split.
  - exists 5854679515581645%positive, (-52). repeat split; try reflexivity; lia.
  - unfold small, X_1_3.
    replace (frac_bits - 4) with (48 + (-52 + frac_bits)) by lia.
    replace (frac_bits + 1) with (53 + (-52 + frac_bits)) by lia.
    rewrite (Z.pow_add_r 2 48), (Z.pow_add_r 2 53) by (unfold frac_bits; lia).
    pose proof (pow2_pos (-52 + frac_bits) ltac:(unfold frac_bits; lia)).
    set (p := 2 ^ (-52 + frac_bits)) in *.
    change (2 ^ 48) with 281474976710656.
    change (2 ^ 53) with 9007199254740992. lia.
Qed.

Lemma finite_0_1 : finite_pos lit_0_1 X_0_1 /\ small X_0_1.
Proof.
  split.
  - exists 7205759403792794%positive, (-56). repeat split; try reflexivity; lia.
  - unfold small, X_0_1.
    replace (frac_bits - 4) with (52 + (-56 + frac_bits)) by lia.
    replace (frac_bits + 1) with (57 + (-56 + frac_bits)) by lia.
    rewrite (Z.pow_add_r 2 52), (Z.pow_add_r 2 57) by (unfold frac_bits; lia).
    pose proof (pow2_pos (-56 + frac_bits) ltac:(unfold frac_bits; lia)).
    set (p := 2 ^ (-56 + frac_bits)) in *.
    change (2 ^ 52) with 4503599627370496.
    change (2 ^ 57) with 144115188075855872. lia.
Qed.

Lemma scaled_bounds (n : Z) :
  1 <= n <= 2 ^ 63 -> 2 ^ frac_bits <= round53 (n * 2 ^ frac_bits) <= 2 ^ (frac_bits + 63).
Proof.
  intros Hn. pose proof (pow2_pos frac_bits ltac:(unfold frac_bits; lia)) as PK.
  pose proof (pow2_le 53 frac_bits ltac:(unfold frac_bits; lia)).
  split.
  - apply R_ge_pow2; [unfold frac_bits; lia | nia].
  - apply R_le_pow2; [nia|].
    rewrite (Z.add_comm frac_bits), Z.pow_add_r by (unfold frac_bits; lia).
    apply Z.mul_le_mono_nonneg_r; lia.
Qed.

Lemma product_bounds (S C : Z) :
  2 ^ frac_bits <= S <= 2 ^ (frac_bits + 63) -> small C ->
  2 ^ (frac_bits - 4) <= S * C / 2 ^ frac_bits <= 2 ^ (frac_bits + 64).
Proof.
  intros HS [HC1 HC2].
  pose proof (pow2_pos frac_bits ltac:(unfold frac_bits; lia)) as PK.
  pose proof (pow2_pos (frac_bits - 4) ltac:(unfold frac_bits; lia)) as PK4.
  split.
  - apply Z.div_le_lower_bound; [lia|].
    apply Z.mul_le_mono_nonneg; lia.
  - apply Z.div_le_upper_bound; [lia|].
    replace (2 ^ frac_bits * 2 ^ (frac_bits + 64)) with (2 ^ (frac_bits + 63) * 2 ^ (frac_bits + 1))
      by (rewrite <- !Z.pow_add_r by (unfold frac_bits; lia); f_equal; lia).
    apply Z.mul_le_mono_nonneg; lia.
Qed.

Lemma term_0 (C : Z) : term 0 C = 0.
Proof. reflexivity. Qed.

Lemma term_bounds (n C : Z) :
  1 <= n <= 2 ^ 63 -> small C -> 2 ^ (frac_bits - 4) <= term n C <= 2 ^ (frac_bits + 64).
Proof.
  intros Hn HC. unfold term.
  pose proof (product_bounds _ _ (scaled_bounds n Hn) HC) as [P1 P2].
  pose proof (pow2_le 53 (frac_bits - 4) ltac:(unfold frac_bits; lia)).
  split.
  - apply R_ge_pow2; [unfold frac_bits; lia | assumption].
  - apply R_le_pow2; [lia | assumption].
Qed.

Lemma term_mid (n C : Z) :
  0 <= n <= 2 ^ 63 -> small C -> term n C = 0 \/ mid (term n C).
Proof.
  intros Hn HC. destruct (Z.eq_dec n 0) as [->|N]; [left; apply term_0|right].
  pose proof (term_bounds n C ltac:(lia) HC). unfold mid.
  pose proof (pow2_le (frac_bits - 500) (frac_bits - 4) ltac:(unfold frac_bits; lia)).
  pose proof (pow2_le (frac_bits + 64) (frac_bits + 500) ltac:(unfold frac_bits; lia)). lia.
Qed.

Lemma term_mono (n n' C : Z) :
  0 <= n <= n' -> n' <= 2 ^ 63 -> small C -> term n C <= term n' C.
Proof.
  intros Hn Hn' HC.
  destruct (Z.eq_dec n 0) as [->|N].
  - rewrite term_0. unfold term. apply R_nonneg.
    apply Z.div_pos; [|apply pow2_pos; unfold frac_bits; lia].
    apply Z.mul_nonneg_nonneg.
    + apply R_nonneg. apply Z.mul_nonneg_nonneg; [lia|].
      apply Z.pow_nonneg; lia.
    + destruct HC. pose proof (pow2_pos (frac_bits - 4) ltac:(unfold frac_bits; lia)). lia.
  - unfold term.
    pose proof (pow2_pos frac_bits ltac:(unfold frac_bits; lia)) as PK.
    pose proof (pow2_le 53 frac_bits ltac:(unfold frac_bits; lia)).
    pose proof (pow2_le 53 (frac_bits - 4) ltac:(unfold frac_bits; lia)).
    pose proof (scaled_bounds n ltac:(lia)) as Sn.
    pose proof (product_bounds _ _ Sn HC) as Pn.
    assert (round53 (n * 2 ^ frac_bits) <= round53 (n' * 2 ^ frac_bits)).
    { apply R_mono; [nia|]. apply Z.mul_le_mono_nonneg_r; lia. }
    apply R_mono; [lia|].
    apply Z.div_le_mono; [lia|].
    apply Z.mul_le_mono_nonneg_r; [|assumption].
    destruct HC. pose proof (pow2_pos (frac_bits - 4) ltac:(unfold frac_bits; lia)). lia.
Qed.

Lemma term_repr (n C : Z) (y : float) :
  0 <= n <= 2 ^ 63 -> finite_pos y C -> small C ->
  exists f, float_of_int n = Ok f /\ repr (fmul f y) (term n C).
Proof.
  intros Hn Hy HC.
  assert (Hn' : 0 <= n < 2 ^ 1000).
  { pose proof (pow2_le 63 999 ltac:(lia)).
    assert (2 ^ 999 < 2 ^ 1000) by (apply Z.pow_lt_mono_r; lia). lia. }
  destruct (repr_int n Hn') as (f & E & Hf).
  exists f. split; [assumption|]. unfold term.
  apply repr_mul; try assumption; [|now apply small_mid].
  destruct (Z.eq_dec n 0) as [->|N]; [left; reflexivity|right].
  pose proof (scaled_bounds n ltac:(lia)). unfold mid.
  pose proof (pow2_le (frac_bits - 500) frac_bits ltac:(unfold frac_bits; lia)).
  pose proof (pow2_le (frac_bits + 63) (frac_bits + 500) ltac:(unfold frac_bits; lia)). lia.
Qed.

(** The double that [words * 1.3 + chars * 0.1] evaluates to. *)
Lemma weighted_repr (words chars : Z) :
  0 <= words <= 2 ^ 63 -> 0 <= chars <= 2 ^ 63 ->
  exists x, weighted words chars = Ok x /\ repr x (value words chars).
Proof.
  intros Hw Hc.
  destruct finite_1_3 as [F13 S13]. destruct finite_0_1 as [F01 S01].
  destruct (term_repr words X_1_3 lit_1_3 Hw F13 S13) as (fw & Ew & Rw).
  destruct (term_repr chars X_0_1 lit_0_1 Hc F01 S01) as (fc & Ec & Rc).
  unfold weighted. rewrite Ew, Ec. cbn [bind].
  eexists. split; [reflexivity|]. unfold value.
  apply repr_add; try assumption; now apply term_mid.
Qed.

Lemma value_mono (w w' c c' : Z) :
  0 <= w <= w' -> w' <= 2 ^ 63 -> 0 <= c <= c' -> c' <= 2 ^ 63 ->
  value w c <= value w' c'.
Proof.
  intros Hw Hw' Hc Hc'.
  destruct finite_1_3 as [_ S13]. destruct finite_0_1 as [_ S01].
  pose proof (term_mono w w' X_1_3 Hw Hw' S13).
  pose proof (term_mono c c' X_0_1 Hc Hc' S01).
  unfold value. apply R_mono0; [|lia].
  pose proof (pow2_le 53 (frac_bits - 4) ltac:(unfold frac_bits; lia)).
  destruct (Z.eq_dec w 0) as [->|Nw]; destruct (Z.eq_dec c 0) as [->|Nc].
  - left. reflexivity.
  - right. rewrite term_0.
    pose proof (term_bounds c X_0_1 ltac:(lia) S01). lia.
  - right. rewrite (term_0 X_0_1).
    pose proof (term_bounds w X_1_3 ltac:(lia) S13). lia.
  - right.
    pose proof (term_bounds c X_0_1 ltac:(lia) S01).
    pose proof (term_bounds w X_1_3 ltac:(lia) S13). lia.
Qed.

Lemma value_nonneg (w c : Z) : 0 <= w <= 2 ^ 63 -> 0 <= c <= 2 ^ 63 -> 0 <= value w c.
Proof.
  intros Hw Hc. destruct (weighted_repr w c Hw Hc) as (x & _ & Hx).
  now apply repr_nonneg with x.
Qed.

(** *** The estimate *)

Lemma counts_in_range (text : str) :
  Z.of_nat (List.length text) < 2 ^ 63 ->
  0 <= Z.of_nat (List.length (split_ws text)) <= 2 ^ 63 /\
  0 <= Z.of_nat (List.length text) <= 2 ^ 63.
Proof.
  intros H. pose proof (split_ws_length text). lia.
Qed.

Lemma estimate_value (text : str) :
  Z.of_nat (List.length text) < 2 ^ 63 ->
  exists x,
    weighted (Z.of_nat (List.length (split_ws text)))
             (Z.of_nat (List.length text)) = Ok x /\
    int_of_float x =
      Ok (value (Z.of_nat (List.length (split_ws text)))
                (Z.of_nat (List.length text)) / 2 ^ frac_bits) /\
    _estimate_tokens text =
      Ok (value (Z.of_nat (List.length (split_ws text)))
                (Z.of_nat (List.length text)) / 2 ^ frac_bits).
Proof.
  intros H. destruct (counts_in_range text H) as [Hw Hc].
  destruct (weighted_repr _ _ Hw Hc) as (x & E & Hx).
  exists x. split; [assumption|].
  pose proof (repr_trunc x _ Hx) as T. split; [assumption|].
  unfold _estimate_tokens. rewrite E. exact T.
Qed.

(** C2, as the code has it. The Size Estimator returns
    [int(word_count * 1.3 + char_count * 0.1)]: the double that the
    expression evaluates to, truncated toward zero (not rounded to the
    nearest integer); the result is a non-negative integer. Stated for texts
    shorter than [2 ^ 63] characters, the longest a string can be. *)
Theorem estimate_truncates (text : str) :
  Z.of_nat (List.length text) < 2 ^ 63 ->
  exists (x : float) (z : Z),
    weighted (Z.of_nat (List.length (split_ws text)))
             (Z.of_nat (List.length text)) = Ok x /\
    int_of_float x = Ok z /\
    _estimate_tokens text = Ok z /\
    0 <= z.
Proof.
  intros H. destruct (estimate_value text H) as (x & E & T & V).
  destruct (counts_in_range text H) as [Hw Hc].
  exists x. eexists. repeat split; try eassumption.
  apply Z.div_pos; [now apply value_nonneg|].
  apply pow2_pos. unfold frac_bits. lia.
Qed.

Lemma estimate_truncates_witness :
  exists (x : float) (z : Z),
    weighted 2 3 = Ok x /\ int_of_float x = Ok z /\
    _estimate_tokens (lit "a b") = Ok z /\ 0 <= z.
Proof.
  apply (estimate_truncates (lit "a b")). reflexivity.
Defined.

(** C2, as the specification words it, fails: for the text [a b] (two
    words, three characters) the double is 2.9000000000000004; the code
    returns 2 where [round] gives 3. *)
Lemma estimate_round_counterexample :
  _estimate_tokens (lit "a b") = Ok 2 /\
  spec_estimate (lit "a b") = Ok 3 /\
  _estimate_tokens (lit "a b") <> spec_estimate (lit "a b").
Proof.
  split; [vm_compute; reflexivity|].
  split; [vm_compute; reflexivity|].
  vm_compute. discriminate.
Qed.

(** C9. Appending text to a text never lowers the estimate: both
    estimates are defined and the one of the longer text is at least the
    one of the shorter. Stated for texts shorter than [2 ^ 63]
    characters, the longest a string can be. *)
Theorem estimate_monotone (A extra : str) :
  Z.of_nat (List.length (A ++ extra)) < 2 ^ 63 ->
  exists a b : Z,
    _estimate_tokens A = Ok a /\
    _estimate_tokens (A ++ extra) = Ok b /\
    a <= b.
Proof.
  intros H.
  assert (HA : Z.of_nat (List.length A) < 2 ^ 63)
    by (rewrite length_app in H; lia).
  destruct (estimate_value A HA) as (_ & _ & _ & EA).
  destruct (estimate_value (A ++ extra) H) as (_ & _ & _ & EB).
  destruct (counts_in_range _ H) as [Hw Hc].
  do 2 eexists. split; [exact EA|]. split; [exact EB|].
  apply Z.div_le_mono; [apply pow2_pos; unfold frac_bits; lia|].
  pose proof (split_ws_from_app A extra []) as W. fold (split_ws A) in W.
  fold (split_ws (A ++ extra)) in W.
  apply value_mono; try lia.
  rewrite length_app. lia.
Qed.

Lemma estimate_monotone_witness :
  exists a b : Z,
    _estimate_tokens (lit "a b") = Ok a /\
    _estimate_tokens (lit "a b" ++ lit "c d") = Ok b /\
    a <= b.
Proof.
  apply (estimate_monotone (lit "a b") (lit "c d")). reflexivity.
Defined.

End EstimatorFacts.

(** * Further properties *)

Section SplitterInvariants.
Import Splitter.

Definition unmarked (l : str) : Prop := startswith file_marker l = false.

(** A marker line that names a file: [File: ] followed by at least one
    character. *)
Definition names_file (l : str) : bool :=
  startswith file_marker l && truthy (skipn 6 l).

Lemma startswith_split (p l : str) :
  startswith p l = true -> l = p ++ skipn (List.length p) l.
Proof.
  revert l. induction p as [|a p IH]; intros l H; simpl in *.
  - reflexivity.
  - destruct l as [|b l]; [discriminate|].
    apply andb_prop in H. destruct H as [Hab Hp].
    apply Ascii.eqb_eq in Hab. subst b. simpl. f_equal. now apply IH.
Qed.

(** The state after a marker line or after lines appended to a chunk:
    the chunk being read has its lines. *)
Definition reading (st : state) : Prop :=
  match current_file st with
  | Some (_ :: _) => current_content st <> []
  | _ => True
  end.

Lemma reading_step (st : state) (l : str) : reading st -> reading (step st l).
Proof.
  unfold reading, step. intros H.
  destruct (startswith file_marker l); cbn [current_file current_content].
  - destruct (skipn 6 l); [exact I|discriminate].
  - destruct (current_file st) as [[|c n]|] eqn:E;
      cbn [current_file current_content]; rewrite ?E; auto.
    destruct (current_content st); discriminate.
Qed.

Lemma flush_names_step (st : state) (l : str) :
  reading st ->
  map fst (flush (step st l)) =
  map fst (flush st) ++ (if names_file l then [skipn 6 l] else []).
Proof.
  unfold reading, step, names_file. intros H.
  destruct (startswith file_marker l); cbn [andb].
  - unfold flush at 1. cbn [current_file current_content chunks].
    destruct (skipn 6 l) as [|c n]; cbn [truthy].
    + now rewrite app_nil_r.
    + rewrite map_app. reflexivity.
  - rewrite app_nil_r.
    destruct (current_file st) as [[|c n]|] eqn:E; try reflexivity.
    unfold flush. cbn [current_file current_content chunks]. rewrite E.
    destruct (current_content st) as [|x xs]; [contradiction|].
    cbn [app]. rewrite !map_app. reflexivity.
Qed.

Lemma flush_names_fold (ls : list str) (st : state) :
  reading st ->
  map fst (flush (fold_left step ls st)) =
  map fst (flush st) ++ map (skipn 6) (filter names_file ls).
Proof.
  revert st. induction ls as [|l ls IH]; intros st H; simpl.
  - now rewrite app_nil_r.
  - rewrite IH by now apply reading_step.
    rewrite flush_names_step by assumption.
    rewrite <- app_assoc. f_equal.
    destruct (names_file l); reflexivity.
Qed.

(** X1. For every text, the names the Chunk Splitter returns are the rests
    of the lines that start with [File: ] and go on, in their order: one
    chunk for each such line. A bare [File: ] line opens no chunk. *)
Theorem split_names (diff : str) :
  map fst (_split_diff_into_files diff) =
  map (skipn 6) (filter names_file (split_nl diff)).
Proof.
  unfold _split_diff_into_files.
  rewrite flush_names_fold by exact I. reflexivity.
Qed.

(** What every chunk looks like: a non-empty name, and a segment that is
    the marker line of that name followed by lines that are no markers. *)
Definition well_formed_chunk (c : str * str) : Prop :=
  fst c <> [] /\ no_nl (fst c) /\
  exists body,
    snd c = join_nl ((file_marker ++ fst c) :: body) /\
    Forall no_nl body /\ Forall unmarked body.

Definition sound (st : state) : Prop :=
  Forall well_formed_chunk (chunks st) /\
  match current_file st with
  | Some (c :: n) =>
      no_nl (c :: n) /\
      exists body, current_content st = (file_marker ++ c :: n) :: body /\
                   Forall no_nl body /\ Forall unmarked body
  | _ => True
  end.

Lemma sound_flush (st : state) : sound st -> Forall well_formed_chunk (flush st).
Proof.
  intros [Hc Hcur]. unfold flush.
  destruct (current_file st) as [[|c n]|]; try assumption.
  destruct Hcur as (Hn & body & E & Hl & Hb). rewrite E.
  apply Forall_app. split; [assumption|].
  constructor; [|constructor].
  split; [discriminate|]. split; [exact Hn|].
  exists body. repeat split; assumption || reflexivity.
Qed.

Lemma no_nl_skipn (n : nat) (l : str) : no_nl l -> no_nl (skipn n l).
Proof.
  unfold no_nl. intros H Hin. apply H.
  rewrite <- (firstn_skipn n l). apply in_or_app. now right.
Qed.

Lemma sound_step (st : state) (l : str) :
  no_nl l -> sound st -> sound (step st l).
Proof.
  intros Hl H. pose proof (sound_flush st H) as Hf. destruct H as [Hc Hcur].
  unfold step. destruct (startswith file_marker l) eqn:M.
  - split; [exact Hf|]. cbn [current_file current_content].
    pose proof (no_nl_skipn 6 l Hl) as Hs.
    destruct (skipn 6 l) as [|c n] eqn:E; [exact I|].
    split; [exact Hs|].
    exists []. split; [|split; constructor].
    f_equal. rewrite <- E. now apply (startswith_split file_marker l).
  - destruct (current_file st) as [[|c n]|] eqn:E;
      try (unfold sound; rewrite E; split; [assumption|exact I]).
    split; [assumption|]. cbn [current_file current_content].
    destruct Hcur as (Hn & body & Eb & Hb1 & Hb2). split; [exact Hn|].
    exists (body ++ [l]).
    split; [now rewrite Eb|].
    split; apply Forall_app; split; try assumption; now constructor.
Qed.

Lemma sound_fold (ls : list str) (st : state) :
  Forall no_nl ls -> sound st -> sound (fold_left step ls st).
Proof.
  revert st. induction ls as [|l ls IH]; intros st Hls H; simpl; [assumption|].
  inversion Hls as [|? ? Hl Hrest]; subst.
  apply IH; [assumption|]. now apply sound_step.
Qed.

(** X2. Every chunk the Splitter returns has a non-empty name of one line,
    and the lines of its segment are the line [File: <name>] followed by
    lines none of which starts with [File: ]; the segment is these lines
    joined by line breaks. *)
Theorem split_chunks_well_formed (diff : str) (name segment : str) :
  In (name, segment) (_split_diff_into_files diff) ->
  name <> [] /\ ~ In nl name /\
  exists body,
    split_nl segment = (lit "File: " ++ name) :: body /\
    segment = join_nl ((lit "File: " ++ name) :: body) /\
    Forall (fun l => startswith (lit "File: ") l = false) body.
Proof.
  intros Hin.
  assert (S : sound (fold_left step (split_nl diff) init)).
  { apply sound_fold; [apply split_nl_no_nl|]. split; [constructor|exact I]. }
  apply sound_flush in S. rewrite Forall_forall in S.
  destruct (S _ Hin) as (Hne & Hn & body & E & Hl & Hb). cbn [fst snd] in *.
  split; [exact Hne|]. split; [exact Hn|].
  exists body. split; [|split; assumption].
  rewrite E. apply split_join_nl; [discriminate|].
  constructor; [|assumption].
  apply no_nl_app; [unfold no_nl; simpl; intuition discriminate|assumption].
Qed.

Lemma fold_step_preamble (ls : list str) :
  Forall unmarked ls -> fold_left step ls init = init.
Proof.
  induction 1 as [|l ls Hl _ IH]; simpl; [reflexivity|].
  unfold step at 2. unfold unmarked in Hl. rewrite Hl.
  cbn [current_file init]. exact IH.
Qed.

(** X3. Text before the first marker line is discarded: when no line of
    [pre] starts with [File: ], splitting [pre] gives no chunk, and
    splitting [pre], a line break and [rest] gives the chunks of [rest]. *)
Theorem split_discards_preamble (pre : str) :
  Forall (fun l => startswith (lit "File: ") l = false) (split_nl pre) ->
  _split_diff_into_files pre = [] /\
  forall rest,
    _split_diff_into_files (pre ++ nl :: rest) = _split_diff_into_files rest.
Proof.
  intros H. unfold _split_diff_into_files. split.
  - now rewrite (fold_step_preamble _ H).
  - intros rest. rewrite split_nl_app, fold_left_app.
    now rewrite (fold_step_preamble _ H).
Qed.

End SplitterInvariants.

Lemma split_chunks_well_formed_witness :
  lit "a.py" <> [] /\ ~ In nl (lit "a.py") /\
  exists body,
    split_nl (chunk_text file_a (lit "+x")) =
      (lit "File: " ++ lit "a.py") :: body /\
    chunk_text file_a (lit "+x") =
      join_nl ((lit "File: " ++ lit "a.py") :: body) /\
    Forall (fun l => startswith (lit "File: ") l = false) body.
Proof.
  apply (split_chunks_well_formed (Collector.get_pr_diff [file_a; file_b])).
  vm_compute. left. reflexivity.
Defined.

Lemma split_discards_preamble_witness :
  Splitter._split_diff_into_files (lit "diff --git a/x b/x") = [] /\
  forall rest,
    Splitter._split_diff_into_files (lit "diff --git a/x b/x" ++ nl :: rest) =
    Splitter._split_diff_into_files rest.
Proof.
  apply (split_discards_preamble (lit "diff --git a/x b/x")).
  repeat constructor.
Defined.

Section SplitterRoundTrip.
Import Collector Splitter.

(** Files with their patch text. *)
Definition patched := (ChangedFile * str)%type.

Definition plain (fp : patched) : Prop := plain_file (fst fp) (snd fp).

(** The blob of plain files. *)
Fixpoint plain_blob (fps : list patched) : str :=
  match fps with
  | [] => []
  | fp :: rest => chunk_text (fst fp) (snd fp) ++ nl :: plain_blob rest
  end.

(** The chunks of the blob of plain files: the last one keeps the final
    line break of the blob. *)
Fixpoint segments (fps : list patched) : list (str * str) :=
  match fps with
  | [] => []
  | [fp] => [(filename (fst fp), chunk_text (fst fp) (snd fp) ++ [nl])]
  | fp :: rest => (filename (fst fp), chunk_text (fst fp) (snd fp)) :: segments rest
  end.

Lemma run_plain (fps : list patched) (st : Collector.state) :
  Forall plain fps ->
  diff_content (fold_left Collector.step (map fst fps) st) =
  diff_content st ++ plain_blob fps.
Proof.
  revert st. induction fps as [|fp fps IH]; intros st H;
    cbn [map fold_left plain_blob].
  - now rewrite app_nil_r.
  - inversion H as [|? ? Hfp Hrest]; subst.
    rewrite IH by assumption. rewrite (step_plain st Hfp).
    rewrite full_text_chunk_text, <- !app_assoc. reflexivity.
Qed.

Lemma get_pr_diff_plain (fps : list patched) :
  Forall plain fps -> get_pr_diff (map fst fps) = plain_blob fps.
Proof.
  intros H. unfold get_pr_diff, run. now rewrite run_plain.
Qed.

Lemma fold_plain_blob (fps : list patched) (st : Splitter.state) :
  Forall plain fps -> fps <> [] ->
  flush (fold_left Splitter.step (split_nl (plain_blob fps)) st) =
  flush st ++ segments fps.
Proof.
  revert st. induction fps as [|fp fps IH]; intros st H Hne; [contradiction|].
  inversion H as [|? ? Hfp Hrest]; subst. clear Hne.
  pose proof (plain_name Hfp) as Hname.
  pose proof (plain_name_line Hfp) as Hnl.
  pose proof (plain_status_line Hfp) as Hsl.
  assert (Hbody : Forall (fun l => startswith file_marker l = false)
                         (body_lines (fst fp) (snd fp) ++ [[]])).
  { apply Forall_app. split.
    - apply body_lines_unmarked, (plain_patch_lines Hfp).
    - now repeat constructor. }
  cbn [plain_blob].
  rewrite (@split_nl_chunk_text (fst fp) (snd fp) (nl :: plain_blob fps) Hnl Hsl).
  change (split_nl (nl :: plain_blob fps))
    with ([[]] ++ split_nl (plain_blob fps)).
  rewrite app_assoc.
  rewrite (@fold_chunk st (filename (fst fp)) _ _ Hname Hbody).
  destruct fps as [|fp2 fps].
  - cbn [plain_blob split_nl fold_left segments].
    pose proof (@join_lines_chunk_text (fst fp) (snd fp) [nl] Hnl Hsl) as J.
    change (split_nl [nl]) with [@nil ascii; []] in J.
    destruct (filename (fst fp)) as [|c n] eqn:E; [contradiction|].
    unfold Splitter.step. cbn [startswith file_marker lit list_ascii_of_string
      current_file current_content chunks].
    unfold flush at 1. cbn [current_file current_content chunks].
    cbn [app]. f_equal. f_equal. f_equal.
    rewrite <- app_assoc. exact J.
  - rewrite IH by (assumption || discriminate).
    pose proof (@join_lines_chunk_text (fst fp) (snd fp) [] Hnl Hsl) as J.
    change (split_nl []) with [@nil ascii] in J. rewrite app_nil_r in J.
    destruct (filename (fst fp)) as [|c n] eqn:E; [contradiction|].
    unfold flush at 1. cbn [current_file current_content chunks].
    rewrite <- app_assoc. f_equal.
    change (segments (fp :: fp2 :: fps))
      with ((filename (fst fp), chunk_text (fst fp) (snd fp)) :: segments (fp2 :: fps)).
    rewrite E. cbn [app]. f_equal. f_equal. exact J.
Qed.

Lemma segments_names (fps : list patched) :
  map fst (segments fps) = map (fun fp => filename (fst fp)) fps.
Proof.
  induction fps as [|fp [|fp2 fps] IH]; try reflexivity.
  change (segments (fp :: fp2 :: fps))
    with ((filename (fst fp), chunk_text (fst fp) (snd fp)) :: segments (fp2 :: fps)).
  cbn [map fst]. f_equal. exact IH.
Qed.

Lemma segments_join (fps : list patched) :
  join_nl (map snd (segments fps)) = plain_blob fps.
Proof.
  induction fps as [|fp [|fp2 fps] IH]; try reflexivity.
  change (segments (fp :: fp2 :: fps))
    with ((filename (fst fp), chunk_text (fst fp) (snd fp)) :: segments (fp2 :: fps)).
  cbn [map snd]. change (plain_blob (fp :: fp2 :: fps))
    with (chunk_text (fst fp) (snd fp) ++ nl :: plain_blob (fp2 :: fps)).
  rewrite <- IH.
  destruct (map snd (segments (fp2 :: fps))) eqn:E; [|reflexivity].
  destruct fps; discriminate E.
Qed.

(** X4. Splitting inverts the Collector on any number of plain files (patch
    text present, no binary suffix, not truncated, names and status single
    lines, no patch line starting with [File: ]): the chunks are named after
    the files, in order, and their segments joined by line breaks are the
    blob. *)
Theorem split_inverts_collector (fps : list (Collector.ChangedFile * str)) :
  Forall (fun fp => plain_file (fst fp) (snd fp)) fps ->
  let blob := get_pr_diff (map fst fps) in
  map fst (_split_diff_into_files blob) =
    map (fun fp => filename (fst fp)) fps /\
  join_nl (map snd (_split_diff_into_files blob)) = blob.
Proof.
  intros H blob. subst blob. rewrite (get_pr_diff_plain fps H).
  destruct fps as [|fp fps].
  - split; reflexivity.
  - unfold _split_diff_into_files.
    rewrite (fold_plain_blob (fp :: fps) Splitter.init H) by discriminate.
    change (flush Splitter.init) with (@nil (str * str)). cbn [app].
    split; [apply segments_names | apply segments_join].
Qed.

End SplitterRoundTrip.

Lemma split_inverts_collector_witness :
  let blob := Collector.get_pr_diff [file_a; file_b; file_a] in
  map fst (Splitter._split_diff_into_files blob) =
    [lit "a.py"; lit "b.py"; lit "a.py"] /\
  join_nl (map snd (Splitter._split_diff_into_files blob)) = blob.
Proof.
  refine (split_inverts_collector
            [(file_a, lit "+x"); (file_b, lit "+y"); (file_a, lit "+x")] _).
  apply Forall_cons; [exact plain_file_a|].
  apply Forall_cons; [exact plain_file_b|].
  apply Forall_cons; [exact plain_file_a|].
  apply Forall_nil.
Defined.

Section CollectorMore.
Import Collector.

(** The files that enter the counts: patch text and no binary suffix. *)
Definition counted (f : ChangedFile) : bool :=
  match patch_text f with
  | Some _ => negb (endswith_any binary_suffixes (filename f))
  | None => false
  end.

(** What one file adds to the blob. *)
Definition contribution (f : ChangedFile) : str :=
  diff_content (step init f).

Lemma collector_step_adds (st : state) (f : ChangedFile) :
  step st f =
  {| diff_content := diff_content st ++ contribution f;
     total_files := total_files st + (if counted f then 1 else 0);
     total_changes :=
       total_changes st + (if counted f then additions f + deletions f else 0) |}.
Proof.
  unfold contribution, counted, step.
  destruct (patch_text f) as [p|].
  - destruct (endswith_any binary_suffixes (filename f)); simpl;
      rewrite ?N.add_0_r; reflexivity.
  - simpl. rewrite app_nil_r, !N.add_0_r. now destruct st.
Qed.

Lemma collector_fold_adds (files : list ChangedFile) (st : state) :
  fold_left step files st =
  {| diff_content := diff_content st ++ List.concat (map contribution files);
     total_files :=
       total_files st + N.of_nat (List.length (filter counted files));
     total_changes :=
       total_changes st +
       fold_right N.add 0%N
         (map (fun f => (additions f + deletions f)%N) (filter counted files)) |}.
Proof.
  revert st. induction files as [|f files IH]; intros st.
  - simpl. rewrite app_nil_r, !N.add_0_r. now destruct st.
  - cbn [fold_left]. rewrite IH, collector_step_adds.
    cbn [diff_content total_files total_changes map List.concat filter].
    rewrite <- app_assoc.
    destruct (counted f); cbn [List.length map fold_right]; f_equal; lia.
Qed.

(** X6. The two numbers [get_pr_diff] reports are the number of files
    with patch text and no binary suffix, and the sum of their additions
    and deletions; skipped and patch-less files count for nothing. *)
Theorem collector_counts (files : list ChangedFile) :
  total_files (run files) = N.of_nat (List.length (filter counted files)) /\
  total_changes (run files) =
    fold_right N.add 0%N
      (map (fun f => (additions f + deletions f)%N) (filter counted files)).
Proof.
  unfold run. rewrite collector_fold_adds. split; reflexivity.
Qed.

(** X8. The blob of a listing is the blob of its first part followed by
    the blob of the rest, and the counts add up: no file influences what
    another contributes. *)
Theorem collector_composes (first rest : list ChangedFile) :
  get_pr_diff (first ++ rest) = get_pr_diff first ++ get_pr_diff rest /\
  total_files (run (first ++ rest)) =
    (total_files (run first) + total_files (run rest))%N /\
  total_changes (run (first ++ rest)) =
    (total_changes (run first) + total_changes (run rest))%N.
Proof.
  unfold get_pr_diff, run. rewrite !collector_fold_adds.
  cbn [diff_content total_files total_changes init app].
  rewrite map_app, concat_app, filter_app, length_app, map_app.
  repeat split; try lia.
  rewrite !N.add_0_l.
  induction (map (fun f => (additions f + deletions f)%N) (filter counted first))
    as [|x xs IH]; simpl; lia.
Qed.

(** X5. A file with patch text whose name ends in one of the binary
    suffixes adds exactly one line to the blob, [File: <name> (binary
    file - skipped)], whatever its patch and its change counts are, and
    does not enter the counts. *)
Theorem collector_skips_binary
  (files : list ChangedFile) (f : ChangedFile) (p stem ext : str) :
  patch f = Some p -> p <> [] ->
  filename f = stem ++ ext -> In ext binary_suffixes ->
  get_pr_diff (files ++ [f]) =
    get_pr_diff files ++
    lit "File: " ++ filename f ++ lit " (binary file - skipped)" ++ [nl] /\
  total_files (run (files ++ [f])) = total_files (run files) /\
  total_changes (run (files ++ [f])) = total_changes (run files).
Proof.
  intros Hp Hne Hname Hext.
  assert (B : endswith_any binary_suffixes (filename f) = true).
  { unfold endswith_any. apply existsb_exists. exists ext.
    split; [assumption|]. rewrite Hname. apply endswith_app. }
  assert (S : step (run files) f =
              {| diff_content := diff_content (run files) ++ skipped_text f;
                 total_files := total_files (run files);
                 total_changes := total_changes (run files) |}).
  { unfold step. now rewrite (patch_text_some f Hp Hne), B. }
  unfold get_pr_diff. rewrite !run_snoc, S. repeat split.
Qed.

(** The contribution of a file is empty or starts with the marker. *)
Lemma contribution_marker (f : ChangedFile) :
  (patch_text f = None /\ contribution f = []) \/
  (patch_text f <> None /\ exists rest, contribution f = lit "File: " ++ rest).
Proof.
  unfold contribution, step.
  destruct (patch_text f) as [p|]; [right|left; split; reflexivity].
  split; [discriminate|].
  destruct (endswith_any binary_suffixes (filename f)).
  - eexists. reflexivity.
  - destruct (1000 <? additions f + deletions f)%N; eexists; reflexivity.
Qed.

Lemma blob_empty_or_marked (files : list ChangedFile) :
  (Forall (fun f => patch_text f = None) files /\ get_pr_diff files = []) \/
  (Exists (fun f => patch_text f <> None) files /\
   exists rest, get_pr_diff files = lit "File: " ++ rest).
Proof.
  unfold get_pr_diff, run. rewrite collector_fold_adds.
  cbn [diff_content init app].
  induction files as [|f files IH].
  - left. split; [constructor|reflexivity].
  - cbn [map List.concat].
    destruct (contribution_marker f) as [[N E] | [N (r & E)]]; rewrite E.
    + destruct IH as [[A B] | [A B]].
      * left. split; [now constructor|assumption].
      * right. split; [now apply Exists_cons_tl|assumption].
    + right. split; [now apply Exists_cons_hd|].
      eexists. rewrite <- app_assoc. reflexivity.
Qed.

(** X9. What is kept of the patch of a truncated file is a prefix of the
    patch with at most 500 lines, and the whole patch when it has at most
    500 lines (the truncation marker follows all the same). *)
Theorem truncation_keeps_prefix (f : ChangedFile) (p : str) :
  let kept := join_nl (firstn 500 (split_nl p)) in
  truncated_text f p =
    lit "File: " ++ filename f ++
    lit " (large file - showing first 500 lines)" ++ [nl] ++ header_tail f ++
    kept ++ [nl] ++ lit "... (truncated due to size)" ++ [nl; nl] /\
  (exists rest, p = kept ++ rest) /\
  (List.length (split_nl kept) <= 500)%nat /\
  ((List.length (split_nl p) <= 500)%nat -> kept = p).
Proof.
  intros kept. subst kept. split; [reflexivity|]. split; [|split].
  - destruct (join_nl_firstn_prefix 500 (split_nl p)) as (rest & E).
    exists rest. now rewrite <- E, join_split_nl.
  - rewrite split_join_nl.
    + apply firstn_le_length.
    + pose proof (split_nl_not_nil p).
      destruct (split_nl p); [contradiction|discriminate].
    + pose proof (split_nl_no_nl p) as H.
      rewrite Forall_forall in *. intros x Hx. apply H.
      rewrite <- (firstn_skipn 500 (split_nl p)). apply in_or_app. now left.
  - intros H. rewrite firstn_all2 by assumption. apply join_split_nl.
Qed.

End CollectorMore.

Section Guard.
Import Collector PyText Requester.

Lemma lstrip_nonspace (c : ascii) (s : str) :
  Estimator.isspace c = false -> lstrip (c :: s) = c :: s.
Proof. intros H. simpl. now rewrite H. Qed.

Lemma rstrip_keeps_head (c : ascii) (s : str) :
  Estimator.isspace c = false -> exists t, rstrip (c :: s) = c :: t.
Proof.
  intros H. unfold rstrip. simpl rev.
  assert (G : forall r, exists t, rev (lstrip (r ++ [c])) = c :: t).
  { induction r as [|x r IH]; simpl.
    - rewrite H. now exists [].
    - destruct (Estimator.isspace x); [exact IH|].
      simpl. rewrite rev_app_distr. simpl. eexists. reflexivity. }
  apply G.
Qed.

(** X7. [main] skips the analysis exactly when no changed file has patch
    text: then the blob is empty; otherwise the blob starts with [File: ]
    and is sent on, also when every file with patch text is a skipped
    binary one. *)
Theorem analysis_skipped_iff_no_patch (files : list ChangedFile) :
  returns_early (get_pr_diff files) = true <->
  Forall (fun f => patch f = None \/ patch f = Some []) files.
Proof.
  assert (P : forall f, patch_text f = None <->
                        (patch f = None \/ patch f = Some [])).
  { intros f. unfold patch_text. destruct (patch f) as [[|c p]|]; simpl.
    - split; auto.
    - split; [discriminate|]. intros [H|H]; discriminate H.
    - split; auto. }
  unfold returns_early.
  destruct (blob_empty_or_marked files) as [[A E] | [A (rest & E)]]; rewrite E.
  - split; [intros _|reflexivity].
    rewrite Forall_forall in *. intros f Hf. apply P. now apply A.
  - split.
    + change (lit "File: " ++ rest) with ("F"%char :: lit "ile: " ++ rest).
      unfold strip. rewrite lstrip_nonspace by reflexivity.
      destruct (rstrip_keeps_head "F" (lit "ile: " ++ rest) eq_refl) as (t & Ht).
      rewrite Ht. discriminate.
    + intros H. exfalso. rewrite Exists_exists in A.
      destruct A as (f & Hf & Hn). rewrite Forall_forall in H.
      apply Hn, P, H, Hf.
Qed.

End Guard.

Section AnnotatedChunks.
Import Collector Splitter.

(** X10. In chunked mode a skipped binary file is a chunk of its own: the
    blob of such a file alone splits into one chunk, named with the skip
    note, whose segment is the placeholder line. *)
Theorem binary_placeholder_chunk (f : ChangedFile) (p stem ext : str) :
  patch f = Some p -> p <> [] ->
  filename f = stem ++ ext -> In ext binary_suffixes ->
  no_nl (filename f) ->
  _split_diff_into_files (get_pr_diff [f]) =
  [(filename f ++ lit " (binary file - skipped)",
    lit "File: " ++ filename f ++ lit " (binary file - skipped)" ++ [nl])].
Proof.
  intros Hp Hne Hname Hext Hnl.
  assert (B : endswith_any binary_suffixes (filename f) = true).
  { unfold endswith_any. apply existsb_exists. exists ext.
    split; [assumption|]. rewrite Hname. apply endswith_app. }
  assert (E : get_pr_diff [f] =
              (lit "File: " ++ filename f ++ lit " (binary file - skipped)")
              ++ nl :: []).
  { unfold get_pr_diff, run. cbn [fold_left]. unfold Collector.step.
    rewrite (patch_text_some f Hp Hne), B.
    cbn [diff_content Collector.init app]. unfold skipped_text.
    now rewrite <- !app_assoc. }
  rewrite E. unfold _split_diff_into_files.
  rewrite split_nl_cons_line; cycle 1.
  { apply no_nl_app; [unfold no_nl; simpl; intuition discriminate|].
    apply no_nl_app; [assumption|unfold no_nl; simpl; intuition discriminate]. }
  remember (filename f ++ lit " (binary file - skipped)") as name eqn:N.
  assert (Hn : name <> []).
  { intros ->. apply (f_equal (@List.length ascii)) in N.
    rewrite length_app in N. simpl in N. lia. }
  pose proof (@fold_chunk Splitter.init name [[]] [] Hn
                ltac:(now repeat constructor)) as FC.
  etransitivity; [apply (f_equal flush); exact FC|]. clear FC.
  destruct name as [|c n]; [contradiction|].
  cbn [fold_left flush current_file current_content chunks Splitter.init app
       join_nl].
  rewrite N, <- !app_assoc. reflexivity.
Qed.

End AnnotatedChunks.

Definition logo_file : Collector.ChangedFile :=
  {| Collector.filename := lit "logo.png"; Collector.status := lit "added";
     Collector.additions := 0; Collector.deletions := 0;
     Collector.patch := Some (lit "Binary files differ") |}.

Lemma collector_skips_binary_witness :
  Collector.get_pr_diff ([] ++ [logo_file]) =
    Collector.get_pr_diff [] ++
    lit "File: " ++ lit "logo.png" ++ lit " (binary file - skipped)" ++ [nl] /\
  Collector.total_files (Collector.run ([] ++ [logo_file])) =
    Collector.total_files (Collector.run []) /\
  Collector.total_changes (Collector.run ([] ++ [logo_file])) =
    Collector.total_changes (Collector.run []).
Proof.
  refine (collector_skips_binary [] logo_file (lit "Binary files differ")
            (lit "logo") (lit ".png") _ _ _ _).
  - reflexivity.
  - discriminate.
  - reflexivity.
  - left. reflexivity.
Defined.

Lemma binary_placeholder_chunk_witness :
  Splitter._split_diff_into_files (Collector.get_pr_diff [logo_file]) =
  [(lit "logo.png (binary file - skipped)",
    lit "File: logo.png (binary file - skipped)" ++ [nl])].
Proof.
  refine (binary_placeholder_chunk logo_file (lit "Binary files differ")
            (lit "logo") (lit ".png") _ _ _ _ _).
  - reflexivity.
  - discriminate.
  - reflexivity.
  - left. reflexivity.
  - unfold no_nl. simpl. intuition discriminate.
Defined.

Section Modes.
Import Estimator Reconciler Merger Requester.

Lemma split_ws_from_half (s cur : str) :
  (2 * List.length (split_ws_from cur s) <=
   List.length s + (if truthy cur then 2 else 1))%nat.
Proof.
  revert cur. induction s as [|c s IH]; intros cur; cbn [split_ws_from].
  - destruct (truthy cur); simpl; lia.
  - destruct (isspace c).
    + rewrite length_app. specialize (IH []). cbn [truthy] in IH.
      destruct (truthy cur); simpl in *; lia.
    + specialize (IH (cur ++ [c])). rewrite truthy_snoc in IH.
      destruct (truthy cur); simpl in *; lia.
Qed.

(** Words are separated: there are at most half as many as characters,
    rounded up. *)
Lemma split_ws_half (s : str) :
  (2 * List.length (split_ws s) <= List.length s + 1)%nat.
Proof. exact (split_ws_from_half s []). Qed.

Variable json_loads : str -> option pyval.
Variable chat : nat -> str -> str -> str -> api_reply.
Variable float_floordiv : list pyval -> py_result pyval.
Variable set_order : list pyval -> list pyval.
Variable console_print : str -> option str.
Variable error_text : str -> str.
Variable chunk_error_text : nat -> str -> str -> str -> str.
Variable complete : str -> str -> str -> str -> completion.

Local Open Scope Z_scope.

Lemma short_estimate (diff_content : str) :
  Z.of_nat (List.length diff_content) <= 5333 ->
  exists n, _estimate_tokens diff_content = Ok n /\ 0 <= n <= 4000.
Proof.
  intros Hlen.
  assert (H63 : Z.of_nat (List.length diff_content) < 2 ^ 63) by lia.
  destruct (estimate_value diff_content H63) as (_ & _ & _ & E).
  destruct (counts_in_range diff_content H63) as [Hw Hc].
  pose proof (split_ws_half diff_content) as Hhalf.
  set (w := Z.of_nat (List.length (split_ws diff_content))) in *.
  set (c := Z.of_nat (List.length diff_content)) in *.
  eexists. split; [exact E|]. split.
  - apply Z.div_pos; [apply value_nonneg; lia|].
    apply pow2_pos. unfold frac_bits. lia.
  - replace 4000 with (value 2667 5333 / 2 ^ frac_bits)
      by (vm_compute; reflexivity).
    apply Z.div_le_mono; [apply pow2_pos; unfold frac_bits; lia|].
    apply value_mono; lia.
Qed.

Lemma short_is_single (diff_content pr_title pr_description : str) :
  Z.of_nat (List.length diff_content) <= 5333 ->
  analyze_code_with_openai json_loads chat float_floordiv set_order
    console_print error_text chunk_error_text complete
    diff_content pr_title pr_description =
  single_request json_loads console_print error_text complete (lit "gpt-4")
    diff_content pr_title pr_description.
Proof.
  intros Hlen. destruct (short_estimate diff_content Hlen) as (n & E & B).
  unfold analyze_code_with_openai. rewrite E.
  replace (6000 <? n) with false by (symmetry; apply Z.ltb_ge; lia).
  unfold model_for.
  replace (4000 <? n) with false by (symmetry; apply Z.ltb_ge; lia).
  reflexivity.
Qed.

(** X12. A diff of at most 5333 characters is estimated at no more than
    4000 tokens, whatever it contains: it is sent whole, in one request, to
    the model [gpt-4], and the function ends as that request does. *)
Theorem short_diff_single_request (diff_content pr_title pr_description : str) :
  Z.of_nat (List.length diff_content) <= 5333 ->
  (exists n, _estimate_tokens diff_content = Ok n /\ 0 <= n <= 4000) /\
  analyze_code_with_openai json_loads chat float_floordiv set_order
    console_print error_text chunk_error_text complete
    diff_content pr_title pr_description =
  single_request json_loads console_print error_text complete (lit "gpt-4")
    diff_content pr_title pr_description.
Proof.
  intros Hlen. split.
  - now apply short_estimate.
  - now apply short_is_single.
Qed.

(** X13. A diff of at least 60010 characters is estimated above 6000
    tokens, whatever it contains: it is analysed in chunks, and no request
    for the whole diff is made. *)
Theorem long_diff_chunked (diff_content pr_title pr_description : str) :
  60010 <= Z.of_nat (List.length diff_content) < 2 ^ 63 ->
  (exists n, _estimate_tokens diff_content = Ok n /\ 6000 < n) /\
  analyze_code_with_openai json_loads chat float_floordiv set_order
    console_print error_text chunk_error_text complete
    diff_content pr_title pr_description =
  chunked json_loads chat float_floordiv set_order
    console_print error_text chunk_error_text
    diff_content pr_title pr_description.
Proof.
  intros [Hlo H63].
  destruct (estimate_value diff_content H63) as (_ & _ & _ & E).
  destruct (counts_in_range diff_content H63) as [Hw Hc].
  set (w := Z.of_nat (List.length (split_ws diff_content))) in *.
  set (c := Z.of_nat (List.length diff_content)) in *.
  assert (B : 6001 <= value w c / 2 ^ frac_bits).
  { replace 6001 with (value 0 60010 / 2 ^ frac_bits)
      by (vm_compute; reflexivity).
    apply Z.div_le_mono; [apply pow2_pos; unfold frac_bits; lia|].
    apply value_mono; lia. }
  split; [eexists; split; [exact E|lia]|].
  unfold analyze_code_with_openai. rewrite E.
  replace (6000 <? value w c / 2 ^ frac_bits) with true
    by (symmetry; apply Z.ltb_lt; lia).
  reflexivity.
Qed.

(** X14. A completion whose content is the empty string is treated in two
    ways. In single-shot mode (here: a diff of at most 5333 characters) it
    is reconciled like any other text: no JSON is found in it, and once the
    console has printed the two lines of the handler the result is the
    fallback with score 0. In chunked mode every chunk with such a
    completion is passed over: it changes nothing and prints nothing. *)
Theorem empty_completion_single_request :
  (forall diff_content pr_title pr_description,
     Z.of_nat (List.length diff_content) <= 5333 ->
     complete (lit "gpt-4") diff_content pr_title pr_description =
       Message (Some []) ->
     console_print
       (lit "[yellow]Warning: Could not parse OpenAI response: No JSON found in response[/yellow]")
       = None ->
     console_print (lit "[yellow]Raw response: [/yellow]") = None ->
     analyze_code_with_openai json_loads chat float_floordiv set_order
       console_print error_text chunk_error_text complete
       diff_content pr_title pr_description =
     Returns {| issues := [];
                summary := pstr "Error parsing OpenAI response";
                overall_score := PInt 0;
                recommendations := PList [pstr "Review the code manually"] |}) /\
  (forall pr_title st i filename chunk_content,
     chat i filename chunk_content pr_title = Content (Some []) ->
     Merger.step json_loads chat console_print error_text chunk_error_text
       pr_title st (i, (filename, chunk_content)) = Ok st).
Proof.
  split.
  - intros diff_content pr_title pr_description Hlen Hc Hw Hr.
    rewrite short_is_single by assumption.
    unfold single_request. rewrite Hc.
    unfold _parse_openai_response, print_markup.
    cbn [parse_body search_braces from_first].
    change (warning_line error_text [])
      with (lit "[yellow]Warning: Could not parse OpenAI response: No JSON found in response[/yellow]").
    change (raw_line []) with (lit "[yellow]Raw response: [/yellow]").
    rewrite Hw, Hr. reflexivity.
  - intros pr_title st i filename chunk_content Hchat.
    unfold Merger.step. now rewrite Hchat.
Qed.

End Modes.

Section ReconcilerMore.
Import Reconciler.

Variable json_loads : str -> option pyval.
Variable console_print : str -> option str.
Variable error_text : str -> str.

Definition is_dict (v : pyval) : Prop :=
  match v with PDict _ => True | _ => False end.

Lemma issues_of_non_dict (items : list pyval) :
  Exists (fun v => ~ is_dict v) items ->
  exists e, issues_of items = Raise e.
Proof.
  induction items as [|x items IH]; intros H.
  - inversion H.
  - cbn [issues_of].
    destruct x; try (eexists; reflexivity).
    (* the first element is a dict *)
    assert (Hrest : Exists (fun v => ~ is_dict v) items).
    { inversion H as [? ? Hx|? ? Hr]; subst; [|assumption].
      exfalso. apply Hx. exact I. }
    destruct (IH Hrest) as (e & E). rewrite E.
    cbn [issue_of py_get bind]. eexists. reflexivity.
Qed.

(** X15. One malformed part discards the whole reply: when the decoded
    value is not an object, or its [issues] are [null], a boolean or a
    number, or a list with an element that is not an object, the body of
    the [try] raises, whatever summary, score and recommendations the reply
    carries. The function then returns the fallback when the console prints
    the two lines of the handler, and it returns nothing else. *)
Theorem malformed_reply_gives_fallback (a b c : str) (data : pyval) :
  ~ In open_brace a -> ~ In close_brace c ->
  json_loads (open_brace :: b ++ [close_brace]) = Some data ->
  (~ is_dict data \/
   exists d, data = PDict d /\
     (dict_get d (lit "issues") = Some PNone \/
      (exists x, dict_get d (lit "issues") = Some (PBool x)) \/
      (exists z, dict_get d (lit "issues") = Some (PInt z)) \/
      (exists x, dict_get d (lit "issues") = Some (PFloat x)) \/
      exists items, dict_get d (lit "issues") = Some (PList items) /\
                    Exists (fun v => ~ is_dict v) items)) ->
  let response := a ++ open_brace :: b ++ close_brace :: c in
  let fixed :=
    {| issues := [];
       summary := pstr "Error parsing OpenAI response";
       overall_score := PInt 0;
       recommendations := PList [pstr "Review the code manually"] |} in
  (exists e, parse_body json_loads response = Raise e) /\
  (console_print (warning_line error_text response) = None ->
   console_print (raw_line response) = None ->
   _parse_openai_response json_loads console_print error_text response =
   Ok fixed) /\
  (forall r,
     _parse_openai_response json_loads console_print error_text response =
     Ok r -> r = fixed).
Proof.
  intros Ha Hc Hj Hbad response fixed.
  assert (R : exists e, parse_body json_loads response = Raise e).
  { unfold parse_body, response.
    rewrite (@search_braces_spec a b c Ha Hc), Hj.
    destruct Hbad as [Hnd | (d & -> & Hi)].
    - destruct data; try (eexists; reflexivity). exfalso. apply Hnd. exact I.
    - cbn [py_get bind].
      destruct Hi as [E | [(x & E) | [(z & E) | [(x & E) | (items & E & Hex)]]]];
        rewrite E; try (eexists; reflexivity).
      cbn [py_iter bind].
      destruct (issues_of_non_dict items Hex) as (e & Ei). rewrite Ei.
      eexists. reflexivity. }
  split; [exact R|].
  destruct R as (e & R). split.
  - intros Hw Hr. apply (@parse_of_failure _ _ _ _ e R). now split.
  - intros r. apply (@parse_returns_fallback _ _ _ _ e r R).
Qed.

(** X16. Text around the JSON does not matter to the [try]: with no opening
    brace before and no closing brace after, its body ends as it does on
    the text from the first opening to the last closing brace alone, with
    the same result or the same exception. So a reply whose JSON is
    reconciled to a result gives that result with the prose as without. *)
Theorem prose_around_json_ignored (a b c : str) :
  ~ In open_brace a -> ~ In close_brace c ->
  parse_body json_loads (a ++ open_brace :: b ++ close_brace :: c) =
    parse_body json_loads (open_brace :: b ++ [close_brace]) /\
  forall r,
    parse_body json_loads (open_brace :: b ++ [close_brace]) = Ok r ->
    _parse_openai_response json_loads console_print error_text
      (a ++ open_brace :: b ++ close_brace :: c) = Ok r /\
    _parse_openai_response json_loads console_print error_text
      (open_brace :: b ++ [close_brace]) = Ok r.
Proof.
  intros Ha Hc.
  assert (R : parse_body json_loads (a ++ open_brace :: b ++ close_brace :: c) =
              parse_body json_loads (open_brace :: b ++ [close_brace])).
  { unfold parse_body.
    rewrite (@search_braces_spec a b c Ha Hc).
    pose proof (@search_braces_spec [] b [] (fun H => H) (fun H => H)) as E.
    cbn [app] in E. rewrite E. reflexivity. }
  split; [exact R|].
  intros r Hr. unfold _parse_openai_response. rewrite R, Hr. now split.
Qed.

End ReconcilerMore.

Definition bad_issue_json : str :=
  lit "{" ++ Sample.q "issues" ++ lit ": [1], " ++
  Sample.q "overall_score" ++ lit ": 95}".

Definition bad_issue_loads (j : str) : option pyval :=
  if str_eqb j bad_issue_json
  then Some (PDict [(lit "issues", PList [PInt 1]);
                    (lit "overall_score", PInt 95)])
  else None.

(** The wording of the interpreter for [(1).get]. *)
Definition bad_issue_text (response : str) : str :=
  lit "'int' object has no attribute 'get'".

Lemma malformed_reply_gives_fallback_witness :
  let response :=
    [] ++ open_brace :: removelast (tl bad_issue_json) ++ close_brace :: [] in
  let fixed :=
    Reconciler.Build_ReviewResult []
      (pstr "Error parsing OpenAI response") (PInt 0)
      (PList [pstr "Review the code manually"]) in
  (exists e, Reconciler.parse_body bad_issue_loads response = Raise e) /\
  Reconciler._parse_openai_response bad_issue_loads Sample.console_print
    bad_issue_text response = Ok fixed.
Proof.
  cbv zeta.
  destruct (malformed_reply_gives_fallback bad_issue_loads
              Sample.console_print bad_issue_text
              [] (removelast (tl bad_issue_json)) []
              (PDict [(lit "issues", PList [PInt 1]);
                      (lit "overall_score", PInt 95)]))
    as (Hraise & Hprinted & _).
  - intros [].
  - intros [].
  - reflexivity.
  - right. eexists. split; [reflexivity|].
    right. right. right. right. eexists. split; [reflexivity|].
    constructor. intros H. exact H.
  - split; [exact Hraise|]. apply Hprinted; reflexivity.
Defined.

Lemma prose_around_json_ignored_witness :
  Reconciler.parse_body Sample.json_loads
    (lit "Here is my review: " ++ open_brace ::
     removelast (tl Sample.review_json) ++ close_brace :: lit " Done.") =
  Reconciler.parse_body Sample.json_loads
    (open_brace :: removelast (tl Sample.review_json) ++ [close_brace]) /\
  exists r,
    Reconciler._parse_openai_response Sample.json_loads Sample.console_print
      Sample.error_text
      (lit "Here is my review: " ++ open_brace ::
       removelast (tl Sample.review_json) ++ close_brace :: lit " Done.") =
    Ok r /\
    Reconciler.overall_score r = PInt 80.
Proof.
  destruct (prose_around_json_ignored Sample.json_loads Sample.console_print
              Sample.error_text
              (lit "Here is my review: ") (removelast (tl Sample.review_json))
              (lit " Done.")) as (Hbody & Hresult).
  - simpl. unfold open_brace. intuition discriminate.
  - simpl. unfold close_brace. intuition discriminate.
  - split; [exact Hbody|].
    eexists. split; [apply Hresult; vm_compute; reflexivity | reflexivity].
Defined.

Section MergerMore.
Import Reconciler Merger.

Variable json_loads : str -> option pyval.
Variable chat : nat -> str -> str -> str -> api_reply.
Variable float_floordiv : list pyval -> py_result pyval.
Variable set_order : list pyval -> list pyval.
Variable console_print : str -> option str.
Variable error_text : str -> str.
Variable chunk_error_text : nat -> str -> str -> str -> str.

Lemma set_order_nil : set_semantics set_order -> set_order [] = [].
Proof.
  intros H. destruct (H [] (Forall_nil _)) as [_ Hin].
  destruct (set_order []) as [|x l]; [reflexivity|].
  exfalso. apply (Hin x). now left.
Qed.

(** X17. Chunked analysis of a text without any line starting with
    [File: ] makes no request at all and returns score 0, no issue, no
    recommendation and the summary "Analyzed 0 files with 0 total issues
    found". *)
Theorem chunked_analysis_without_files
  (diff_content pr_title pr_description : str) :
  set_semantics set_order ->
  Forall (fun l => startswith (lit "File: ") l = false) (split_nl diff_content) ->
  _analyze_large_diff json_loads chat float_floordiv set_order
    console_print error_text chunk_error_text
    diff_content pr_title pr_description =
  Ok {| issues := [];
        summary := pstr "Analyzed 0 files with 0 total issues found";
        overall_score := PInt 0;
        recommendations := PList [] |}.
Proof.
  intros Hset Hlines.
  assert (E : Splitter._split_diff_into_files diff_content = []).
  { unfold Splitter._split_diff_into_files.
    now rewrite (fold_step_preamble _ Hlines). }
  unfold _analyze_large_diff. rewrite E.
  cbn [analyze_chunks run_chunks List.length seq combine Merger.init scores
       all_recommendations all_issues merged_score bind].
  unfold unique_recommendations. cbn [forallb firstn bind].
  rewrite (set_order_nil Hset). reflexivity.
Qed.

Local Open Scope Z_scope.

Lemma total_bounds (lo hi : Z) (zs : list Z) :
  Forall (fun z => lo <= z <= hi) zs ->
  lo * Z.of_nat (List.length zs) <= total zs <= hi * Z.of_nat (List.length zs).
Proof.
  induction 1 as [|z zs Hz _ IH]; [simpl; lia|].
  cbn [total fold_right List.length]. fold (total zs).
  rewrite Nat2Z.inj_succ. lia.
Qed.

(** X18. Merging keeps scores in their range: when the loop over the
    chunks runs to its end and every chunk score is an integer between [lo]
    and [hi] (and 0 is in that range, for the case of no score), so is the
    merged score. *)
Theorem merged_score_in_range
  (diff_content pr_title pr_description : str) (zs : list Z) (lo hi : Z) :
  let chunks := numbered (Splitter._split_diff_into_files diff_content) in
  loop_completes json_loads chat console_print error_text chunk_error_text
    pr_title (Splitter._split_diff_into_files diff_content) ->
  flat_map (chunk_scores json_loads chat console_print error_text pr_title)
    chunks = map PInt zs ->
  forallb hashable
    (flat_map
       (chunk_recommendations json_loads chat console_print error_text pr_title)
       chunks) = true ->
  Forall (fun z => lo <= z <= hi) zs -> lo <= 0 <= hi ->
  exists r s,
    _analyze_large_diff json_loads chat float_floordiv set_order
      console_print error_text chunk_error_text
      diff_content pr_title pr_description = Ok r /\
    overall_score r = PInt s /\ lo <= s <= hi.
Proof.
  intros chunks [st Hrun] Hscores Hhash Hrange H0.
  unfold _analyze_large_diff. rewrite Hrun. cbn [bind].
  apply analyze_chunks_adds in Hrun. subst st.
  cbn [scores all_recommendations all_issues].
  fold chunks. rewrite Hscores, merged_score_of_ints.
  unfold unique_recommendations. rewrite Hhash. cbn [bind].
  do 2 eexists. split; [reflexivity|]. split; [reflexivity|].
  destruct zs as [|z zs]; [lia|].
  pose proof (total_bounds lo hi (z :: zs) Hrange) as [Hl Hh].
  set (n := Z.of_nat (List.length (z :: zs))) in *.
  assert (Hn : 0 < n) by (subst n; cbn [List.length]; lia).
  split.
  - apply Z.div_le_lower_bound; lia.
  - apply Z.div_le_upper_bound; lia.
Qed.

Lemma total_permutation (zs zs' : list Z) :
  Permutation zs zs' -> total zs = total zs'.
Proof.
  unfold total. induction 1; cbn [fold_right] in *; lia.
Qed.

(** X19. The merged score does not depend on the order in which the chunks
    were analysed: integer scores in another order merge to the same
    score. *)
Theorem merged_score_order_independent (zs zs' : list Z) :
  Permutation zs zs' ->
  merged_score float_floordiv (map PInt zs) =
  merged_score float_floordiv (map PInt zs').
Proof.
  intros H. rewrite !merged_score_of_ints.
  pose proof (total_permutation zs zs' H) as T.
  pose proof (Permutation_length H) as L.
  destruct zs as [|z zs]; destruct zs' as [|z' zs'];
    try discriminate L; [reflexivity|].
  now rewrite T, L.
Qed.

End MergerMore.

Lemma chunked_analysis_without_files_witness :
  Merger._analyze_large_diff Sample.json_loads
    (SampleRun.chat_of SampleRun.three_replies)
    SampleRun.no_floats SampleRun.set_order
    Sample.console_print Sample.error_text
    (SampleRun.error_text_of SampleRun.three_replies)
    (lit "diff --git a/x b/x") SampleRun.title SampleRun.body =
  Ok (Reconciler.Build_ReviewResult []
        (pstr "Analyzed 0 files with 0 total issues found") (PInt 0) (PList [])).
Proof.
  refine (chunked_analysis_without_files Sample.json_loads
            (SampleRun.chat_of SampleRun.three_replies)
            SampleRun.no_floats SampleRun.set_order
            Sample.console_print Sample.error_text
            (SampleRun.error_text_of SampleRun.three_replies)
            (lit "diff --git a/x b/x") SampleRun.title SampleRun.body
            SampleRun.set_order_semantics _).
  repeat constructor.
Defined.

Lemma merged_score_in_range_witness :
  exists r s,
    Merger._analyze_large_diff Sample.json_loads
      (SampleRun.chat_of SampleRun.three_replies)
      SampleRun.no_floats SampleRun.set_order
      Sample.console_print Sample.error_text
      (SampleRun.error_text_of SampleRun.three_replies)
      (SampleRun.diff_of 3) SampleRun.title SampleRun.body = Ok r /\
    Reconciler.overall_score r = PInt s /\ (0 <= s <= 100)%Z.
Proof.
  refine (merged_score_in_range Sample.json_loads
            (SampleRun.chat_of SampleRun.three_replies)
            SampleRun.no_floats SampleRun.set_order
            Sample.console_print Sample.error_text
            (SampleRun.error_text_of SampleRun.three_replies)
            (SampleRun.diff_of 3) SampleRun.title SampleRun.body
            [90; 70]%Z 0%Z 100%Z _ _ _ _ _).
  - eexists. vm_compute. reflexivity.
  - vm_compute. reflexivity.
  - vm_compute. reflexivity.
  - repeat constructor; discriminate.
  - split; discriminate.
Defined.

Lemma merged_score_order_independent_witness :
  Merger.merged_score SampleRun.no_floats (map PInt [90; 70; 85]%Z) =
  Merger.merged_score SampleRun.no_floats (map PInt [70; 85; 90]%Z).
Proof.
  apply (merged_score_order_independent SampleRun.no_floats
           [90; 70; 85]%Z [70; 85; 90]%Z).
  apply Permutation_cons_app with (l1 := [70; 85]%Z) (l2 := []).
  apply Permutation_refl.
Defined.

Section RemoteUrl.
Import PyText Describer.

(** [old] occurs in [s]. *)
Definition occurs (old s : str) : Prop := exists a b, s = a ++ old ++ b.

(** No suffix of [s] starts with [old]. *)
Fixpoint free_of (old s : str) : Prop :=
  match s with
  | [] => True
  | _ :: s' => startswith old s = false /\ free_of old s'
  end.

Lemma startswith_length (p s : str) :
  startswith p s = true -> (List.length p <= List.length s)%nat.
Proof.
  intros H. rewrite (startswith_split p s H), length_app. lia.
Qed.

Lemma startswith_incl (p s : str) : startswith p s = true -> incl p s.
Proof.
  intros H x Hx. rewrite (startswith_split p s H). apply in_or_app. now left.
Qed.

Lemma not_occurs_free (old s : str) : ~ occurs old s -> free_of old s.
Proof.
  induction s as [|c s IH]; intros H; [exact I|].
  split.
  - destruct (startswith old (c :: s)) eqn:E; [|reflexivity].
    exfalso. apply H. exists [], (skipn (List.length old) (c :: s)).
    now apply startswith_split.
  - apply IH. intros (a & b & ->). apply H. now exists (c :: a), b.
Qed.

Lemma missing_char_free (x : ascii) (old s : str) :
  In x old -> ~ In x s -> free_of old s.
Proof.
  intros Hx. induction s as [|c s IH]; intros H; [exact I|].
  split.
  - destruct (startswith old (c :: s)) eqn:E; [|reflexivity].
    exfalso. apply H. now apply (startswith_incl old).
  - apply IH. intros Hin. apply H. now right.
Qed.

Lemma replace_free (old new s : str) : free_of old s -> replace old new s = s.
Proof.
  unfold replace. induction s as [|c s IH]; intros H; [reflexivity|].
  destruct H as [H1 H2]. cbn [replace_from]. rewrite H1.
  f_equal. now apply IH.
Qed.

Lemma replace_from_skip (x s old new : str) :
  replace_from (List.length x) old new (x ++ s) = replace_from 0 old new s.
Proof. induction x as [|c x IH]; [reflexivity|exact IH]. Qed.

Lemma replace_head (old new s : str) :
  old <> [] -> replace old new (old ++ s) = new ++ replace old new s.
Proof.
  intros Hne. destruct old as [|c old]; [contradiction|].
  unfold replace. cbn [app replace_from].
  change (c :: old ++ s) with ((c :: old) ++ s).
  rewrite startswith_app.
  replace (List.length (c :: old) - 1) with (List.length old) by (simpl; lia).
  rewrite replace_from_skip. reflexivity.
Qed.

(** An occurrence of [.git] cannot start in the last three characters of
    a text that [.git] follows. *)
Lemma git_suffix_free (name : str) :
  ~ occurs (lit ".git") name ->
  replace (lit ".git") [] (name ++ lit ".git") = name.
Proof.
  induction name as [|c name IH]; intros H.
  - reflexivity.
  - unfold replace in *. cbn [app replace_from].
    replace (startswith (lit ".git") (c :: name ++ lit ".git")) with false.
    + f_equal. apply IH. intros (a & b & ->). apply H. now exists (c :: a), b.
    + symmetry.
      destruct (startswith (lit ".git") (c :: name ++ lit ".git")) eqn:E;
        [|reflexivity].
      exfalso. apply startswith_split in E.
      cbn [lit list_ascii_of_string List.length skipn app] in E.
      destruct name as [|y [|z [|w name]]]; cbn [app] in E;
        try discriminate E.
      injection E as -> -> -> ->.
      apply H. exists [], name. reflexivity.
Qed.

Lemma strip_line (c : ascii) (s : str) (z : ascii) :
  Estimator.isspace c = false -> Estimator.isspace z = false ->
  strip ((c :: s ++ [z]) ++ [nl]) = c :: s ++ [z].
Proof.
  intros Hc Hz. unfold strip.
  change ((c :: s ++ [z]) ++ [nl]) with (c :: (s ++ [z]) ++ [nl]).
  rewrite lstrip_nonspace by assumption.
  change (c :: (s ++ [z]) ++ [nl]) with (((c :: s) ++ [z]) ++ [nl]).
  unfold rstrip. rewrite !rev_app_distr.
  change (rev [nl] ++ rev [z] ++ rev (c :: s)) with (nl :: z :: rev (c :: s)).
  cbn [lstrip]. change (Estimator.isspace nl) with true. cbv iota.
  rewrite Hz.
  change (z :: rev (c :: s)) with (rev [z] ++ rev (c :: s)).
  rewrite <- rev_app_distr, rev_involutive. reflexivity.
Qed.

Local Open Scope nat_scope.

(** X20. For a GitHub remote in the HTTPS or the SSH form,
    [https://github.com/<name>.git] or [git@github.com:<name>.git], the
    function returns [<name>], when the name has no colon and no [.git]
    inside. *)
Theorem repo_of_github_remote (name : str) :
  ~ In ":"%char name -> ~ occurs (lit ".git") name ->
  get_repo_from_remote
    (Some (lit "https://github.com/" ++ name ++ lit ".git" ++ [nl])) = Some name /\
  get_repo_from_remote
    (Some (lit "git@github.com:" ++ name ++ lit ".git" ++ [nl])) = Some name.
Proof.
  intros Hcolon Hgit.
  assert (Hfree : forall prefix, In ":"%char prefix ->
                                 free_of prefix (name ++ lit ".git")).
  { intros prefix Hp. apply (missing_char_free ":"%char); [assumption|].
    intros Hin. apply in_app_or in Hin. destruct Hin as [Hin|Hin]; [tauto|].
    simpl in Hin. intuition discriminate. }
  split; unfold get_repo_from_remote.
  - replace (lit "https://github.com/" ++ name ++ lit ".git" ++ [nl])
      with (("h"%char :: (lit "ttps://github.com/" ++ name ++ lit ".gi") ++ ["t"%char]) ++ [nl])
      by (cbn [lit list_ascii_of_string app]; rewrite <- ?app_assoc; reflexivity).
    rewrite strip_line by reflexivity.
    replace ("h"%char :: (lit "ttps://github.com/" ++ name ++ lit ".gi") ++ ["t"%char])
      with (lit "https://github.com/" ++ name ++ lit ".git")
      by (cbn [lit list_ascii_of_string app]; rewrite <- ?app_assoc; reflexivity).
    cbv zeta.
    assert (S1 : forall x, startswith (lit "https://")
                             (lit "https://github.com/" ++ x) = true)
      by reflexivity.
    rewrite S1.
    rewrite replace_head by discriminate.
    rewrite (replace_free (lit "https://github.com/") [] (name ++ lit ".git"))
      by (apply Hfree; simpl; tauto).
    cbn [app]. now rewrite git_suffix_free.
  - replace (lit "git@github.com:" ++ name ++ lit ".git" ++ [nl])
      with (("g"%char :: (lit "it@github.com:" ++ name ++ lit ".gi") ++ ["t"%char]) ++ [nl])
      by (cbn [lit list_ascii_of_string app]; rewrite <- ?app_assoc; reflexivity).
    rewrite strip_line by reflexivity.
    replace ("g"%char :: (lit "it@github.com:" ++ name ++ lit ".gi") ++ ["t"%char])
      with (lit "git@github.com:" ++ name ++ lit ".git")
      by (cbn [lit list_ascii_of_string app]; rewrite <- ?app_assoc; reflexivity).
    cbv zeta.
    assert (S1 : forall x, startswith (lit "https://")
                             (lit "git@github.com:" ++ x) = false)
      by reflexivity.
    assert (S2 : forall x, startswith (lit "git@")
                             (lit "git@github.com:" ++ x) = true)
      by reflexivity.
    rewrite S1, S2.
    rewrite replace_head by discriminate.
    rewrite (replace_free (lit "git@github.com:") [] (name ++ lit ".git"))
      by (apply Hfree; simpl; tauto).
    cbn [app]. now rewrite git_suffix_free.
Qed.

Lemma replace_from_length (old s : str) (k : nat) :
  List.length (replace_from k old [] s) <= List.length s - k.
Proof.
  revert k. induction s as [|c s IH]; intros k; [simpl; lia|].
  cbn [replace_from]. destruct k as [|k].
  - destruct (startswith old (c :: s)).
    + cbn [app]. specialize (IH (List.length old - 1)). simpl. lia.
    + specialize (IH 0). simpl. lia.
  - specialize (IH k). simpl. lia.
Qed.

Lemma replace_removes (old s : str) :
  old <> [] -> occurs old s ->
  List.length (replace old [] s) + List.length old <= List.length s.
Proof.
  intros Hne. unfold replace. induction s as [|c s IH]; intros (a & b & E).
  - destruct a; [destruct old; [contradiction|discriminate E]|discriminate E].
  - cbn [replace_from]. destruct (startswith old (c :: s)) eqn:S.
    + apply startswith_length in S. cbn [app].
      pose proof (replace_from_length old s (List.length old - 1)).
      simpl in *. destruct old; [contradiction|]. simpl in *. lia.
    + destruct a as [|x a].
      * exfalso. cbn [app] in E. rewrite E, startswith_app in S. discriminate.
      * injection E as _ E. specialize (IH (ex_intro _ a (ex_intro _ b E))).
        simpl. lia.
Qed.

(** X21. [.git] is removed wherever it occurs, not only at the end: a
    repository whose name contains [.git] (as every [<user>.github.io]
    does) comes back at least four characters short. *)
Theorem repo_name_with_git_inside_is_cut (name : str) (z : ascii) :
  occurs (lit ".git") (name ++ [z]) -> ~ In ":"%char (name ++ [z]) ->
  Estimator.isspace z = false ->
  exists r,
    get_repo_from_remote
      (Some (lit "https://github.com/" ++ (name ++ [z]) ++ [nl])) = Some r /\
    List.length r + 4 <= List.length (name ++ [z]).
Proof.
  intros Hocc Hcolon Hz. unfold get_repo_from_remote.
  replace (lit "https://github.com/" ++ (name ++ [z]) ++ [nl])
    with (("h"%char :: (lit "ttps://github.com/" ++ name) ++ [z]) ++ [nl])
    by (cbn [lit list_ascii_of_string app]; rewrite <- ?app_assoc; reflexivity).
  rewrite strip_line by (reflexivity || assumption).
  replace ("h"%char :: (lit "ttps://github.com/" ++ name) ++ [z])
    with (lit "https://github.com/" ++ (name ++ [z]))
    by (cbn [lit list_ascii_of_string app]; rewrite <- ?app_assoc; reflexivity).
  cbv zeta.
  assert (S1 : forall x, startswith (lit "https://")
                           (lit "https://github.com/" ++ x) = true)
    by reflexivity.
  rewrite S1.
  rewrite replace_head by discriminate.
  rewrite (replace_free (lit "https://github.com/") [] (name ++ [z]))
    by (apply (missing_char_free ":"%char); [simpl; tauto|assumption]).
  cbn [app]. eexists. split; [reflexivity|].
  apply (replace_removes (lit ".git")); [discriminate|assumption].
Qed.

End RemoteUrl.

Lemma repo_of_github_remote_witness :
  Describer.get_repo_from_remote
    (Some (lit "https://github.com/" ++ lit "nahue/pr_toolbox" ++ lit ".git" ++ [nl]))
    = Some (lit "nahue/pr_toolbox") /\
  Describer.get_repo_from_remote
    (Some (lit "git@github.com:" ++ lit "nahue/pr_toolbox" ++ lit ".git" ++ [nl]))
    = Some (lit "nahue/pr_toolbox").
Proof.
  apply (repo_of_github_remote (lit "nahue/pr_toolbox")).
  - simpl. intuition discriminate.
  - apply (fun H => H). intros (a & b & E).
    assert (In "."%char (lit "nahue/pr_toolbox")).
    { rewrite E. apply in_or_app. right. now left. }
    simpl in H. intuition discriminate.
Defined.

Lemma repo_name_with_git_inside_is_cut_witness :
  exists r,
    Describer.get_repo_from_remote
      (Some (lit "https://github.com/" ++ (lit "octo/octo.github.i" ++ ["o"%char])
             ++ [nl])) = Some r /\
    List.length r + 4 <= List.length (lit "octo/octo.github.i" ++ ["o"%char]).
Proof.
  apply (repo_name_with_git_inside_is_cut (lit "octo/octo.github.i") "o"%char).
  - exists (lit "octo/octo"), (lit "hub.io"). reflexivity.
  - simpl. intuition discriminate.
  - reflexivity.
Defined.

Section TruncatedChunk.
Import Collector Splitter.

Lemma filter_unmarked (ls : list str) :
  Forall unmarked ls -> filter names_file ls = [].
Proof.
  induction 1 as [|l ls Hl _ IH]; [reflexivity|].
  cbn [filter]. unfold names_file. unfold unmarked in Hl. rewrite Hl.
  exact IH.
Qed.

Lemma firstn_Forall {A : Type} (P : A -> Prop) (n : nat) (l : list A) :
  Forall P l -> Forall P (firstn n l).
Proof.
  intros H. rewrite Forall_forall in *. intros x Hx. apply H.
  rewrite <- (firstn_skipn n l). apply in_or_app. now left.
Qed.

(** X11. A truncated file is a chunk under an annotated name: the blob of
    such a file alone splits into one chunk whose name is the file name
    followed by [ (large file - showing first 500 lines)]. *)
Theorem truncated_chunk_name (f : ChangedFile) (p : str) :
  patch f = Some p -> p <> [] ->
  endswith_any binary_suffixes (filename f) = false ->
  (1000 < additions f + deletions f)%N ->
  no_nl (filename f) -> no_nl (status f) ->
  Forall (fun l => startswith (lit "File: ") l = false) (split_nl p) ->
  map fst (_split_diff_into_files (get_pr_diff [f])) =
  [filename f ++ lit " (large file - showing first 500 lines)"].
Proof.
  intros Hp Hne Hbin Hbig Hn Hs Hlines.
  assert (E : get_pr_diff [f] = truncated_text f p).
  { unfold get_pr_diff, run. cbn [fold_left]. unfold Collector.step.
    rewrite (patch_text_some f Hp Hne), Hbin.
    apply N.ltb_lt in Hbig. rewrite Hbig. reflexivity. }
  rewrite E. unfold _split_diff_into_files.
  rewrite flush_names_fold by exact I.
  cbn [flush Splitter.init current_file chunks map app].
  set (kept := firstn 500 (split_nl p)).
  assert (Hkept : kept <> [] /\ Forall no_nl kept /\ Forall unmarked kept).
  { subst kept. repeat split.
    - pose proof (split_nl_not_nil p). destruct (split_nl p); [contradiction|discriminate].
    - apply firstn_Forall, split_nl_no_nl.
    - now apply firstn_Forall. }
  destruct Hkept as (K1 & K2 & K3).
  assert (L : split_nl (truncated_text f p) =
              (lit "File: " ++ filename f ++
               lit " (large file - showing first 500 lines)") ::
              [lit "Status: " ++ status f;
               lit "Additions: " ++ str_of_N (additions f) ++
                 lit ", Deletions: " ++ str_of_N (deletions f);
               lit "---"] ++ kept ++
              [lit "... (truncated due to size)"; []; []]).
  { unfold truncated_text, header_tail. fold kept.
    replace (lit "File: " ++ filename f ++
             lit " (large file - showing first 500 lines)" ++ [nl] ++
             (lit "Status: " ++ status f ++ [nl] ++
              lit "Additions: " ++ str_of_N (additions f) ++
              lit ", Deletions: " ++ str_of_N (deletions f) ++ [nl] ++
              lit "---" ++ [nl]) ++
             join_nl kept ++ [nl] ++ lit "... (truncated due to size)" ++ [nl; nl])
      with ((lit "File: " ++ filename f ++
             lit " (large file - showing first 500 lines)") ++ nl ::
            (lit "Status: " ++ status f) ++ nl ::
            (lit "Additions: " ++ str_of_N (additions f) ++
             lit ", Deletions: " ++ str_of_N (deletions f)) ++ nl ::
            lit "---" ++ nl ::
            join_nl kept ++ nl :: lit "... (truncated due to size)" ++ [nl; nl])
      by (repeat (rewrite <- app_assoc; cbn [app]); reflexivity).
    rewrite split_nl_cons_line; cycle 1.
    { apply no_nl_app; [unfold no_nl; simpl; intuition discriminate|].
      apply no_nl_app; [assumption|unfold no_nl; simpl; intuition discriminate]. }
    rewrite split_nl_cons_line by now apply no_nl_lit_status.
    rewrite split_nl_cons_line by apply no_nl_counts.
    rewrite split_nl_cons_line by (unfold no_nl; simpl; intuition discriminate).
    rewrite split_nl_app, split_join_nl by assumption.
    reflexivity. }
  rewrite L. cbn [filter].
  assert (N1 : names_file (lit "File: " ++ filename f ++
                           lit " (large file - showing first 500 lines)") = true).
  { unfold names_file. change (lit "File: ") with file_marker.
    rewrite startswith_app. cbn [andb].
    change (skipn 6 (file_marker ++ filename f ++
                     lit " (large file - showing first 500 lines)"))
      with (filename f ++ lit " (large file - showing first 500 lines)").
    destruct (filename f); reflexivity. }
  rewrite N1.
  rewrite filter_unmarked.
  - reflexivity.
  - repeat (apply Forall_cons; [reflexivity|]). cbn [app].
    apply Forall_app. split; [assumption|].
    repeat (apply Forall_cons; [reflexivity|]). constructor.
Qed.

End TruncatedChunk.

Lemma truncated_chunk_name_witness :
  map fst (Splitter._split_diff_into_files
             (Collector.get_pr_diff [edited_file 1000 1])) =
  [lit "app.py" ++ lit " (large file - showing first 500 lines)"].
Proof.
  refine (truncated_chunk_name (edited_file 1000 1)
            (lit "@@ -1 +1 @@" ++ [nl] ++ lit "+x = 1") _ _ _ _ _ _ _).
  - reflexivity.
  - discriminate.
  - reflexivity.
  - reflexivity.
  - unfold no_nl. simpl. intuition discriminate.
  - unfold no_nl. simpl. intuition discriminate.
  - repeat constructor.
Defined.

(** A completion API for the single-shot mode that always answers with an
    empty text. *)
Definition silent : str -> str -> str -> str -> Requester.completion :=
  fun _ _ _ _ => Requester.Message (Some []).

Definition long_text : str := List.repeat "x"%char (N.to_nat 60010).

Lemma short_diff_single_request_witness :
  (exists n, Estimator._estimate_tokens (lit "a b") = Ok n /\ (0 <= n <= 4000)%Z) /\
  Requester.analyze_code_with_openai Sample.json_loads
    (SampleRun.chat_of SampleRun.three_replies)
    SampleRun.no_floats SampleRun.set_order
    Sample.console_print Sample.error_text
    (SampleRun.error_text_of SampleRun.three_replies) silent
    (lit "a b") SampleRun.title SampleRun.body =
  Requester.single_request Sample.json_loads
    Sample.console_print Sample.error_text silent (lit "gpt-4")
    (lit "a b") SampleRun.title SampleRun.body.
Proof.
  apply (short_diff_single_request Sample.json_loads
           (SampleRun.chat_of SampleRun.three_replies)
           SampleRun.no_floats SampleRun.set_order
           Sample.console_print Sample.error_text
           (SampleRun.error_text_of SampleRun.three_replies) silent
           (lit "a b") SampleRun.title SampleRun.body).
  discriminate.
Defined.

Lemma long_diff_chunked_witness :
  (exists n, Estimator._estimate_tokens long_text = Ok n /\ (6000 < n)%Z) /\
  Requester.analyze_code_with_openai Sample.json_loads
    (SampleRun.chat_of SampleRun.three_replies)
    SampleRun.no_floats SampleRun.set_order
    Sample.console_print Sample.error_text
    (SampleRun.error_text_of SampleRun.three_replies) silent
    long_text SampleRun.title SampleRun.body =
  Requester.chunked Sample.json_loads
    (SampleRun.chat_of SampleRun.three_replies)
    SampleRun.no_floats SampleRun.set_order
    Sample.console_print Sample.error_text
    (SampleRun.error_text_of SampleRun.three_replies)
    long_text SampleRun.title SampleRun.body.
Proof.
  apply (long_diff_chunked Sample.json_loads
           (SampleRun.chat_of SampleRun.three_replies)
           SampleRun.no_floats SampleRun.set_order
           Sample.console_print Sample.error_text
           (SampleRun.error_text_of SampleRun.three_replies) silent
           long_text SampleRun.title SampleRun.body).
  unfold long_text. rewrite repeat_length, N_nat_Z.
  split; [discriminate|reflexivity].
Defined.

Lemma empty_completion_single_request_witness :
  Requester.analyze_code_with_openai Sample.json_loads
    (SampleRun.chat_of [Merger.Content (Some [])])
    SampleRun.no_floats SampleRun.set_order
    Sample.console_print Sample.error_text no_text silent
    (lit "a b") SampleRun.title SampleRun.body =
  Requester.Returns
    (Reconciler.Build_ReviewResult []
       (pstr "Error parsing OpenAI response") (PInt 0)
       (PList [pstr "Review the code manually"])) /\
  Merger.step Sample.json_loads (SampleRun.chat_of [Merger.Content (Some [])])
    Sample.console_print Sample.error_text no_text
    SampleRun.title fallback_added (0, (lit "f0.py", lit "File: f0.py")) =
  Ok fallback_added.
Proof.
  destruct (empty_completion_single_request Sample.json_loads
              (SampleRun.chat_of [Merger.Content (Some [])])
              SampleRun.no_floats SampleRun.set_order
              Sample.console_print Sample.error_text no_text silent)
    as [Hsingle Hchunk].
  split.
  - apply Hsingle; [discriminate|reflexivity|reflexivity|reflexivity].
  - apply Hchunk. reflexivity.
Defined.

Section ReportScore.
Import Reconciler Reporter.

Variable json_loads : str -> option pyval.
Variable console_print : str -> option str.
Variable error_text : str -> str.

Definition is_number (v : pyval) : Prop :=
  match v with
  | PBool _ | PInt _ | PFloat _ => True
  | _ => False
  end.

Lemma score_color_of_number (v : pyval) :
  is_number v -> exists colour, score_color v = Ok colour.
Proof.
  unfold score_color.
  destruct v as [|x|z|f|s|l|d]; intros H; try contradiction; cbn [ge_int bind].
  - destruct (80 <=? (if x then 1 else 0))%Z; [eexists; reflexivity|].
    destruct (60 <=? (if x then 1 else 0))%Z; eexists; reflexivity.
  - destruct (80 <=? z)%Z; [eexists; reflexivity|].
    destruct (60 <=? z)%Z; eexists; reflexivity.
  - destruct (SFleb _ f); [eexists; reflexivity|].
    destruct (SFleb _ f); eexists; reflexivity.
Qed.

(** X22. The score of a reply reaches the report unchecked: when the
    decoded object (with issues that are a list of objects, or missing)
    carries an [overall_score], the result holds that value whatever its
    type, and the colour of the score in the report is computed exactly
    when it is a number ([int], [float] or [bool]); for [null], a string, a
    list or an object the comparison raises [TypeError]. *)
Theorem score_reaches_report_unchecked
  (a b c : str) (d : list (str * pyval)) (items : list (list (str * pyval)))
  (v : pyval) :
  ~ In open_brace a -> ~ In close_brace c ->
  json_loads (open_brace :: b ++ [close_brace]) = Some (PDict d) ->
  field d "issues" (PList []) = PList (map PDict items) ->
  dict_get d (lit "overall_score") = Some v ->
  exists r,
    _parse_openai_response json_loads console_print error_text
      (a ++ open_brace :: b ++ close_brace :: c) = Ok r /\
    overall_score r = v /\
    (is_number v -> exists colour, score_color (overall_score r) = Ok colour) /\
    (~ is_number v -> score_color (overall_score r) = Raise TypeError).
Proof.
  intros Ha Hc Hj Hi Hv.
  unfold _parse_openai_response, parse_body.
  rewrite (@search_braces_spec a b c Ha Hc), Hj.
  cbn [py_get bind]. fold (field d "issues" (PList [])). rewrite Hi.
  cbn [py_iter bind].
  destruct (issues_of_dicts items) as (l & El & _).
  rewrite El, Hv. cbn [bind]. eexists. split; [reflexivity|].
  cbn [overall_score]. repeat split.
  - apply score_color_of_number.
  - intros Hn. destruct v; try reflexivity; exfalso; apply Hn; exact I.
Qed.

End ReportScore.

Definition worded_score_json : str :=
  lit "{" ++ Sample.q "overall_score" ++ lit ": " ++ Sample.q "85" ++ lit "}".

Definition worded_score_loads (j : str) : option pyval :=
  if str_eqb j worded_score_json
  then Some (PDict [(lit "overall_score", pstr "85")])
  else None.

Lemma score_reaches_report_unchecked_witness :
  exists r,
    Reconciler._parse_openai_response worded_score_loads
      Sample.console_print Sample.error_text
      ([] ++ open_brace :: removelast (tl worded_score_json)
          ++ close_brace :: []) = Ok r /\
    Reconciler.overall_score r = pstr "85" /\
    (is_number (pstr "85") ->
     exists colour,
       Reporter.score_color (Reconciler.overall_score r) = Ok colour) /\
    (~ is_number (pstr "85") ->
     Reporter.score_color (Reconciler.overall_score r) = Raise TypeError).
Proof.
  refine (score_reaches_report_unchecked worded_score_loads
            Sample.console_print Sample.error_text
            [] (removelast (tl worded_score_json)) []
            [(lit "overall_score", pstr "85")] [] (pstr "85") _ _ _ _ _).
  - intros [].
  - intros [].
  - reflexivity.
  - reflexivity.
  - reflexivity.
Defined.

Section Description.
Import PyText Merger Describer.

Definition blank (s : str) : Prop :=
  Forall (fun ch => Estimator.isspace ch = true) s.

Lemma lstrip_cases (s : str) :
  (blank s /\ lstrip s = []) \/
  exists ch t, Estimator.isspace ch = false /\ lstrip s = ch :: t.
Proof.
  induction s as [|x s IH]; cbn [lstrip].
  - left. split; [constructor|reflexivity].
  - destruct (Estimator.isspace x) eqn:Ex.
    + destruct IH as [[B E] | IH]; [left|right; exact IH].
      split; [constructor; assumption|exact E].
    + right. now exists x, s.
Qed.

Lemma lstrip_not_blank (s : str) (ch : ascii) (t : str) :
  lstrip s = ch :: t -> Estimator.isspace ch = false -> ~ blank s.
Proof.
  induction s as [|x s IH]; cbn [lstrip]; [discriminate|].
  intros E Hch B. inversion B as [|? ? Bx Bs]; subst.
  rewrite Bx in E. now apply (IH E Hch).
Qed.

Lemma strip_blank (s : str) : strip s = [] <-> blank s.
Proof.
  unfold strip. destruct (lstrip_cases s) as [[B E] | (ch & t & Hch & E)].
  - rewrite E. split; [intros _; exact B|reflexivity].
  - rewrite E. destruct (rstrip_keeps_head ch t Hch) as (t' & Et).
    rewrite Et. split; [discriminate|].
    intros B. exfalso. exact (lstrip_not_blank s ch t E Hch B).
Qed.

Lemma rstrip_last (s : str) (x : ascii) (t : str) :
  rstrip s = x :: t -> Estimator.isspace (last (x :: t) x) = false.
Proof.
  unfold rstrip. intros E.
  destruct (lstrip_cases (rev s)) as [[_ E0] | (ch & u & Hch & E1)].
  - rewrite E0 in E. discriminate.
  - rewrite E1 in E. cbn [rev] in E. rewrite <- E.
    rewrite last_last. exact Hch.
Qed.

(** X23. [main] reports [Failed to generate description] exactly when the
    request fails, the completion has no content, or the content is blank
    (empty or whitespace only); otherwise it shows the content without the
    whitespace at its ends, a text that begins and ends with a character
    that is not whitespace. *)
Theorem blank_description_is_failure (reply : api_reply) :
  (shown_description reply = None <->
   reply = Failed \/ reply = Content None \/
   exists content, reply = Content (Some content) /\ blank content) /\
  forall shown, shown_description reply = Some shown ->
    exists content x t,
      reply = Content (Some content) /\ shown = strip content /\
      shown = x :: t /\
      Estimator.isspace x = false /\ Estimator.isspace (last shown x) = false.
Proof.
  unfold shown_description, generate_pr_description.
  destruct reply as [|[content|]].
  - split; [split; auto|discriminate].
  - destruct (strip content) as [|x t] eqn:E; cbn [truthy].
    + split; [|discriminate]. split; [intros _|reflexivity].
      right. right. exists content. split; [reflexivity|].
      now apply strip_blank.
    + split.
      * split; [discriminate|].
        intros [H | [H | (c' & H & B)]]; try discriminate H.
        injection H as <-. apply strip_blank in B. congruence.
      * intros shown H. injection H as <-.
        exists content, x, t.
        split; [reflexivity|]. split; [now rewrite E|].
        split; [reflexivity|]. split.
        -- destruct (lstrip_cases content) as [[_ E0] | (ch & u & Hch & E1)].
           ++ unfold strip in E. rewrite E0 in E. discriminate.
           ++ unfold strip in E. rewrite E1 in E.
              destruct (rstrip_keeps_head ch u Hch) as (t' & Et).
              rewrite Et in E. injection E as <- _. exact Hch.
        -- unfold strip in E. exact (rstrip_last _ _ _ E).
  - split; [split; auto|discriminate].
Qed.

End Description.
